(** * Parcel edge classification and viewport index: a shallow embedding

    The development follows [src/lib/geo/parcelAnalysis.ts] (edge
    extraction, road-candidate evaluation, edge classification and lot-type
    inference) and [src/lib/geo/parcelViewportIndex.ts] (the viewport grid
    index), and their callers: [src/lib/geo/edgeFeatures.ts] and the hooks
    [useRenderedParcels] and [useParcelSelection].

    Numbers.  A TypeScript [number] is modelled by an exact rational [Q]:
    the properties below are about comparisons, thresholds and the order of
    the passes, not about rounding.  [Number.POSITIVE_INFINITY] is written
    [None] where the source uses it as a sentinel.

    Strings.  A string is a [string] of 8-bit characters; the regular
    expressions of the source are written out as scanners over it.

    Libraries.  Turf ([distance], [bearing], [pointToLineDistance], [area]),
    [Math.cos], [Math.pow] and [Number.prototype.toFixed] are not code of the
    repository; they are fields of the record [Host], and every definition
    that calls them takes the host as an argument. *)

From Stdlib Require Import QArith Qround Qabs ZArith Lia Lqa Bool Ascii String.
From Stdlib Require Import Sorted Permutation.
From stdpp Require Import base gmap list strings pretty.

(** ** Numbers *)

Module JsNum.
Local Open Scope Q_scope.

(** [a < b], [a <= b] and [a === b] on numbers. *)
Definition Qltb (x y : Q) : bool :=
  match x ?= y with Lt => true | _ => false end.
Definition Qleb (x y : Q) : bool :=
  match x ?= y with Gt => false | _ => true end.
Definition Qeqb (x y : Q) : bool :=
  match x ?= y with Eq => true | _ => false end.

(** Truncation toward zero, the integer part used by [%] and by
    [Array.prototype.slice]. *)
Definition Qtrunc (x : Q) : Z := Z.quot (Qnum x) (Z.pos (Qden x)).

(** [a % n]: the remainder has the sign of the dividend. *)
Definition js_rem (a n : Q) : Q := a - n * inject_Z (Qtrunc (a / n)).

Definition Math_abs (x : Q) : Q := Qabs x.
Definition Math_max (x y : Q) : Q := if Qltb x y then y else x.
Definition Math_min (x y : Q) : Q := if Qltb y x then y else x.
Definition Math_floor (x : Q) : Z := Qfloor x.
Definition Math_ceil (x : Q) : Z := Qceiling x.

(** [Math.PI], the double nearest to pi. *)
Definition Math_PI : Q := 884279719003555 # 281474976710656.

End JsNum.

(** ** Strings *)

Module JsString.
Local Open Scope string_scope.
Local Open Scope N_scope.

Definition inRange (lo hi : N) (c : ascii) : bool :=
  let n := N_of_ascii c in (lo <=? n) && (n <=? hi).

Definition isDigit (c : ascii) : bool := inRange 48 57 c.
Definition isUpper (c : ascii) : bool := inRange 65 90 c.
Definition isLower (c : ascii) : bool := inRange 97 122 c.
Definition isLetter (c : ascii) : bool := isUpper c || isLower c.

(** [\w] *)
Definition isWordChar (c : ascii) : bool :=
  isLetter c || isDigit c || Ascii.eqb c "_".

(** [\s] on 8-bit characters: tab, line feed, vertical tab, form feed,
    carriage return, space. *)
Definition isSpaceChar (c : ascii) : bool :=
  inRange 9 13 c || Ascii.eqb c " ".

Definition lowerChar (c : ascii) : ascii :=
  if isUpper c then ascii_of_N (N_of_ascii c + 32) else c.

Fixpoint toLowerCase (s : string) : string :=
  match s with
  | EmptyString => EmptyString
  | String c s' => String (lowerChar c) (toLowerCase s')
  end.

Fixpoint trimStart (s : string) : string :=
  match s with
  | String c s' => if isSpaceChar c then trimStart s' else s
  | EmptyString => EmptyString
  end.

Fixpoint rev_string (s : string) (acc : string) : string :=
  match s with
  | EmptyString => acc
  | String c s' => rev_string s' (String c acc)
  end.

Definition trimEnd (s : string) : string :=
  rev_string (trimStart (rev_string s "")) "".

Definition trim (s : string) : string := trimEnd (trimStart s).

Definition isEmpty (s : string) : bool :=
  match s with EmptyString => true | _ => false end.

Definition startsWith (s p : string) : bool := String.prefix p s.

Definition endsWith (s p : string) : bool :=
  String.prefix (rev_string p "") (rev_string s "").

(** [s.includes(p)], also [/p/.test(s)] for a literal [p]. *)
Fixpoint includes (s p : string) : bool :=
  String.prefix p s ||
  match s with
  | EmptyString => false
  | String _ s' => includes s' p
  end.

Definition includesAny (s : string) (ps : list string) : bool :=
  existsb (includes s) ps.

(** [s.replace(/[.,]/g, ' ')] *)
Fixpoint replacePunct (s : string) : string :=
  match s with
  | EmptyString => EmptyString
  | String c s' =>
      String (if Ascii.eqb c "." || Ascii.eqb c "," then " "%char else c)
             (replacePunct s')
  end.

(** Is there a word boundary before [s], given whether the previous
    character is a word character? *)
Definition boundaryAt (prevWord : bool) (s : string) : bool :=
  match s with
  | EmptyString => prevWord
  | String c _ => xorb prevWord (isWordChar c)
  end.

(** Does [\bw\b] match at the start of [s]?  [w] is made of word
    characters, so the boundary before it is that the previous character is
    not one of them, and the boundary after it that the next one is not. *)
Definition wordAt (prevWord : bool) (w s : string) : bool :=
  negb prevWord && String.prefix w s &&
  boundaryAt true (String.substring (String.length w) (String.length s) s).

(** [s.replace(/\bw\b/g, r)], scanning from the left; [skip] counts the
    characters of a match still to be consumed. *)
Fixpoint replaceWordFrom (w r : string) (prevWord : bool) (skip : nat)
    (s : string) : string :=
  match s with
  | EmptyString => EmptyString
  | String c s' =>
      match skip with
      | S k => replaceWordFrom w r (isWordChar c) k s'
      | O =>
          if wordAt prevWord w s
          then r ++ replaceWordFrom w r (isWordChar c) (Nat.pred (String.length w)) s'
          else String c (replaceWordFrom w r (isWordChar c) O s')
      end
  end.

Definition replaceWord (w r s : string) : string :=
  replaceWordFrom w r false O s.

(** [/\bw\b/.test(s)] *)
Fixpoint testWordFrom (w : string) (prevWord : bool) (s : string) : bool :=
  wordAt prevWord w s ||
  match s with
  | EmptyString => false
  | String c s' => testWordFrom w (isWordChar c) s'
  end.

Definition testWord (w s : string) : bool := testWordFrom w false s.

Definition testAnyWord (ws : list string) (s : string) : bool :=
  existsb (fun w => testWord w s) ws.

(** [s.replace(/\s+/g, ' ')]: [inRun] tells that the previous character was
    white space, already replaced. *)
Fixpoint collapseSpacesFrom (inRun : bool) (s : string) : string :=
  match s with
  | EmptyString => EmptyString
  | String c s' =>
      if isSpaceChar c
      then if inRun then collapseSpacesFrom true s'
           else String " " (collapseSpacesFrom true s')
      else String c (collapseSpacesFrom false s')
  end.

Definition collapseSpaces (s : string) : string := collapseSpacesFrom false s.

(** [s.split(/\s+/)]: [cur] is the part being read, reversed. *)
Fixpoint splitSpacesFrom (inRun : bool) (cur : string) (s : string)
    : list string :=
  match s with
  | EmptyString => [rev_string cur ""]
  | String c s' =>
      if isSpaceChar c
      then if inRun then splitSpacesFrom true cur s'
           else rev_string cur "" :: splitSpacesFrom true "" s'
      else splitSpacesFrom false (String c cur) s'
  end.

Definition splitSpaces (s : string) : list string :=
  splitSpacesFrom false "" s.

(** [parts.join(' ')] *)
Fixpoint joinSpace (parts : list string) : string :=
  match parts with
  | [] => ""
  | [p] => p
  | p :: rest => p ++ " " ++ joinSpace rest
  end.

(** [/^\d+[a-zA-Z]?$/.test(s)] *)
Fixpoint digitsThenLetter (seenDigit : bool) (s : string) : bool :=
  match s with
  | EmptyString => seenDigit
  | String c s' =>
      if isDigit c then digitsThenLetter true s'
      else seenDigit && isLetter c && isEmpty s'
  end.

Definition isCivicNumber (s : string) : bool := digitsThenLetter false s.

(** [/a[\s_-]?b/.test(s)]: [a], then at most one of white space, [_] or
    [-], then [b]. *)
Definition isSepChar (c : ascii) : bool :=
  isSpaceChar c || Ascii.eqb c "_" || Ascii.eqb c "-".

Definition optSepAt (a b s : string) : bool :=
  String.prefix a s &&
  let rest := String.substring (String.length a) (String.length s) s in
  String.prefix b rest ||
  match rest with
  | String c rest' => isSepChar c && String.prefix b rest'
  | EmptyString => false
  end.

Fixpoint testOptSep (a b s : string) : bool :=
  optSepAt a b s ||
  match s with
  | EmptyString => false
  | String _ s' => testOptSep a b s'
  end.

End JsString.

(** ** Data model ([src/types/parcel.ts]) *)

Definition Position : Type := (Q * Q)%type.

Inductive EdgeType := Frontage | Flankage | RearLane | Rear | Side.

(** [Exclude<RoadKind, null>]; [RoadKind] itself is [option Kind]. *)
Inductive Kind := street | lane.
Definition RoadKind : Type := option Kind.

Inductive LotType :=
  CornerLot | DoubleFronting | StandardWithLane | StandardWithoutLane.

Inductive Confidence := high | medium | low.

Record ParcelProperties := {
  parcel_id : string;
  siteId : string;
  taxCoord : string;
  civicNumber : string;
  streetName : string;
  fullAddress : string;
  lon : Q;
  lat : Q
}.

(** [geometry.coordinates] of the polygon: its rings. *)
Record ParcelFeature := {
  coordinates : list (list Position);
  properties : ParcelProperties
}.

Record EdgeAnalysis := {
  index : nat;
  start : Position;
  end_ : Position;
  midpoint : Position;
  lengthMeters : Q;
  type : EdgeType;
  roadKind : RoadKind;
  roadName : string;
  roadClass : string;
  roadDistanceMeters : option Q;
  edge_orientationDiffDeg : option Q;
  isRoadAdjacent : bool;
  debug : string
}.

Record ParcelAnalysis := {
  areaM2 : Q;
  primaryStreet : string;
  lotType : LotType;
  reason : string;
  confidence : Confidence;
  edges : list EdgeAnalysis
}.

#[global] Instance EdgeType_eq_dec : EqDecision EdgeType.
Proof. solve_decision. Defined.
#[global] Instance Kind_eq_dec : EqDecision Kind.
Proof. solve_decision. Defined.
#[global] Instance LotType_eq_dec : EqDecision LotType.
Proof. solve_decision. Defined.
#[global] Instance Confidence_eq_dec : EqDecision Confidence.
Proof. solve_decision. Defined.

(** ** The libraries and the map provider *)

(** Turf, [Math] and [toFixed], as the analysis calls them.
    [turf_pointToLineDistance p a b] is the distance from [p] to the
    two-point line string [a, b]; [toFixed x d] is [x.toFixed(d)]. *)
Record Host := {
  turf_distance : Position -> Position -> Q;
  turf_bearing : Position -> Position -> Q;
  turf_pointToLineDistance : Position -> Position -> Position -> Q;
  turf_area : list (list Position) -> Q;
  Math_cos : Q -> Q;
  Math_pow : Q -> Q -> Q;
  toFixed : Q -> nat -> string
}.

(** A property value of a rendered feature ([unknown] in the source): only
    strings are read. *)
Inductive JsValue := JString (s : string) | JNumber (q : Q) | JNull.

(** A raw coordinate is an array of numbers; a line is an array of them. *)
Inductive Geometry :=
  | LineString (coords : list (list Q))
  | MultiLineString (coords : list (list (list Q)))
  | OtherGeometry.

Record GeoJSONFeature := {
  geometry : Geometry;
  feature_properties : gmap string JsValue;
  sourceLayer : option string
}.

(** The part of [mapbox-gl]'s [Map] the analysis uses. *)
Record MapboxMap := {
  project : Position -> Q * Q;
  getZoom : Q;
  queryRenderedFeatures : (Q * Q) * (Q * Q) -> list GeoJSONFeature
}.

(** ** Edge classification ([src/lib/geo/parcelAnalysis.ts]) *)

Import JsNum JsString.
Local Open Scope Q_scope.
Local Open Scope string_scope.

Definition ROAD_PROXIMITY_THRESHOLD_METERS : Q := 20.
Definition LANE_PROXIMITY_THRESHOLD_METERS : Q := 28.
Definition ROAD_ORIENTATION_THRESHOLD_DEG : Q := 55.
Definition LANE_ORIENTATION_THRESHOLD_DEG : Q := 85.
Definition RELAXED_FRONTAGE_STREET_DISTANCE_METERS : Q := 30.
Definition RELAXED_FRONTAGE_STREET_ORIENTATION_DEG : Q := 85.
Definition RELAXED_FLANKAGE_STREET_DISTANCE_METERS : Q := 24.
Definition RELAXED_FLANKAGE_STREET_ORIENTATION_DEG : Q := 70.
Definition RELAXED_LANE_DISTANCE_METERS : Q := 42.
Definition RELAXED_LANE_ORIENTATION_DEG : Q := 110.
Definition EDGE_QUERY_BUFFER_METERS : Q := 52.
Definition MIN_QUERY_PADDING_PX : Q := 38.
Definition MAX_QUERY_PADDING_PX : Q := 220.
Definition OPPOSITE_EDGE_STRICT_ORIENTATION_DEG : Q := 38.
Definition OPPOSITE_EDGE_RELAXED_ORIENTATION_DEG : Q := 62.
Definition EDGE_SELECTION_DISTANCE_TIE_METERS : Q := 3.
Definition EDGE_SELECTION_LENGTH_TIE_METERS : Q := 1.

(** The weight of one degree of orientation difference against one metre,
    the literal [0.45] of the score. *)
Definition ORIENTATION_WEIGHT : Q := 45 # 100.

Record RoadCandidate := {
  name : string;
  kind : Kind;
  className : string;
  candidate_sourceLayer : string;
  lines : list (list Position)
}.

(** [EvaluatedRoadCandidate extends RoadCandidate]. *)
Record EvaluatedRoadCandidate := {
  candidate : RoadCandidate;
  distanceMeters : Q;
  orientationDiffDeg : Q;
  score : Q;
  isAdjacent : bool
}.

Definition kindString (k : Kind) : string :=
  match k with street => "street" | lane => "lane" end.

(** The double quote of the diagnostics. *)
Definition dquote : string := String (ascii_of_N 34) EmptyString.

(** [a || b] on strings. *)
Definition orElse (a b : string) : string := if isEmpty a then b else a.

Definition normalizeStreetName (value : string) : string :=
  trim
    (collapseSpaces
    (replaceWord "w" "west"
    (replaceWord "e" "east"
    (replaceWord "s" "south"
    (replaceWord "n" "north"
    (replaceWord "ln" "lane"
    (replaceWord "dr" "drive"
    (replaceWord "rd" "road"
    (replaceWord "blvd" "boulevard"
    (replaceWord "ave" "avenue"
    (replaceWord "st" "street"
    (replacePunct
    (toLowerCase value))))))))))))).

Definition extractPrimaryStreet (address fallbackStreetName : string)
    : string :=
  let trimmed := trim address in
  if isEmpty trimmed then fallbackStreetName
  else
    let parts := splitSpaces trimmed in
    if (length parts <? 2)%nat then orElse fallbackStreetName trimmed
    else if isCivicNumber (List.hd "" parts)
         then joinSpace (List.tl parts)
         else orElse fallbackStreetName trimmed.

Definition suffixRoadKindFromName (name : string) : RoadKind :=
  let normalized := normalizeStreetName name in
  if isEmpty normalized then None
  else if endsWith normalized " lane" then Some lane
  else if endsWith normalized " street" then Some street
  else None.

Definition isBikeOrPedestrianWay (name className sourceLayer : string)
    : bool :=
  let joined := toLowerCase (name ++ " " ++ className ++ " " ++ sourceLayer) in
  includes joined "cycleway" || testOptSep "bike" "lane" joined ||
  includes joined "bikeway" || includes joined "greenway" ||
  testOptSep "shared" "use" joined || testOptSep "multi" "use" joined ||
  includes joined "footway" || includes joined "sidewalk" ||
  includes joined "pedestrian" || includes joined "crossing" ||
  includes joined "steps" || testWord "path" joined.

Abbreviation EdgeMatches := (gmap nat (list EvaluatedRoadCandidate)).

Section Analysis.
Context (host : Host).

(** The ring always holds positions, so the guard [!start || !end] never
    skips a pair and [index] is the place of the edge in the result. *)
Fixpoint ringEdgesFrom (index : nat) (coordinates : list Position)
    : list EdgeAnalysis :=
  match coordinates with
  | start :: (end_ :: _) as rest =>
      {| index := index;
         start := start;
         end_ := end_;
         midpoint := ((fst start + fst end_) / 2, (snd start + snd end_) / 2);
         lengthMeters := turf_distance host start end_;
         type := Side;
         roadKind := None;
         roadName := "";
         roadClass := "";
         roadDistanceMeters := None;
         edge_orientationDiffDeg := None;
         isRoadAdjacent := false;
         debug := "No road candidate found." |}
      :: ringEdgesFrom (S index) rest
  | _ => []
  end.

Definition toRingEdges (coordinates : list Position) : list EdgeAnalysis :=
  if (length coordinates <? 2)%nat then [] else ringEdgesFrom 0 coordinates.

Definition isLineGeometry (geometry : Geometry) : bool :=
  match geometry with
  | LineString _ | MultiLineString _ => true
  | OtherGeometry => false
  end.

Fixpoint readStringProperty (properties : gmap string JsValue)
    (keys : list string) : string :=
  match keys with
  | [] => ""
  | key :: keys' =>
      match properties !! key with
      | Some (JString value) =>
          if negb (isEmpty (trim value)) then trim value
          else readStringProperty properties keys'
      | _ => readStringProperty properties keys'
      end
  end.

Definition toPosition (value : list Q) : option Position :=
  match value with
  | lon :: lat :: _ => Some (lon, lat)
  | _ => None
  end.

Definition normalizeLine (rawLine : list (list Q)) : list Position :=
  omap toPosition rawLine.

Definition extractLineCollections (geometry : Geometry)
    : list (list Position) :=
  match geometry with
  | LineString coords =>
      let line := normalizeLine coords in
      if (2 <=? length line)%nat then [line] else []
  | MultiLineString coords =>
      List.filter (fun line => (2 <=? length line)%nat)
                  (List.map normalizeLine coords)
  | OtherGeometry => []
  end.

Definition roadLikeWords : list string :=
  ["road"; "street"; "motorway"; "residential"; "service"; "highway";
   "primary"; "secondary"; "tertiary"; "trunk"; "avenue"; "boulevard";
   "lane"; "alley"].

Definition explicitLaneWords : list string := ["lane"; "alley"; "alleyway"].

Definition explicitStreetWords : list string :=
  ["street"; "avenue"; "road"; "drive"; "boulevard"; "highway"; "parkway";
   "way"; "place"; "court"; "crescent"; "trail"; "terrace"; "connector"].

Definition laneLikeClassWords : list string :=
  ["lane"; "alley"; "driveway"; "access"].

(** The kind of a road-like feature, the last step of [toRoadCandidate]. *)
Definition inferKind (name classJoined : string) : Kind :=
  let suffixKind := suffixRoadKindFromName name in
  let normalizedName := normalizeStreetName name in
  let explicitLaneName := testAnyWord explicitLaneWords normalizedName in
  let explicitStreetName := testAnyWord explicitStreetWords normalizedName in
  let laneLikeClass := includesAny classJoined laneLikeClassWords in
  let serviceClass := testWord "service" classJoined in
  let laneLike :=
    explicitLaneName || laneLikeClass ||
    (serviceClass && negb explicitStreetName) in
  match suffixKind with
  | Some lane => lane
  | Some street => street
  | None => if laneLike then lane else street
  end.

Definition toRoadCandidate (feature : GeoJSONFeature) : option RoadCandidate :=
  if negb (isLineGeometry (geometry feature)) then None
  else
    let properties := feature_properties feature in
    let name := readStringProperty properties
                  ["name"; "name_en"; "streetname"; "ref"] in
    let className := readStringProperty properties
                       ["class"; "type"; "road_class"; "kind"] in
    let sourceLayer := default "" (sourceLayer feature) in
    let joined :=
      toLowerCase (name ++ " " ++ className ++ " " ++ sourceLayer) in
    let classJoined := toLowerCase (className ++ " " ++ sourceLayer) in
    let looksRoadLike := includesAny joined roadLikeWords in
    if negb looksRoadLike then None
    else if isBikeOrPedestrianWay name className sourceLayer then None
    else
      let lines := extractLineCollections (geometry feature) in
      if (length lines =? 0)%nat then None
      else Some {| name := name;
                   kind := inferKind name classJoined;
                   className := className;
                   candidate_sourceLayer := sourceLayer;
                   lines := lines |}.

Definition candidateKey (candidate : RoadCandidate) : string :=
  toLowerCase (name candidate) ++ "|" ++
  toLowerCase (className candidate) ++ "|" ++
  kindString (kind candidate) ++ "|" ++
  toLowerCase (candidate_sourceLayer candidate) ++ "|" ++
  pretty (length (lines candidate)).

Fixpoint uniqueCandidatesFrom (seen : gset string)
    (candidates : list RoadCandidate) : list RoadCandidate :=
  match candidates with
  | [] => []
  | candidate :: rest =>
      let key := candidateKey candidate in
      if decide (key ∈ seen) then uniqueCandidatesFrom seen rest
      else candidate :: uniqueCandidatesFrom ({[ key ]} ∪ seen) rest
  end.

Definition uniqueCandidates (candidates : list RoadCandidate)
    : list RoadCandidate :=
  uniqueCandidatesFrom ∅ candidates.

(** [Number.isFinite(result) ? result : 0]: a rational is finite. *)
Definition bearingDegrees (start end_ : Position) : Q :=
  turf_bearing host start end_.

Definition parallelOrientationDiffDeg (a b : Q) : Q :=
  let aNorm := js_rem (js_rem a 360 + 360) 360 in
  let bNorm := js_rem (js_rem b 360 + 360) 360 in
  let rawDiff := Math_abs (aNorm - bNorm) in
  let wrappedDiff := if Qltb 180 rawDiff then 360 - rawDiff else rawDiff in
  if Qltb 90 wrappedDiff then 180 - wrappedDiff else wrappedDiff.

Definition metersPerPixel (latitude zoom : Q) : Q :=
  let earthCircumferenceMeters : Q := 40075016686 # 1000 in
  (earthCircumferenceMeters * Math_cos host ((latitude * Math_PI) / 180)) /
  Math_pow host 2 (zoom + 8).

(** A division by zero gives [0] here and a non-finite number in the
    source; both take the first branch. *)
Definition edgeQueryPaddingPx (map : MapboxMap) (edge : EdgeAnalysis) : Q :=
  let mpp := metersPerPixel (snd (midpoint edge)) (getZoom map) in
  if Qleb mpp 0 then MIN_QUERY_PADDING_PX
  else
    let targetPadding := inject_Z (Math_ceil (EDGE_QUERY_BUFFER_METERS / mpp)) in
    Math_max MIN_QUERY_PADDING_PX (Math_min MAX_QUERY_PADDING_PX targetPadding).

(** The consecutive point pairs of a line, [line[i], line[i + 1]]. *)
Fixpoint lineSegments (line : list Position) : list (Position * Position) :=
  match line with
  | a :: (b :: _) as rest => (a, b) :: lineSegments rest
  | _ => []
  end.

Definition candidateSegments (candidate : RoadCandidate)
    : list (Position * Position) :=
  concat (List.map lineSegments (lines candidate)).

(** [segmentDistance] and [orientationDiff] of one segment. *)
Definition segmentMeasure (edge : EdgeAnalysis)
    (segment : Position * Position) : Q * Q :=
  let edgeBearing := bearingDegrees (start edge) (end_ edge) in
  (turf_pointToLineDistance host (midpoint edge) (fst segment) (snd segment),
   parallelOrientationDiffDeg edgeBearing
     (bearingDegrees (fst segment) (snd segment))).

Definition combinedScore (measure : Q * Q) : Q :=
  fst measure + snd measure * ORIENTATION_WEIGHT.

(** One turn of the inner loop.  [best] is [(bestDistance,
    bestOrientation)], [None] while both are [+Infinity]: a score is less
    than [+Infinity], so the first segment always replaces it, and
    [foundSegment] is true exactly when [best] is set. *)
Definition keepBest (best : option (Q * Q)) (measure : Q * Q)
    : option (Q * Q) :=
  match best with
  | None => Some measure
  | Some b =>
      if Qltb (combinedScore measure) (combinedScore b)
      then Some measure else best
  end.

Definition evaluateRoadCandidateForEdge (edge : EdgeAnalysis)
    (candidate : RoadCandidate) : option EvaluatedRoadCandidate :=
  match foldl keepBest None
          (List.map (segmentMeasure edge) (candidateSegments candidate)) with
  | None => None
  | Some (bestDistance, bestOrientation) =>
      let distanceThreshold :=
        match kind candidate with
        | lane => LANE_PROXIMITY_THRESHOLD_METERS
        | street => ROAD_PROXIMITY_THRESHOLD_METERS
        end in
      let orientationThreshold :=
        match kind candidate with
        | lane => LANE_ORIENTATION_THRESHOLD_DEG
        | street => ROAD_ORIENTATION_THRESHOLD_DEG
        end in
      Some {| candidate := candidate;
              distanceMeters := bestDistance;
              orientationDiffDeg := bestOrientation;
              score := combinedScore (bestDistance, bestOrientation);
              isAdjacent := Qleb bestDistance distanceThreshold &&
                            Qleb bestOrientation orientationThreshold |}
  end.

(** [Array.prototype.sort] with a comparator: a stable sort, written as an
    insertion sort.  [x] goes before the first [y] with
    [compareFn x y <= 0]. *)
Fixpoint insertSorted {A : Type} (compareFn : A -> A -> Q) (x : A)
    (sorted : list A) : list A :=
  match sorted with
  | [] => [x]
  | y :: rest =>
      if Qltb 0 (compareFn x y) then y :: insertSorted compareFn x rest
      else x :: sorted
  end.

Definition sortWith {A : Type} (compareFn : A -> A -> Q) (l : list A)
    : list A :=
  foldr (insertSorted compareFn) [] l.

Definition queryGeometry (map : MapboxMap) (edge : EdgeAnalysis)
    : (Q * Q) * (Q * Q) :=
  let startPx := project map (start edge) in
  let endPx := project map (end_ edge) in
  let paddingPx := edgeQueryPaddingPx map edge in
  ((Math_min (fst startPx) (fst endPx) - paddingPx,
    Math_min (snd startPx) (snd endPx) - paddingPx),
   (Math_max (fst startPx) (fst endPx) + paddingPx,
    Math_max (snd startPx) (snd endPx) + paddingPx)).

Definition queryRoadCandidatesForEdge (map : MapboxMap) (edge : EdgeAnalysis)
    : list RoadCandidate :=
  let features := queryRenderedFeatures map (queryGeometry map edge) in
  uniqueCandidates (omap toRoadCandidate features).

Definition compareEvaluated (a b : EvaluatedRoadCandidate) : Q :=
  if negb (Qeqb (score a) (score b)) then score a - score b
  else distanceMeters a - distanceMeters b.

Definition findEvaluatedRoadCandidatesForEdge (map : MapboxMap)
    (edge : EdgeAnalysis) : list EvaluatedRoadCandidate :=
  let candidates := queryRoadCandidatesForEdge map edge in
  if (length candidates =? 0)%nat then []
  else sortWith compareEvaluated
         (omap (evaluateRoadCandidateForEdge edge) candidates).

Definition applyMatchToEdge (edge : EdgeAnalysis)
    (match_ : EvaluatedRoadCandidate) : EdgeAnalysis :=
  let c := candidate match_ in
  {| index := index edge;
     start := start edge;
     end_ := end_ edge;
     midpoint := midpoint edge;
     lengthMeters := lengthMeters edge;
     type := type edge;
     roadKind := if isAdjacent match_ then Some (kind c) else None;
     roadName := name c;
     roadClass := className c;
     roadDistanceMeters := Some (distanceMeters match_);
     edge_orientationDiffDeg := Some (orientationDiffDeg match_);
     isRoadAdjacent := isAdjacent match_;
     debug :=
       if isAdjacent match_
       then "Adjacent to " ++ kindString (kind c) ++ " " ++ dquote ++
            orElse (name c) "unnamed" ++ dquote ++ " at " ++
            toFixed host (distanceMeters match_) 1 ++
            "m, orientation diff " ++
            toFixed host (orientationDiffDeg match_) 1 ++ "deg."
       else "Nearest road " ++ dquote ++ orElse (name c) "unnamed" ++
            dquote ++ " at " ++
            toFixed host (distanceMeters match_) 1 ++
            "m (not adjacent threshold)." |}.

Inductive StreetRelaxMode := relaxFrontage | relaxFlankage.

Definition isStreet (c : EvaluatedRoadCandidate) : bool :=
  bool_decide (kind (candidate c) = street).
Definition isLane (c : EvaluatedRoadCandidate) : bool :=
  bool_decide (kind (candidate c) = lane).

Definition isRelaxedStreetCandidateForMode (c : EvaluatedRoadCandidate)
    (mode : StreetRelaxMode) : bool :=
  if negb (isStreet c) then false
  else match mode with
       | relaxFrontage =>
           Qleb (distanceMeters c) RELAXED_FRONTAGE_STREET_DISTANCE_METERS &&
           Qleb (orientationDiffDeg c) RELAXED_FRONTAGE_STREET_ORIENTATION_DEG
       | relaxFlankage =>
           Qleb (distanceMeters c) RELAXED_FLANKAGE_STREET_DISTANCE_METERS &&
           Qleb (orientationDiffDeg c) RELAXED_FLANKAGE_STREET_ORIENTATION_DEG
       end.

Definition isRelaxedLaneCandidate (c : EvaluatedRoadCandidate) : bool :=
  if negb (isLane c) then false
  else Qleb (distanceMeters c) RELAXED_LANE_DISTANCE_METERS &&
       Qleb (orientationDiffDeg c) RELAXED_LANE_ORIENTATION_DEG.

(** Each of the four searches returns the first candidate its loop does not
    skip and that is adjacent, or relaxed-adjacent when allowed. *)
Definition firstAdjacentStreet (candidates : list EvaluatedRoadCandidate)
    (allowRelaxed : bool) (relaxMode : StreetRelaxMode)
    : option EvaluatedRoadCandidate :=
  List.find (fun c =>
    isStreet c &&
    (isAdjacent c ||
     (allowRelaxed && isRelaxedStreetCandidateForMode c relaxMode)))
    candidates.

Definition firstAdjacentLane (candidates : list EvaluatedRoadCandidate)
    (allowRelaxed : bool) : option EvaluatedRoadCandidate :=
  List.find (fun c =>
    isLane c &&
    (isAdjacent c || (allowRelaxed && isRelaxedLaneCandidate c)))
    candidates.

Definition firstAdjacentStreetByName
    (candidates : list EvaluatedRoadCandidate) (normalizedStreet : string)
    (allowRelaxed : bool) (relaxMode : StreetRelaxMode)
    : option EvaluatedRoadCandidate :=
  if isEmpty normalizedStreet then None
  else List.find (fun c =>
         isStreet c &&
         String.eqb (normalizeStreetName (name (candidate c)))
                    normalizedStreet &&
         (isAdjacent c ||
          (allowRelaxed && isRelaxedStreetCandidateForMode c relaxMode)))
         candidates.

Definition firstDifferentStreetCandidate
    (candidates : list EvaluatedRoadCandidate) (normalizedBaseStreet : string)
    (allowRelaxed : bool) : option EvaluatedRoadCandidate :=
  List.find (fun c =>
    let normalizedCandidateStreet :=
      normalizeStreetName (name (candidate c)) in
    isStreet c &&
    negb (isEmpty normalizedCandidateStreet) &&
    negb (negb (isEmpty normalizedBaseStreet) &&
          String.eqb normalizedCandidateStreet normalizedBaseStreet) &&
    (isAdjacent c ||
     (allowRelaxed && isRelaxedStreetCandidateForMode c relaxFlankage)))
    candidates.

Record OppositeCandidate := {
  opposite_index : nat;
  opposite_orientationDiffDeg : Q;
  perpendicularDistanceMeters : Q;
  midpointDistanceMeters : Q;
  opposite_score : Q
}.

Definition compareOpposite (a b : OppositeCandidate) : Q :=
  if negb (Qeqb (opposite_score a) (opposite_score b))
  then opposite_score b - opposite_score a
  else if negb (Qeqb (perpendicularDistanceMeters a)
                     (perpendicularDistanceMeters b))
  then perpendicularDistanceMeters b - perpendicularDistanceMeters a
  else midpointDistanceMeters b - midpointDistanceMeters a.

Definition oppositeCandidateOf (frontage edge : EdgeAnalysis)
    : OppositeCandidate :=
  let frontageBearing := bearingDegrees (start frontage) (end_ frontage) in
  let perpendicular :=
    turf_pointToLineDistance host (midpoint edge)
      (start frontage) (end_ frontage) in
  let midpointDistance :=
    turf_distance host (midpoint frontage) (midpoint edge) in
  {| opposite_index := index edge;
     opposite_orientationDiffDeg :=
       parallelOrientationDiffDeg frontageBearing
         (bearingDegrees (start edge) (end_ edge));
     perpendicularDistanceMeters := perpendicular;
     midpointDistanceMeters := midpointDistance;
     opposite_score := perpendicular + midpointDistance * (2 # 10) |}.

Definition chooseBestOppositeWithinOrientation
    (candidates : list OppositeCandidate) (maxOrientationDiffDeg : Q)
    : option nat :=
  let oriented :=
    List.filter
      (fun c => Qleb (opposite_orientationDiffDeg c) maxOrientationDiffDeg)
      candidates in
  opposite_index <$> head (sortWith compareOpposite oriented).

(** The last loop of [findOppositeEdgeIndex]: the state is [(bestIndex,
    farthestDistance)], from [(-1, -1)]. *)
Definition keepFarthest (frontage : EdgeAnalysis) (frontageIndex : nat)
    (state : option nat * Q) (edge : EdgeAnalysis) : option nat * Q :=
  if (index edge =? frontageIndex)%nat then state
  else
    let d := turf_distance host (midpoint frontage) (midpoint edge) in
    if Qltb (snd state) d then (Some (index edge), d) else state.

(** The result [-1] is [None]. *)
Definition findOppositeEdgeIndex (edges : list EdgeAnalysis)
    (frontageIndex : nat) : option nat :=
  match edges !! frontageIndex with
  | None => None
  | Some frontage =>
      let candidates :=
        List.map (oppositeCandidateOf frontage)
          (List.filter (fun edge => negb (index edge =? frontageIndex)%nat)
                       edges) in
      match chooseBestOppositeWithinOrientation candidates
              OPPOSITE_EDGE_STRICT_ORIENTATION_DEG with
      | Some strictOpposite => Some strictOpposite
      | None =>
          match chooseBestOppositeWithinOrientation candidates
                  OPPOSITE_EDGE_RELAXED_ORIENTATION_DEG with
          | Some relaxedOpposite => Some relaxedOpposite
          | None =>
              fst (foldl (keepFarthest frontage frontageIndex)
                         (None, - (1)) edges)
          end
      end
  end.

Record SelectOptions := {
  normalizedStreet : string;       (* [''] when absent *)
  allowRelaxed : bool;
  relaxMode : StreetRelaxMode
}.

Definition matchesOf (edgeMatches : gmap nat (list EvaluatedRoadCandidate))
    (edge : EdgeAnalysis) : list EvaluatedRoadCandidate :=
  default [] (edgeMatches !! index edge).

(** One turn of the loop of [selectNearestEdgeByStreetCandidate]; the state
    is [(bestEdge, bestCandidate)]. *)
Definition selectStep (edgeMatches : gmap nat (list EvaluatedRoadCandidate))
    (options : SelectOptions)
    (best : option (EdgeAnalysis * EvaluatedRoadCandidate))
    (edge : EdgeAnalysis) : option (EdgeAnalysis * EvaluatedRoadCandidate) :=
  let matches := matchesOf edgeMatches edge in
  let found :=
    if negb (isEmpty (normalizedStreet options))
    then firstAdjacentStreetByName matches (normalizedStreet options)
           (allowRelaxed options) (relaxMode options)
    else firstAdjacentStreet matches (allowRelaxed options)
           (relaxMode options) in
  match found with
  | None => best
  | Some candidate =>
      match best with
      | None => Some (edge, candidate)
      | Some (bestEdge, bestCandidate) =>
          let distanceDelta :=
            distanceMeters candidate - distanceMeters bestCandidate in
          if Qltb distanceDelta (- EDGE_SELECTION_DISTANCE_TIE_METERS)
          then Some (edge, candidate)
          else if Qltb EDGE_SELECTION_DISTANCE_TIE_METERS distanceDelta
          then best
          else
            let lengthDelta := lengthMeters edge - lengthMeters bestEdge in
            if Qltb EDGE_SELECTION_LENGTH_TIE_METERS lengthDelta
            then Some (edge, candidate)
            else if Qltb lengthDelta (- EDGE_SELECTION_LENGTH_TIE_METERS)
            then best
            else if Qltb (orientationDiffDeg candidate)
                         (orientationDiffDeg bestCandidate)
            then Some (edge, candidate)
            else best
      end
  end.

Definition selectNearestEdgeByStreetCandidate (edges : list EdgeAnalysis)
    (edgeMatches : gmap nat (list EvaluatedRoadCandidate))
    (options : SelectOptions) : option EdgeAnalysis :=
  fst <$> foldl (selectStep edgeMatches options) None edges.

Definition isLaneAdjacent (edge : option EdgeAnalysis) : bool :=
  match edge with
  | Some e => isRoadAdjacent e && bool_decide (roadKind e = Some lane)
  | None => false
  end.

Definition determineLotType (hasFlankage isDoubleFronting : bool)
    (oppositeEdge : option EdgeAnalysis) : LotType * string :=
  if hasFlankage
  then (CornerLot,
        "Has frontage and at least one flankage edge on a different street.")
  else if isDoubleFronting
  then (DoubleFronting,
        "Frontage and opposite edge both face different streets (not lanes).")
  else if isLaneAdjacent oppositeEdge
  then (StandardWithLane,
        "Frontage present and opposite edge is adjacent to a lane/alley.")
  else (StandardWithoutLane,
        "Frontage present and opposite side is not adjacent to a lane.").

(** *** [analyzeParcel]

    An edge is an object that the passes change in place; the list [edges]
    holds it at the place given by its [index], and a change through a
    reference ([frontageEdge], [oppositeEdge]) is a change of the list at
    that place. *)

Definition setType (t : EdgeType) (e : EdgeAnalysis) : EdgeAnalysis :=
  {| index := index e; start := start e; end_ := end_ e;
     midpoint := midpoint e; lengthMeters := lengthMeters e;
     type := t;
     roadKind := roadKind e; roadName := roadName e; roadClass := roadClass e;
     roadDistanceMeters := roadDistanceMeters e;
     edge_orientationDiffDeg := edge_orientationDiffDeg e;
     isRoadAdjacent := isRoadAdjacent e; debug := debug e |}.

Definition setDebug (d : string) (e : EdgeAnalysis) : EdgeAnalysis :=
  {| index := index e; start := start e; end_ := end_ e;
     midpoint := midpoint e; lengthMeters := lengthMeters e;
     type := type e;
     roadKind := roadKind e; roadName := roadName e; roadClass := roadClass e;
     roadDistanceMeters := roadDistanceMeters e;
     edge_orientationDiffDeg := edge_orientationDiffDeg e;
     isRoadAdjacent := isRoadAdjacent e; debug := d |}.

(** [edge.isRoadAdjacent = true; edge.roadKind = k] *)
Definition setAdjacentKind (k : Kind) (e : EdgeAnalysis) : EdgeAnalysis :=
  {| index := index e; start := start e; end_ := end_ e;
     midpoint := midpoint e; lengthMeters := lengthMeters e;
     type := type e;
     roadKind := Some k; roadName := roadName e; roadClass := roadClass e;
     roadDistanceMeters := roadDistanceMeters e;
     edge_orientationDiffDeg := edge_orientationDiffDeg e;
     isRoadAdjacent := true; debug := debug e |}.

(** [edge.type = t], then the match, then adjacency of kind [k]. *)
Definition stampEdge (t : EdgeType) (match_ : EvaluatedRoadCandidate)
    (k : Kind) (e : EdgeAnalysis) : EdgeAnalysis :=
  setAdjacentKind k (applyMatchToEdge (setType t e) match_).

(** The body of the first loop, for one edge. *)
Definition stampDefault (matches : list EvaluatedRoadCandidate)
    (edge : EdgeAnalysis) : EdgeAnalysis :=
  let defaultMatch :=
    match firstAdjacentStreet matches false relaxFrontage with
    | Some m => Some m
    | None =>
        match List.find isAdjacent matches with
        | Some m => Some m
        | None => head matches
        end
    end in
  match defaultMatch with
  | None => setDebug "No road candidate found near edge centerline." edge
  | Some m => applyMatchToEdge edge m
  end.

Fixpoint defaultPass (map : MapboxMap) (edges : list EdgeAnalysis)
    (edgeMatches : EdgeMatches) : list EdgeAnalysis * EdgeMatches :=
  match edges with
  | [] => ([], edgeMatches)
  | edge :: rest =>
      let matches := findEvaluatedRoadCandidatesForEdge map edge in
      let '(rest', edgeMatches') :=
        defaultPass map rest (<[index edge := matches]> edgeMatches) in
      (stampDefault matches edge :: rest', edgeMatches')
  end.

(** Frontage selection: [(frontageEdge, frontageMatchedByPrimaryStreet,
    candidateStreetEdges)]. *)
Definition hasStreetCandidate (edgeMatches : EdgeMatches) (relaxed : bool)
    (edge : EdgeAnalysis) : bool :=
  bool_decide
    (is_Some (firstAdjacentStreet (matchesOf edgeMatches edge)
                relaxed relaxFrontage)).

(** [edges.reduce((best, current) => ...)] without an initial value. *)
Definition longestEdge (edges : list EdgeAnalysis) : option EdgeAnalysis :=
  match edges with
  | [] => None
  | first :: rest =>
      Some (foldl (fun best current =>
                     if Qltb (lengthMeters best) (lengthMeters current)
                     then current else best) first rest)
  end.

(** [a ?? b] and the chains [if (!frontageEdge) frontageEdge = ...]. *)
Definition orTry {A : Type} (a b : option A) : option A :=
  match a with Some _ => a | None => b end.

Definition chooseFrontage (edges : list EdgeAnalysis)
    (edgeMatches : EdgeMatches) (normalizedPrimaryStreet : string)
    : option EdgeAnalysis * bool * list EdgeAnalysis :=
  let strictCandidateStreetEdges :=
    List.filter (hasStreetCandidate edgeMatches false) edges in
  let relaxedCandidateStreetEdges :=
    List.filter (hasStreetCandidate edgeMatches true) edges in
  let candidateStreetEdges :=
    if (0 <? length strictCandidateStreetEdges)%nat
    then strictCandidateStreetEdges else relaxedCandidateStreetEdges in
  let byName :=
    if negb (isEmpty normalizedPrimaryStreet)
    then orTry
           (selectNearestEdgeByStreetCandidate edges edgeMatches
              {| normalizedStreet := normalizedPrimaryStreet;
                 allowRelaxed := false; relaxMode := relaxFrontage |})
           (selectNearestEdgeByStreetCandidate edges edgeMatches
              {| normalizedStreet := normalizedPrimaryStreet;
                 allowRelaxed := true; relaxMode := relaxFrontage |})
    else None in
  let frontageMatchedByPrimaryStreet := bool_decide (is_Some byName) in
  let frontageEdge :=
    orTry byName
      (orTry
         (selectNearestEdgeByStreetCandidate candidateStreetEdges edgeMatches
            {| normalizedStreet := EmptyString;
               allowRelaxed := false; relaxMode := relaxFrontage |})
         (orTry
            (selectNearestEdgeByStreetCandidate candidateStreetEdges
               edgeMatches
               {| normalizedStreet := EmptyString;
                  allowRelaxed := true; relaxMode := relaxFrontage |})
            (longestEdge edges))) in
  (frontageEdge, frontageMatchedByPrimaryStreet, candidateStreetEdges).

(** What [analyzeParcel] does to the frontage edge once it is chosen. *)
Definition stampFrontage (edgeMatches : EdgeMatches)
    (normalizedPrimaryStreet : string) (frontageEdge : EdgeAnalysis)
    : EdgeAnalysis :=
  let frontageMatches := matchesOf edgeMatches frontageEdge in
  let frontageStreetMatch :=
    orTry (firstAdjacentStreetByName frontageMatches normalizedPrimaryStreet
             true relaxFrontage)
          (firstAdjacentStreet frontageMatches true relaxFrontage) in
  match frontageStreetMatch with
  | Some m => stampEdge Frontage m street frontageEdge
  | None => setType Frontage frontageEdge
  end.

(** The street candidate that makes the opposite edge a second frontage,
    if there is one. *)
Definition doubleFrontingCandidate (edgeMatches : EdgeMatches)
    (frontageEdge oppositeEdge : option EdgeAnalysis)
    (frontageStreetNormalized : string) : option EvaluatedRoadCandidate :=
  match frontageEdge, oppositeEdge with
  | Some _, Some opposite =>
      match edgeMatches !! index opposite with
      | None => None
      | Some oppositeMatches =>
          match firstAdjacentStreet oppositeMatches true relaxFrontage with
          | None => None
          | Some oppositeStreetCandidate =>
              let oppositeStreet :=
                normalizeStreetName
                  (name (candidate oppositeStreetCandidate)) in
              if negb (isEmpty oppositeStreet) &&
                 negb (isEmpty frontageStreetNormalized) &&
                 negb (String.eqb oppositeStreet frontageStreetNormalized)
              then Some oppositeStreetCandidate
              else None
          end
      end
  | _, _ => None
  end.

(** [edge.index === i] for an index [i] that is [-1] when absent. *)
Definition indexIs (i : option nat) (edge : EdgeAnalysis) : bool :=
  bool_decide (i = Some (index edge)).

(** The closure [applyFlankage]: the edges after the loop, and [count]. *)
Fixpoint applyFlankage (edgeMatches : EdgeMatches)
    (frontageIndex oppositeIndex : option nat) (baseFrontageStreet : string)
    (allowRelaxed : bool) (edges : list EdgeAnalysis)
    : list EdgeAnalysis * nat :=
  match edges with
  | [] => ([], 0%nat)
  | edge :: rest =>
      let '(rest', count) :=
        applyFlankage edgeMatches frontageIndex oppositeIndex
          baseFrontageStreet allowRelaxed rest in
      if indexIs frontageIndex edge || indexIs oppositeIndex edge
      then (edge :: rest', count)
      else
        match firstDifferentStreetCandidate (matchesOf edgeMatches edge)
                baseFrontageStreet allowRelaxed with
        | None => (edge :: rest', count)
        | Some flankageStreetCandidate =>
            (stampEdge Flankage flankageStreetCandidate street edge :: rest',
             S count)
        end
  end.

(** The rear pass on the opposite edge: the edge after it, and
    [usedRelaxedLane]. *)
Definition stampRear (edgeMatches : EdgeMatches) (oppositeEdge : EdgeAnalysis)
    : EdgeAnalysis * bool :=
  let oppositeMatches := matchesOf edgeMatches oppositeEdge in
  match firstAdjacentLane oppositeMatches true with
  | Some oppositeLane =>
      let stamped := stampEdge RearLane oppositeLane lane oppositeEdge in
      if negb (isAdjacent oppositeLane)
      then (setDebug (debug stamped ++ " (relaxed lane fallback)") stamped,
            true)
      else (stamped, false)
  | None => (setType Rear oppositeEdge, false)
  end.

Definition composeReason (lotType : LotType) (reason : string)
    (usedRelaxedFlankage usedRelaxedLane : bool) (flankageCount : nat)
    : string :=
  let r1 :=
    if bool_decide (lotType = CornerLot) && usedRelaxedFlankage
    then reason ++ " Secondary street detected using relaxed flankage fallback."
    else reason in
  let r2 :=
    if bool_decide (lotType = StandardWithLane) && usedRelaxedFlankage &&
       (0 <? flankageCount)%nat
    then reason ++
         " Weak flankage evidence was ignored because a rear lane was detected."
    else r1 in
  if bool_decide (lotType = StandardWithLane) && usedRelaxedLane
  then r2 ++ " Lane detected using relaxed rear-lane fallback."
  else r2.

Definition computeConfidence (lotType : LotType)
    (frontageMatchedByPrimaryStreet : bool)
    (candidateStreetEdges : list EdgeAnalysis)
    (usedRelaxedFlankage usedRelaxedLane : bool) : Confidence :=
  let c1 :=
    if negb frontageMatchedByPrimaryStreet
    then if (0 <? length candidateStreetEdges)%nat then medium else low
    else high in
  let c2 :=
    if bool_decide (lotType = DoubleFronting) &&
       negb frontageMatchedByPrimaryStreet
    then medium else c1 in
  if usedRelaxedFlankage || usedRelaxedLane
  then match c2 with low => low | _ => medium end
  else c2.

(** The local variables of [analyzeParcel] at its end, with the result. *)
Record AnalysisRun := {
  run_edgeMatches : EdgeMatches;
  run_frontageIndex : option nat;
  run_frontageMatchedByPrimaryStreet : bool;
  run_candidateStreetEdges : list EdgeAnalysis;
  run_oppositeIndex : option nat;
  run_isDoubleFronting : bool;
  run_flankageCount : nat;
  run_usedRelaxedFlankage : bool;
  run_usedRelaxedLane : bool;
  run_laneDetectedOnOpposite : bool;
  run_hasReliableFlankage : bool;
  run_result : ParcelAnalysis
}.

(** The frontage edge, changed in place. *)
Definition stampFrontageAt (edgeMatches : EdgeMatches)
    (normalizedPrimaryStreet : string) (frontageIndex : option nat)
    (edges : list EdgeAnalysis) : list EdgeAnalysis :=
  match frontageIndex with
  | Some i => alter (stampFrontage edgeMatches normalizedPrimaryStreet) i edges
  | None => edges
  end.

(** [edges[i]] for an index that is [-1] when absent. *)
Definition edgeAt (edges : list EdgeAnalysis) (i : option nat)
    : option EdgeAnalysis :=
  i ≫= (edges !!.).

(** [normalizeStreetName(frontageEdge?.roadName ?? '') ||
    normalizedPrimaryStreet] *)
Definition frontageStreetOf (frontageEdge : option EdgeAnalysis)
    (normalizedPrimaryStreet : string) : string :=
  orElse (normalizeStreetName (from_option roadName EmptyString frontageEdge))
         normalizedPrimaryStreet.

(** The opposite edge becomes a second frontage, changed in place. *)
Definition stampDoubleFronting
    (doubleFronting : option EvaluatedRoadCandidate)
    (oppositeIndex : option nat) (edges : list EdgeAnalysis)
    : list EdgeAnalysis :=
  match doubleFronting, oppositeIndex with
  | Some oppositeStreetCandidate, Some i =>
      alter (stampEdge Frontage oppositeStreetCandidate street) i edges
  | _, _ => edges
  end.

(** The strict flankage pass, then the relaxed one when the strict one
    counted nothing: the edges, [flankageCount], [usedRelaxedFlankage]. *)
Definition flankagePass (edgeMatches : EdgeMatches)
    (frontageIndex oppositeIndex : option nat) (baseFrontageStreet : string)
    (edges : list EdgeAnalysis) : list EdgeAnalysis * nat * bool :=
  let strict :=
    applyFlankage edgeMatches frontageIndex oppositeIndex baseFrontageStreet
      false edges in
  if (snd strict =? 0)%nat
  then
    let relaxed :=
      applyFlankage edgeMatches frontageIndex oppositeIndex
        baseFrontageStreet true (fst strict) in
    if (0 <? snd relaxed)%nat
    then (fst relaxed, snd relaxed, true)
    else (fst relaxed, snd strict, false)
  else (fst strict, snd strict, false).

(** The rear pass: the edges and [usedRelaxedLane]. *)
Definition rearPass (edgeMatches : EdgeMatches) (oppositeIndex : option nat)
    (isDoubleFronting : bool) (edges : list EdgeAnalysis)
    : list EdgeAnalysis * bool :=
  match oppositeIndex, isDoubleFronting with
  | Some i, false =>
      match edges !! i with
      | Some oppositeEdge =>
          (alter (fun e => fst (stampRear edgeMatches e)) i edges,
           snd (stampRear edgeMatches oppositeEdge))
      | None => (edges, false)
      end
  | _, _ => (edges, false)
  end.

(** [analyzeParcel] after its first loop: [edges] and [edgeMatches] are
    what that loop leaves. *)
Definition classifyEdges (parcel : ParcelFeature)
    (edges : list EdgeAnalysis) (edgeMatches : EdgeMatches) : AnalysisRun :=
  let primaryStreet :=
    extractPrimaryStreet (fullAddress (properties parcel))
                         (streetName (properties parcel)) in
  let normalizedPrimaryStreet := normalizeStreetName primaryStreet in
  let chosen := chooseFrontage edges edgeMatches normalizedPrimaryStreet in
  let frontageMatchedByPrimaryStreet := snd (fst chosen) in
  let candidateStreetEdges := snd chosen in
  let frontageIndex := index <$> fst (fst chosen) in
  let edges :=
    stampFrontageAt edgeMatches normalizedPrimaryStreet frontageIndex edges in
  let frontageEdge := edgeAt edges frontageIndex in
  let oppositeIndex := frontageIndex ≫= findOppositeEdgeIndex edges in
  let oppositeEdge := edgeAt edges oppositeIndex in
  let frontageStreetNormalized :=
    frontageStreetOf frontageEdge normalizedPrimaryStreet in
  let doubleFronting :=
    doubleFrontingCandidate edgeMatches frontageEdge oppositeEdge
      frontageStreetNormalized in
  let isDoubleFronting := bool_decide (is_Some doubleFronting) in
  let edges := stampDoubleFronting doubleFronting oppositeIndex edges in
  let baseFrontageStreet := frontageStreetNormalized in
  let flankage :=
    flankagePass edgeMatches frontageIndex oppositeIndex baseFrontageStreet
      edges in
  let flankageCount := snd (fst flankage) in
  let usedRelaxedFlankage := snd flankage in
  let rear :=
    rearPass edgeMatches oppositeIndex isDoubleFronting (fst (fst flankage)) in
  let edges := fst rear in
  let usedRelaxedLane := snd rear in
  let oppositeEdge := edgeAt edges oppositeIndex in
  let laneDetectedOnOpposite := isLaneAdjacent oppositeEdge in
  let hasReliableFlankage :=
    (0 <? flankageCount)%nat &&
    negb (usedRelaxedFlankage && laneDetectedOnOpposite) in
  let resolved :=
    determineLotType hasReliableFlankage isDoubleFronting oppositeEdge in
  let lotType := fst resolved in
  let reason := snd resolved in
  {| run_edgeMatches := edgeMatches;
     run_frontageIndex := frontageIndex;
     run_frontageMatchedByPrimaryStreet := frontageMatchedByPrimaryStreet;
     run_candidateStreetEdges := candidateStreetEdges;
     run_oppositeIndex := oppositeIndex;
     run_isDoubleFronting := isDoubleFronting;
     run_flankageCount := flankageCount;
     run_usedRelaxedFlankage := usedRelaxedFlankage;
     run_usedRelaxedLane := usedRelaxedLane;
     run_laneDetectedOnOpposite := laneDetectedOnOpposite;
     run_hasReliableFlankage := hasReliableFlankage;
     run_result :=
       {| areaM2 := turf_area host (coordinates parcel);
          primaryStreet := primaryStreet;
          lotType := lotType;
          reason :=
            composeReason lotType reason usedRelaxedFlankage usedRelaxedLane
              flankageCount;
          confidence :=
            computeConfidence lotType frontageMatchedByPrimaryStreet
              candidateStreetEdges usedRelaxedFlankage usedRelaxedLane;
          edges := edges |} |}.

(** The start of [analyzeParcel]: the edges of the first ring, and with a
    map the first loop over them. *)
Definition firstLoop (parcel : ParcelFeature) (map : option MapboxMap)
    : list EdgeAnalysis * EdgeMatches :=
  let ring := default [] (head (coordinates parcel)) in
  let edges := toRingEdges ring in
  match map with
  | Some m => defaultPass m edges ∅
  | None => (edges, ∅)
  end.

Definition analyzeParcelRun (parcel : ParcelFeature) (map : option MapboxMap)
    : AnalysisRun :=
  let first := firstLoop parcel map in
  classifyEdges parcel (fst first) (snd first).

Definition analyzeParcel (parcel : ParcelFeature) (map : option MapboxMap)
    : ParcelAnalysis :=
  run_result (analyzeParcelRun parcel map).

End Analysis.

(** ** The viewport index ([src/lib/geo/parcelViewportIndex.ts]) *)

Module ViewportIndex.

Definition DEFAULT_CELL_SIZE_DEG : Q := 5 # 1000.

Record BoundsLike := {
  getWest : Q;
  getEast : Q;
  getSouth : Q;
  getNorth : Q
}.

Record ParcelViewportIndex := {
  cellSizeDeg : Q;
  cells : gmap string (list ParcelFeature)
}.

(** An absent [maxFeatures] is [Number.POSITIVE_INFINITY]. *)
Record QueryParcelsOptions := {
  paddingRatio : option Q;
  maxFeatures : option Q;
  center : option Position
}.

Definition cellIndex (value cellSizeDeg : Q) : Z :=
  Math_floor (value / cellSizeDeg).

Definition cellKey (x y : Z) : string := pretty x ++ ":" ++ pretty y.

Definition distanceSq (a b : Position) : Q :=
  let dx := fst a - fst b in
  let dy := snd a - snd b in
  dx * dx + dy * dy.

Definition referencePoint (parcel : ParcelFeature) : Position :=
  (lon (properties parcel), lat (properties parcel)).

(** A rational is finite, so no parcel is skipped. *)
Definition buildParcelViewportIndex (parcels : list ParcelFeature)
    (cellSizeDeg : Q) : ParcelViewportIndex :=
  {| cellSizeDeg := cellSizeDeg;
     cells :=
       foldl (fun (cells : gmap string (list ParcelFeature)) parcel =>
                let x := cellIndex (lon (properties parcel)) cellSizeDeg in
                let y := cellIndex (lat (properties parcel)) cellSizeDeg in
                let key := cellKey x y in
                match cells !! key with
                | Some current => <[key := (current ++ [parcel])%list]> cells
                | None => <[key := [parcel]]> cells
                end) ∅ parcels |}.

(** [l.slice(0, end)]: the end is truncated to an integer, and a negative
    one counts from the end of the list. *)
Definition sliceFromZero {A : Type} (l : list A) (end_ : Q) : list A :=
  let relativeEnd := Qtrunc end_ in
  let len := Z.of_nat (length l) in
  let final :=
    if (relativeEnd <? 0)%Z then Z.max (len + relativeEnd) 0
    else Z.min relativeEnd len in
  take (Z.to_nat final) l.

Record PaddedBox := {
  paddedWest : Q;
  paddedEast : Q;
  paddedSouth : Q;
  paddedNorth : Q
}.

Definition paddedBox (bounds : BoundsLike) (paddingRatio : Q) : PaddedBox :=
  let west := getWest bounds in
  let east := getEast bounds in
  let south := getSouth bounds in
  let north := getNorth bounds in
  let lonSpan := Math_max 0 (east - west) in
  let latSpan := Math_max 0 (north - south) in
  {| paddedWest := west - lonSpan * paddingRatio;
     paddedEast := east + lonSpan * paddingRatio;
     paddedSouth := south - latSpan * paddingRatio;
     paddedNorth := north + latSpan * paddingRatio |}.

(** The test of the inner loop, negated: the parcel is kept. *)
Definition insideBox (box : PaddedBox) (parcel : ParcelFeature) : bool :=
  let lon := lon (properties parcel) in
  let lat := lat (properties parcel) in
  negb (Qltb lon (paddedWest box) || Qltb (paddedEast box) lon ||
        Qltb lat (paddedSouth box) || Qltb (paddedNorth box) lat).

(** [for (let x = lo; x <= hi; x += 1)] *)
Definition cellRange (lo hi : Z) : list Z := seqZ lo (hi - lo + 1).

Definition selectInBox (index : ParcelViewportIndex) (box : PaddedBox)
    : list ParcelFeature :=
  let minX := cellIndex (paddedWest box) (cellSizeDeg index) in
  let maxX := cellIndex (paddedEast box) (cellSizeDeg index) in
  let minY := cellIndex (paddedSouth box) (cellSizeDeg index) in
  let maxY := cellIndex (paddedNorth box) (cellSizeDeg index) in
  x ← cellRange minX maxX;
  y ← cellRange minY maxY;
  List.filter (insideBox box) (default [] (cells index !! cellKey x y)).

Definition queryCenter (box : PaddedBox) (center : option Position)
    : Position :=
  default ((paddedWest box + paddedEast box) / 2,
           (paddedSouth box + paddedNorth box) / 2) center.

Definition compareByDistance (fallbackCenter : Position)
    (a b : ParcelFeature) : Q :=
  distanceSq (referencePoint a) fallbackCenter -
  distanceSq (referencePoint b) fallbackCenter.

Definition queryParcelsInBounds (index : ParcelViewportIndex)
    (bounds : BoundsLike) (options : QueryParcelsOptions)
    : list ParcelFeature :=
  let paddingRatio := default (22 # 100) (paddingRatio options) in
  let box := paddedBox bounds paddingRatio in
  let selected := selectInBox index box in
  match maxFeatures options with
  | None => selected
  | Some maxFeatures =>
      if Qleb (inject_Z (Z.of_nat (length selected))) maxFeatures
      then selected
      else sliceFromZero
             (sortWith (compareByDistance (queryCenter box (center options)))
                       selected)
             maxFeatures
  end.

End ViewportIndex.

(** ** A flat host and sample parcels

    A host for evaluating the analysis on axis-aligned geometry: a degree is
    100 km on both axes, distances are taken along the axes (exact between a
    point and an axis-aligned segment it projects onto, and between points
    on one axis line), bearings are exact for the four axis directions. *)

Module Scenario.

Definition METERS_PER_DEGREE : Q := 100000.

Definition clamp (v a b : Q) : Q :=
  Math_max (Math_min a b) (Math_min (Math_max a b) v).

Definition flat_distance (a b : Position) : Q :=
  METERS_PER_DEGREE * (Qabs (fst a - fst b) + Qabs (snd a - snd b)).

Definition flat_pointToLineDistance (p a b : Position) : Q :=
  flat_distance p (clamp (fst p) (fst a) (fst b), clamp (snd p) (snd a) (snd b)).

Definition flat_bearing (a b : Position) : Q :=
  let dx := fst b - fst a in
  let dy := snd b - snd a in
  match dx ?= 0, dy ?= 0 with
  | Eq, Lt => 180
  | Eq, _ => 0
  | Gt, Eq => 90
  | Lt, Eq => - (90)
  | Gt, Gt => 45
  | Gt, Lt => 135
  | Lt, Gt => - (45)
  | Lt, Lt => - (135)
  end.

(** The shoelace sum of the outer ring, in square metres. *)
Fixpoint shoelace (ring : list Position) : Q :=
  match ring with
  | a :: (b :: _) as rest =>
      (fst a * snd b - fst b * snd a) + shoelace rest
  | _ => 0
  end.

Definition flat_area (rings : list (list Position)) : Q :=
  METERS_PER_DEGREE * METERS_PER_DEGREE *
  (Qabs (shoelace (default [] (head rings))) / 2).

Fixpoint zeroPad (width : nat) (s : string) : string :=
  match width with
  | O => s
  | S w => if (String.length s <? width)%nat then zeroPad w ("0" ++ s) else s
  end.

(** [x.toFixed(d)] for a rational below 10^21: round the magnitude half up
    at [d] decimals. *)
Definition flat_toFixed (x : Q) (d : nat) : string :=
  let scale := (10 ^ Z.of_nat d)%Z in
  let n := Qfloor (Qabs x * inject_Z scale + (1 # 2)) in
  (if Qltb x 0 then "-" else EmptyString) ++
  pretty (n / scale)%Z ++
  match d with
  | O => EmptyString
  | _ => "." ++ zeroPad d (pretty (n mod scale)%Z)
  end.

Definition flatHost : Host :=
  {| turf_distance := flat_distance;
     turf_bearing := flat_bearing;
     turf_pointToLineDistance := flat_pointToLineDistance;
     turf_area := flat_area;
     Math_cos := fun _ => 1;
     Math_pow := fun b e => Qpower b (Qfloor e);
     toFixed := flat_toFixed |}.

(** A position given in metres east and north of the origin. *)
Definition at_ (east north : Q) : Position :=
  (east / METERS_PER_DEGREE, north / METERS_PER_DEGREE).

Definition rawAt (east north : Q) : list Q :=
  [east / METERS_PER_DEGREE; north / METERS_PER_DEGREE].

(** A rendered line feature with a name and a class, on layer [road]. *)
Definition lineFeature (name class : string) (coords : list (list Q))
    : GeoJSONFeature :=
  {| geometry := LineString coords;
     feature_properties :=
       <["name" := JString name]> (<["class" := JString class]> ∅);
     sourceLayer := Some "road" |}.

(** A map that renders the same features around every edge. *)
Definition mapOf (features : list GeoJSONFeature) : MapboxMap :=
  {| project := fun p => (fst p * 1000000, snd p * 1000000);
     getZoom := 17;
     queryRenderedFeatures := fun _ => features |}.

(** A lot 10 m wide and 30 m deep at 123 Main Street: edge 0 is the south
    side, edge 1 the east side, edge 2 the north side, edge 3 the west
    side. *)
Definition lot : ParcelFeature :=
  {| coordinates :=
       [[at_ 0 0; at_ 10 0; at_ 10 30; at_ 0 30; at_ 0 0]];
     properties :=
       {| parcel_id := "p1"; siteId := EmptyString; taxCoord := EmptyString;
          civicNumber := "123"; streetName := "MAIN ST";
          fullAddress := "123 Main St";
          lon := 5 / METERS_PER_DEGREE; lat := 15 / METERS_PER_DEGREE |} |}.

(** Main Street runs east-west, [south] metres south of the lot. *)
Definition mainStreet (south : Q) : GeoJSONFeature :=
  lineFeature "Main Street" "street"
    [rawAt (- (100)) (- south); rawAt 110 (- south)].

(** An unnamed service lane 3 m north of the lot. *)
Definition rearLane : GeoJSONFeature :=
  lineFeature EmptyString "service" [rawAt (- (100)) 33; rawAt 110 33].

(** Oak Avenue runs north-south, [east] metres east of the lot. *)
Definition oakAvenue (east : Q) : GeoJSONFeature :=
  lineFeature "Oak Avenue" "street"
    [rawAt (10 + east) (- (100)); rawAt (10 + east) 130].

(** A map that answers as [mapOf features] around the lot and renders
    nothing far to the east of it. *)
Definition mapOfNear (features : list GeoJSONFeature) : MapboxMap :=
  {| project := fun p => (fst p * 1000000, snd p * 1000000);
     getZoom := 17;
     queryRenderedFeatures := fun window =>
       if Qltb (fst (fst window)) 1000000 then features else [] |}.


(** Main Street 10 m south of the lot, as a road candidate. *)
Definition mainStreetCandidate : RoadCandidate :=
  {| name := "Main Street";
     kind := street;
     className := "street";
     candidate_sourceLayer := "road";
     lines := [[at_ (- (100)) (- (10)); at_ 110 (- (10))]] |}.


End Scenario.

(** Sample parcels of the viewport index, at [east] metres on the equator. *)
Module ViewportScenario.
Import ViewportIndex.

Definition parcelAt (id : string) (east : Q) : ParcelFeature :=
  {| coordinates := [];
     properties :=
       {| parcel_id := id; siteId := EmptyString; taxCoord := EmptyString;
          civicNumber := EmptyString; streetName := EmptyString;
          fullAddress := id;
          lon := east / Scenario.METERS_PER_DEGREE; lat := 0 |} |}.

Definition threeParcels : ParcelViewportIndex :=
  buildParcelViewportIndex
    [parcelAt "a" 10; parcelAt "b" 20; parcelAt "c" 30]
    DEFAULT_CELL_SIZE_DEG.

(** A viewport of one cell around the three parcels. *)
Definition viewport : BoundsLike :=
  {| getWest := 0; getEast := 5 # 1000;
     getSouth := - (1 # 1000); getNorth := 1 # 1000 |}.

Definition capped (cap : Q) : QueryParcelsOptions :=
  {| paddingRatio := None; maxFeatures := Some cap; center := None |}.

End ViewportScenario.

(** ** Notions used by the statements *)

(** The edge that [toRingEdges] makes of the pair [a], [b] at place [i]. *)
Definition freshEdge (host : Host) (i : nat) (a b : Position)
    (e : EdgeAnalysis) : Prop :=
  index e = i /\ start e = a /\ end_ e = b /\
  midpoint e = (((fst a + fst b) / 2)%Q, ((snd a + snd b) / 2)%Q) /\
  lengthMeters e = turf_distance host a b /\
  type e = Side /\ roadKind e = None /\ isRoadAdjacent e = false /\
  debug e = "No road candidate found."%string.

(** The text that decides the kind when the name has no deciding suffix. *)
Definition laneLikeText (name classJoined : string) : bool :=
  testAnyWord explicitLaneWords (normalizeStreetName name) ||
  includesAny classJoined laneLikeClassWords ||
  (testWord "service"%string classJoined &&
   negb (testAnyWord explicitStreetWords (normalizeStreetName name))).


(** The order of a capped viewport result: nearest to the center first. *)
Definition nearerTo (c : Position) (a b : ParcelFeature) : Prop :=
  (ViewportIndex.distanceSq (ViewportIndex.referencePoint a) c <=
   ViewportIndex.distanceSq (ViewportIndex.referencePoint b) c)%Q.

(** The reference point of the parcel is in the box. *)
Definition inPaddedBox (box : ViewportIndex.PaddedBox) (p : ParcelFeature)
    : Prop :=
  (ViewportIndex.paddedWest box <= lon (properties p) /\
   lon (properties p) <= ViewportIndex.paddedEast box /\
   ViewportIndex.paddedSouth box <= lat (properties p) /\
   lat (properties p) <= ViewportIndex.paddedNorth box)%Q.

(** An edge stamped as the rear of the lot, and its contrary. *)
Definition isRearType (e : EdgeAnalysis) : Prop :=
  type e = Rear \/ type e = RearLane.

Definition notRear (e : EdgeAnalysis) : Prop :=
  type e <> Rear /\ type e <> RearLane.

(** Every edge of the list is at the place its [index] gives. *)
Definition indexed (es : list EdgeAnalysis) : Prop :=
  forall i e, es !! i = Some e -> index e = i.

Definition isFlankage (e : EdgeAnalysis) : bool :=
  bool_decide (type e = Flankage).

(** No index has a candidate in the map of matches. *)
Definition noMatches (em : EdgeMatches) : Prop :=
  forall k : nat, default [] (em !! k) = [].

(** The diagnostic of the first loop for an edge without candidate. *)
Definition noCandidateNearEdge : string :=
  "No road candidate found near edge centerline.".

(** The edges of an analysis without any candidate: the frontage at [fi],
    then the rear at [oi]. *)
Definition stampFrontageRear (fi oi : option nat) (es : list EdgeAnalysis)
    : list EdgeAnalysis :=
  let es2 :=
    match fi with Some i => alter (setType Frontage) i es | None => es end in
  match oi with Some k => alter (setType Rear) k es2 | None => es2 end.

(** ** Callers of the analysis and of the viewport query *)

(** [toEdgeFeatureCollection] of [src/lib/geo/edgeFeatures.ts]: one line
    feature per edge. *)
Definition edgeTypeString (t : EdgeType) : string :=
  match t with
  | Frontage => "Frontage"
  | Flankage => "Flankage"
  | RearLane => "Rear Lane"
  | Rear => "Rear"
  | Side => "Side"
  end.

Record EdgeLineFeature := {
  line_coordinates : list Position;
  line_edgeType : string;
  line_label : string
}.

Definition toEdgeFeatureCollection (analysis : option ParcelAnalysis)
    : list EdgeLineFeature :=
  match analysis with
  | None => []
  | Some a =>
      List.map (fun edge =>
        {| line_coordinates := [start edge; end_ edge];
           line_edgeType := edgeTypeString (type edge);
           line_label :=
             (pretty (index edge + 1)%nat ++ " " ++
              edgeTypeString (type edge))%string |})
        (edges a)
  end.

(** The viewport query of [useRenderedParcels]. *)
Module RenderedParcels.
Import ViewportIndex.
Local Open Scope Q_scope.

Definition maxParcelsForZoom (zoom : Q) : Q :=
  if Qltb zoom 11 then 2800
  else if Qltb zoom 12 then 5000
  else if Qltb zoom 13 then 8000
  else if Qltb zoom 14 then 12000
  else 22000.

(** [a[i]?.properties.id !== b[i]?.properties.id] for every [i] below the
    common length. *)
Fixpoint sameIds (a b : list ParcelFeature) : bool :=
  match a, b with
  | x :: a', y :: b' =>
      String.eqb (parcel_id (properties x)) (parcel_id (properties y)) &&
      sameIds a' b'
  | _, _ => true
  end.

Definition sameParcelIdOrder (a b : list ParcelFeature) : bool :=
  if negb (length a =? length b)%nat then false else sameIds a b.

(** What [update] asks of the index when a map is there: [center] is
    [map.getCenter()], [zoom] is [map.getZoom()]. *)
Definition nextRenderedParcels (viewportIndex : ParcelViewportIndex)
    (bounds : BoundsLike) (center : Position) (zoom : Q)
    : list ParcelFeature :=
  queryParcelsInBounds viewportIndex bounds
    {| paddingRatio := Some (24 # 100);
       maxFeatures := Some (maxParcelsForZoom zoom);
       center := Some center |}.

(** What [update] reads of the map: [getBounds()], [getCenter()] as a
    position, [getZoom()]. *)
Record MapView := {
  view_bounds : option BoundsLike;
  view_center : Position;
  view_zoom : Q
}.

(** [update] of [useRenderedParcels], as a change of the state
    [renderedParcels]: the state after it, from the state [current] before
    it.  The index is the one of [parcels] with the default cell size. *)
Definition update (parcels : list ParcelFeature) (map : option MapView)
    (current : list ParcelFeature) : list ParcelFeature :=
  if (length parcels =? 0)%nat then []
  else
    match map with
    | None =>
        let fallback := sliceFromZero parcels 4500 in
        if sameParcelIdOrder current fallback then current else fallback
    | Some m =>
        match view_bounds m with
        | None => current
        | Some bounds =>
            let next :=
              nextRenderedParcels
                (buildParcelViewportIndex parcels DEFAULT_CELL_SIZE_DEG)
                bounds (view_center m) (view_zoom m) in
            if sameParcelIdOrder current next then current else next
        end
    end.

End RenderedParcels.

(** ** Notions used by the further statements *)

(** What the flankage loop does to one edge. *)
Definition flankOne (host : Host) (edgeMatches : EdgeMatches)
    (frontageIndex oppositeIndex : option nat) (baseFrontageStreet : string)
    (allowRelaxed : bool) (edge : EdgeAnalysis) : EdgeAnalysis :=
  if indexIs frontageIndex edge || indexIs oppositeIndex edge then edge
  else
    match firstDifferentStreetCandidate (matchesOf edgeMatches edge)
            baseFrontageStreet allowRelaxed with
    | None => edge
    | Some c => stampEdge host Flankage c street edge
    end.

(** Whether the flankage loop stamps the edge. *)
Definition flankHit (edgeMatches : EdgeMatches)
    (frontageIndex oppositeIndex : option nat) (baseFrontageStreet : string)
    (allowRelaxed : bool) (edge : EdgeAnalysis) : bool :=
  negb (indexIs frontageIndex edge || indexIs oppositeIndex edge) &&
  bool_decide
    (is_Some (firstDifferentStreetCandidate (matchesOf edgeMatches edge)
                baseFrontageStreet allowRelaxed)).

(** The geometry of an edge: what the classifier never changes. *)
Definition frame (e : EdgeAnalysis)
    : nat * Position * Position * Position * Q :=
  (index e, start e, end_ e, midpoint e, lengthMeters e).

(** The locals of [classifyEdges], as functions of its arguments. *)
Section Stages.
Context (host : Host) (parcel : ParcelFeature) (es : list EdgeAnalysis)
  (em : EdgeMatches).

Definition stagePrimaryStreet : string :=
  normalizeStreetName
    (extractPrimaryStreet (fullAddress (properties parcel))
       (streetName (properties parcel))).

Definition stageFrontageIndex : option nat :=
  index <$> fst (fst (chooseFrontage es em stagePrimaryStreet)).

Definition stageFrontageEdges : list EdgeAnalysis :=
  stampFrontageAt host em stagePrimaryStreet stageFrontageIndex es.

Definition stageOppositeIndex : option nat :=
  stageFrontageIndex ≫= findOppositeEdgeIndex host stageFrontageEdges.

Definition stageBaseStreet : string :=
  frontageStreetOf (edgeAt stageFrontageEdges stageFrontageIndex)
    stagePrimaryStreet.

Definition stageDoubleFronting : option EvaluatedRoadCandidate :=
  doubleFrontingCandidate em
    (edgeAt stageFrontageEdges stageFrontageIndex)
    (edgeAt stageFrontageEdges stageOppositeIndex)
    stageBaseStreet.

Definition stageDoubleEdges : list EdgeAnalysis :=
  stampDoubleFronting host stageDoubleFronting stageOppositeIndex
    stageFrontageEdges.

(** The strict flankage pass stamps nothing, so the relaxed one runs. *)
Definition stageRelaxedFlankage : bool :=
  (length (List.filter
             (flankHit em stageFrontageIndex stageOppositeIndex
                stageBaseStreet false) stageDoubleEdges) =? 0)%nat.

(** The edge that the analysis returns at place [i] for the edge [e] that
    the first loop left there. *)
Definition classifiedEdge (i : nat) (e : EdgeAnalysis) : EdgeAnalysis :=
  let e2 :=
    if decide (stageFrontageIndex = Some i)
    then stampFrontage host em stagePrimaryStreet e else e in
  let e3 :=
    match stageDoubleFronting with
    | Some c =>
        if decide (stageOppositeIndex = Some i)
        then stampEdge host Frontage c street e2 else e2
    | None => e2
    end in
  let e4 :=
    flankOne host em stageFrontageIndex stageOppositeIndex stageBaseStreet
      stageRelaxedFlankage e3 in
  match stageDoubleFronting with
  | Some _ => e4
  | None =>
      if decide (stageOppositeIndex = Some i)
      then fst (stampRear host em e4) else e4
  end.

End Stages.

(** The candidate that [selectNearestEdgeByStreetCandidate] looks up for
    an edge. *)
Definition streetCandidateFor (edgeMatches : EdgeMatches)
    (options : SelectOptions) (edge : EdgeAnalysis)
    : option EvaluatedRoadCandidate :=
  if negb (isEmpty (normalizedStreet options))
  then firstAdjacentStreetByName (matchesOf edgeMatches edge)
         (normalizedStreet options) (allowRelaxed options)
         (relaxMode options)
  else firstAdjacentStreet (matchesOf edgeMatches edge)
         (allowRelaxed options) (relaxMode options).

Definition isFrontage (e : EdgeAnalysis) : bool :=
  bool_decide (type e = Frontage).

(** The point [p] is in the pixel box, at least [margin] from each side. *)
Definition withinBox (margin : Q) (box : (Q * Q) * (Q * Q)) (p : Q * Q)
    : Prop :=
  (fst (fst box) + margin <= fst p /\ fst p + margin <= fst (snd box) /\
   snd (fst box) + margin <= snd p /\ snd p + margin <= snd (snd box))%Q.



(** An edge that carries no road: as [toRingEdges] makes it. *)
Definition noRoad (e : EdgeAnalysis) : Prop :=
  isRoadAdjacent e = false /\ roadKind e = None /\
  roadName e = EmptyString /\ roadDistanceMeters e = None /\
  debug e = "No road candidate found."%string.

(** The strict limits of a candidate that is flagged adjacent, by kind. *)
Definition withinStrictLimits (c : EvaluatedRoadCandidate) : Prop :=
  isAdjacent c = true ->
  match kind (candidate c) with
  | street => (distanceMeters c <= 20 /\ orientationDiffDeg c <= 55)%Q
  | lane => (distanceMeters c <= 28 /\ orientationDiffDeg c <= 85)%Q
  end.

(** The widest limits under which an edge is marked adjacent to a road of
    kind [k]: those of the relaxed frontage for a street, of the relaxed
    lane for a lane. *)
Definition withinWidestLimits (k : Kind) (d o : Q) : Prop :=
  match k with
  | street => (d <= 30 /\ o <= 85)%Q
  | lane => (d <= 42 /\ o <= 110)%Q
  end.

(** The road marks of an edge agree: an edge that is not adjacent has no
    road kind, and an adjacent one has a kind, a distance and an
    orientation difference within the widest limits of the kind. *)
Definition roadMarksAgree (e : EdgeAnalysis) : Prop :=
  (isRoadAdjacent e = false -> roadKind e = None) /\
  (isRoadAdjacent e = true ->
   exists k d o,
     roadKind e = Some k /\ roadDistanceMeters e = Some d /\
     edge_orientationDiffDeg e = Some o /\ withinWidestLimits k d o).

(** [edgeColor]: the colour in which an edge of a type is drawn. *)
Definition edgeColor (edgeType : EdgeType) : string :=
  match edgeType with
  | Frontage => "#d62828"
  | Flankage => "#f77f00"
  | RearLane => "#2a9d8f"
  | Rear => "#264653"
  | Side => "#6c757d"
  end.

(** [useParcelSelection]: the state of the hook and what it returns. *)
Module ParcelSelection.

Record SelectionState := {
  selectedParcelId : option string;
  analysisOverride : option (string * ParcelAnalysis)
}.

Definition initialState : SelectionState :=
  {| selectedParcelId := None; analysisOverride := None |}.

(** [byId.set(parcel.properties.id, parcel)] for every parcel in turn. *)
Definition parcelsById (parcels : list ParcelFeature)
    : gmap string ParcelFeature :=
  foldl (fun byId parcel => <[parcel_id (properties parcel) := parcel]> byId)
        ∅ parcels.

(** The selected id when it is truthy: there and not the empty string. *)
Definition truthyId (st : SelectionState) : option string :=
  match selectedParcelId st with
  | Some id => if isEmpty id then None else Some id
  | None => None
  end.

Definition selectedParcel (parcels : list ParcelFeature)
    (st : SelectionState) : option ParcelFeature :=
  truthyId st ≫= fun id => parcelsById parcels !! id.

Definition computedAnalysis (host : Host) (parcels : list ParcelFeature)
    (map : option MapboxMap) (st : SelectionState) : option ParcelAnalysis :=
  (fun parcel => analyzeParcel host parcel map) <$> selectedParcel parcels st.

Definition analysis (host : Host) (parcels : list ParcelFeature)
    (map : option MapboxMap) (st : SelectionState) : option ParcelAnalysis :=
  match truthyId st with
  | None => None
  | Some id =>
      match analysisOverride st with
      | Some (parcelId, overriding) =>
          if String.eqb parcelId id then Some overriding
          else computedAnalysis host parcels map st
      | None => computedAnalysis host parcels map st
      end
  end.

Definition select (parcelId : string) (st : SelectionState)
    : SelectionState :=
  {| selectedParcelId := Some parcelId; analysisOverride := None |}.

Definition refreshAnalysis (host : Host) (parcels : list ParcelFeature)
    (parcelId : string) (currentMap : MapboxMap) (st : SelectionState)
    : SelectionState :=
  match parcelsById parcels !! parcelId with
  | None => st
  | Some parcel =>
      {| selectedParcelId := selectedParcelId st;
         analysisOverride :=
           Some (parcelId, analyzeParcel host parcel (Some currentMap)) |}
  end.

(** The last parcel of the list with the id. *)
Definition lastWithId (parcels : list ParcelFeature) (id : string)
    : option ParcelFeature :=
  List.find (fun parcel => String.eqb (parcel_id (properties parcel)) id)
            (rev parcels).

End ParcelSelection.

(** No character of the string satisfies [p]. *)
Fixpoint noChar (p : ascii -> bool) (s : string) : bool :=
  match s with
  | EmptyString => true
  | String c s' => negb (p c) && noChar p s'
  end.

(** The characters that a normalized street name does not have: upper-case
    letters, full stops and commas. *)
Definition notNormalChar (c : ascii) : bool :=
  isUpper c || Ascii.eqb c "." || Ascii.eqb c ",".

(** Every white-space character of the string is a blank that stands
    before a character that is not white space. *)
Fixpoint blanksInside (s : string) : bool :=
  match s with
  | EmptyString => true
  | String c s' =>
      (if isSpaceChar c
       then Ascii.eqb c " " &&
            match s' with
            | String d _ => negb (isSpaceChar d)
            | EmptyString => false
            end
       else true) && blanksInside s'
  end.

(** The string does not start with white space. *)
Definition startsClean (s : string) : bool :=
  match s with
  | String c _ => negb (isSpaceChar c)
  | EmptyString => true
  end.

(** Every white-space character of the string is a blank that does not
    stand before white space. *)
Fixpoint noRuns (s : string) : bool :=
  match s with
  | EmptyString => true
  | String c s' =>
      (if isSpaceChar c then Ascii.eqb c " " && startsClean s' else true) &&
      noRuns s'
  end.
(** * Properties *)

(** ** Comparisons and remainders *)

Section NumberFacts.
Local Open Scope Q_scope.

Lemma Qltb_lt x y : Qltb x y = true <-> x < y.
Proof. unfold Qltb. rewrite Qlt_alt. destruct (x ?= y); split; congruence. Qed.

Lemma Qltb_ge x y : Qltb x y = false <-> y <= x.
Proof. unfold Qltb. rewrite Qge_alt. destruct (x ?= y); split; congruence. Qed.

Lemma Qleb_le x y : Qleb x y = true <-> x <= y.
Proof. unfold Qleb. rewrite Qle_alt. destruct (x ?= y); split; congruence. Qed.

Lemma Qleb_gt x y : Qleb x y = false <-> y < x.
Proof. unfold Qleb. rewrite Qgt_alt. destruct (x ?= y); split; congruence. Qed.



(** The integer part is within one of the number, on the side of zero. *)
Lemma Qtrunc_bounds (x : Q) :
  (0 <= x -> inject_Z (Qtrunc x) <= x /\ x < inject_Z (Qtrunc x) + 1) /\
  (x <= 0 -> x <= inject_Z (Qtrunc x) /\ inject_Z (Qtrunc x) - 1 < x).
Proof.
  destruct x as [n d]. unfold Qtrunc, Qle, Qlt; simpl.
  pose proof (Z.quot_rem' n (Z.pos d)) as E.
  split; intros Hs.
  - assert (Hn : (0 <= n)%Z) by lia.
    pose proof (Z.rem_bound_pos n (Z.pos d) Hn ltac:(lia)). nia.
  - assert (Hn : (n <= 0)%Z) by lia.
    pose proof (Z.rem_bound_pos_neg n (Z.pos d) ltac:(lia) Hn). nia.
Qed.

Lemma js_rem_nonneg a n :
  0 < n -> 0 <= a -> 0 <= js_rem a n /\ js_rem a n < n.
Proof.
  intros Hn Ha. unfold js_rem.
  assert (Hq : 0 <= a / n) by (apply Qle_shift_div_l; lra).
  destruct (Qtrunc_bounds (a / n)) as [[H1 H2] _]; [exact Hq|].
  set (t := inject_Z (Qtrunc (a / n))) in *.
  assert (E : a == (a / n) * n) by (field; lra).
  split.
  - assert (t * n <= (a / n) * n) by (apply Qmult_le_compat_r; lra). lra.
  - assert ((a / n) * n < (t + 1) * n) by (apply Qmult_lt_compat_r; lra). lra.
Qed.

Lemma js_rem_nonpos a n :
  0 < n -> a <= 0 -> - n < js_rem a n /\ js_rem a n <= 0.
Proof.
  intros Hn Ha. unfold js_rem.
  assert (Hq : a / n <= 0) by (apply Qle_shift_div_r; lra).
  destruct (Qtrunc_bounds (a / n)) as [_ [H1 H2]]; [exact Hq|].
  set (t := inject_Z (Qtrunc (a / n))) in *.
  assert (E : a == (a / n) * n) by (field; lra).
  split.
  - assert ((t - 1) * n < (a / n) * n) by (apply Qmult_lt_compat_r; lra). lra.
  - assert ((a / n) * n <= t * n) by (apply Qmult_le_compat_r; lra). lra.
Qed.

(** [((a % 360) + 360) % 360] is a bearing in [0, 360). *)
Lemma normalized_bearing_range a :
  0 <= js_rem (js_rem a 360 + 360) 360 /\ js_rem (js_rem a 360 + 360) 360 < 360.
Proof.
  apply js_rem_nonneg; [lra|].
  destruct (Qlt_le_dec a 0).
  - destruct (js_rem_nonpos a 360); lra.
  - destruct (js_rem_nonneg a 360); lra.
Qed.

Lemma Qabs_minus_sym (x y : Q) : Qabs (x - y) = Qabs (y - x).
Proof.
  destruct x as [a b], y as [c d]. unfold Qabs, Qminus, Qplus, Qopp. simpl.
  f_equal; [|apply Pos.mul_comm]. lia.
Qed.

End NumberFacts.

(** ** Geometry primitives *)

Lemma parallelOrientationDiffDeg_range a b :
  (0 <= parallelOrientationDiffDeg a b /\ parallelOrientationDiffDeg a b <= 90)%Q.
Proof.
  unfold parallelOrientationDiffDeg, Math_abs.
  pose proof (normalized_bearing_range a) as [A1 A2].
  pose proof (normalized_bearing_range b) as [B1 B2].
  set (x := js_rem (js_rem a 360 + 360) 360) in *.
  set (y := js_rem (js_rem b 360 + 360) 360) in *.
  assert (R0 : 0 <= Qabs (x - y)) by apply Qabs_nonneg.
  assert (R1 : Qabs (x - y) < 360) by (apply Qabs_case; intros; lra).
  set (r := Qabs (x - y)) in *.
  destruct (Qltb 180 r) eqn:E1.
  - apply Qltb_lt in E1. destruct (Qltb 90 (360 - r)) eqn:E2.
    + apply Qltb_lt in E2. lra.
    + apply Qltb_ge in E2. lra.
  - apply Qltb_ge in E1. destruct (Qltb 90 r) eqn:E2.
    + apply Qltb_lt in E2. lra.
    + apply Qltb_ge in E2. lra.
Qed.

(** C7.  The angular difference of two bearings does not depend on their
    order, and lies between 0 and 90 degrees. *)
Theorem parallelOrientationDiffDeg_symmetric_bounded (a b : Q) :
  parallelOrientationDiffDeg a b = parallelOrientationDiffDeg b a /\
  (0 <= parallelOrientationDiffDeg a b)%Q /\
  (parallelOrientationDiffDeg a b <= 90)%Q.
Proof.
  split; [|apply parallelOrientationDiffDeg_range].
  unfold parallelOrientationDiffDeg, Math_abs. now rewrite Qabs_minus_sym.
Qed.

(** ** The edge extractor *)

Section EdgeExtractor.
Context (host : Host).


Lemma ringEdgesFrom_cons k a b (rest : list Position) :
  exists e, freshEdge host k a b e /\
    ringEdgesFrom host k (a :: b :: rest)
    = e :: ringEdgesFrom host (S k) (b :: rest).
Proof. eexists. split; [|reflexivity]. repeat split. Qed.

Lemma ringEdgesFrom_length k (ring : list Position) :
  length (ringEdgesFrom host k ring) = (length ring - 1)%nat.
Proof.
  revert k. induction ring as [|a [|b rest] IH]; intros k; try reflexivity.
  destruct (ringEdgesFrom_cons k a b rest) as [e [_ ->]].
  cbn [length]. rewrite IH. cbn [length]. lia.
Qed.

Lemma ringEdgesFrom_lookup k (ring : list Position) i a b :
  ring !! i = Some a -> ring !! S i = Some b ->
  exists e, ringEdgesFrom host k ring !! i = Some e /\ freshEdge host (k + i) a b e.
Proof.
  revert k i. induction ring as [|x [|y rest] IH]; intros k i Ha Hb.
  - destruct i; discriminate.
  - destruct i as [|[|i]]; discriminate.
  - destruct (ringEdgesFrom_cons k x y rest) as [e0 [Hf0 ->]].
    destruct i as [|i].
    + cbn in Ha, Hb. injection Ha as <-. injection Hb as <-.
      exists e0. split; [reflexivity|].
      rewrite Nat.add_0_r. exact Hf0.
    + destruct (IH (S k) i Ha Hb) as [e [He Hf]].
      exists e. split; [exact He|].
      replace (k + S i)%nat with (S k + i)%nat by lia. exact Hf.
Qed.

(** C6.  A ring of N >= 3 vertices gives N - 1 edges; edge [i] runs from
    vertex [i] to vertex [i + 1], its midpoint is the mean of the two, and it
    starts as a side edge with no road, not road-adjacent, with the
    diagnostic of an edge without candidate. *)
Theorem toRingEdges_fresh (ring : list Position) (H : (3 <= length ring)%nat) :
  length (toRingEdges host ring) = (length ring - 1)%nat /\
  forall i, (i < length ring - 1)%nat ->
    exists e a b,
      toRingEdges host ring !! i = Some e /\
      ring !! i = Some a /\ ring !! S i = Some b /\
      index e = i /\ start e = a /\ end_ e = b /\
      midpoint e = (((fst a + fst b) / 2)%Q, ((snd a + snd b) / 2)%Q) /\
      lengthMeters e = turf_distance host a b /\
      type e = Side /\ roadKind e = None /\ isRoadAdjacent e = false /\
      debug e = "No road candidate found."%string.
Proof.
  unfold toRingEdges.
  destruct (Nat.ltb_spec (length ring) 2) as [Hlt|_]; [lia|].
  split; [apply ringEdgesFrom_length|].
  intros i Hi.
  destruct (lookup_lt_is_Some_2 ring i ltac:(lia)) as [a Ha].
  destruct (lookup_lt_is_Some_2 ring (S i) ltac:(lia)) as [b Hb].
  destruct (ringEdgesFrom_lookup 0 ring i a b Ha Hb)
    as [e [He (Hi' & Hs & Hen & Hm & Hl & Ht & Hk & Hadj & Hd)]].
  exists e, a, b. repeat split; assumption.
Qed.

End EdgeExtractor.

(** ** The kind of a road candidate *)

Section KindOfCandidate.
Local Open Scope string_scope.

(** No string ends both in " lane" and in " street". *)
Lemma endsWith_street_not_lane (s : string) :
  endsWith s " street" = true -> endsWith s " lane" = false.
Proof.
  unfold endsWith. cbn [rev_string].
  destruct (rev_string s EmptyString) as [|c r]; [discriminate|].
  cbn [String.prefix]. intros H.
  destruct (ascii_dec "t" c) as [<-|]; [reflexivity|discriminate].
Qed.

Lemma endsWith_nonempty (s p : string) :
  p <> EmptyString -> endsWith s p = true -> isEmpty s = false.
Proof.
  intros Hp. unfold endsWith. destruct s as [|c s]; [|reflexivity].
  cbn [rev_string]. destruct p as [|d p]; [congruence|].
  cbn [rev_string]. 
  assert (G : forall q acc, acc <> EmptyString -> rev_string q acc <> EmptyString).
  { induction q as [|x q IH]; intros acc Ha; cbn; [exact Ha|].
    apply IH. discriminate. }
  destruct (rev_string p (String d EmptyString)) eqn:E.
  - exfalso. eapply G; [|exact E]. discriminate.
  - discriminate.
Qed.


Lemma inferKind_cases (name classJoined : string) :
  let n := normalizeStreetName name in
  (endsWith n " lane" = true -> inferKind name classJoined = lane) /\
  (endsWith n " street" = true -> inferKind name classJoined = street) /\
  (endsWith n " lane" = false -> endsWith n " street" = false ->
   inferKind name classJoined
   = if laneLikeText name classJoined then lane else street).
Proof.
  cbv zeta. unfold inferKind, suffixRoadKindFromName, laneLikeText.
  set (n := normalizeStreetName name).
  repeat split.
  - intros H. rewrite (endsWith_nonempty n " lane"), H; [reflexivity| |exact H].
    discriminate.
  - intros H.
    rewrite (endsWith_nonempty n " street"), (endsWith_street_not_lane n H), H;
      [reflexivity| |exact H].
    discriminate.
  - intros H1 H2. rewrite H1, H2. destruct (isEmpty n); reflexivity.
Qed.

Lemma toRoadCandidate_kind (feature : GeoJSONFeature) (c : RoadCandidate) :
  toRoadCandidate feature = Some c ->
  kind c = inferKind (name c)
             (toLowerCase (className c ++ " " ++ candidate_sourceLayer c)).
Proof.
  unfold toRoadCandidate.
  repeat match goal with
         | |- context [if ?b then _ else _] => destruct b
         end; try discriminate.
  intros [= <-]. reflexivity.
Qed.

(** C8, as the code has it.  For an accepted feature the kind is [lane] when
    the normalized name ends in " lane", [street] when it ends in " street",
    and otherwise [lane] exactly when the name has the word lane, alley or
    alleyway, or the class and layer text contains lane, alley, driveway or
    access, or that text has the word service and the name has none of the
    street-type words street, avenue, road, drive, boulevard, highway,
    parkway, way, place, court, crescent, trail, terrace, connector.  A
    name ending in " street" is never a lane. *)
Theorem toRoadCandidate_kind_rule (feature : GeoJSONFeature)
    (c : RoadCandidate) (H : toRoadCandidate feature = Some c) :
  let n := normalizeStreetName (name c) in
  let classJoined :=
    toLowerCase (className c ++ " " ++ candidate_sourceLayer c) in
  let laneLike :=
    testAnyWord ["lane"; "alley"; "alleyway"] n ||
    includesAny classJoined ["lane"; "alley"; "driveway"; "access"] ||
    (testWord "service" classJoined &&
     negb (testAnyWord
             ["street"; "avenue"; "road"; "drive"; "boulevard"; "highway";
              "parkway"; "way"; "place"; "court"; "crescent"; "trail";
              "terrace"; "connector"] n)) in
  (endsWith n " lane" = true -> kind c = lane) /\
  (endsWith n " street" = true -> kind c = street /\ kind c <> lane) /\
  (endsWith n " lane" = false -> endsWith n " street" = false ->
   (kind c = lane <-> laneLike = true) /\
   (kind c = street <-> laneLike = false)).
Proof.
  cbv zeta. rewrite (toRoadCandidate_kind feature c H).
  destruct (inferKind_cases (name c)
              (toLowerCase (className c ++ " " ++ candidate_sourceLayer c)))
    as (Hl & Hs & Ho).
  split; [exact Hl|]. split.
  - intros Hst. rewrite (Hs Hst). split; [reflexivity|discriminate].
  - intros H0 H1. rewrite (Ho H0 H1).
    unfold laneLikeText, explicitLaneWords, laneLikeClassWords,
      explicitStreetWords.
    match goal with
    | |- context [if ?b then lane else street] => destruct b
    end; split; split; congruence.
Qed.

End KindOfCandidate.

(** Main Street, class street, is accepted as a street. *)
Lemma toRoadCandidate_kind_rule_witness :
  exists c, toRoadCandidate (Scenario.mainStreet 10) = Some c /\
            kind c = street /\ kind c <> lane.
Proof.
  eexists. split; [vm_compute; reflexivity|].
  refine (proj1 (proj2 (toRoadCandidate_kind_rule (Scenario.mainStreet 10) _ _)) _);
    vm_compute; reflexivity.
Defined.

(** The name Oak Avenue ends in a street-type suffix, and with the class
    alley the feature is accepted and classified as a lane. *)
Lemma avenue_with_alley_class_is_lane :
  endsWith (normalizeStreetName "Oak Avenue") " avenue" = true /\
  kind <$> toRoadCandidate
             (Scenario.lineFeature "Oak Avenue" "alley"
                [Scenario.rawAt 0 0; Scenario.rawAt 0 50])
  = Some lane.
Proof. split; vm_compute; reflexivity. Qed.

(** The rule at sample features of layer road: a lane word in the name, a
    service class without and with a street-type word in the name, a
    lane-like class with a street-type word in the name, and the two
    deciding suffixes after normalization. *)
Lemma toRoadCandidate_kind_examples :
  let kindOf := fun name class : string =>
    kind <$> toRoadCandidate
               (Scenario.lineFeature name class
                  [Scenario.rawAt 0 0; Scenario.rawAt 0 50]) in
  kindOf "Back Alley" "street" = Some lane /\
  kindOf "Alleyway 4" "street" = Some lane /\
  kindOf "" "service" = Some lane /\
  kindOf "Oak Avenue" "service" = Some street /\
  kindOf "Mill Way" "driveway" = Some lane /\
  kindOf "Elm Ave." "access" = Some lane /\
  kindOf "Pine Ln" "street" = Some lane /\
  kindOf "Main St" "alley" = Some street.
Proof. vm_compute. repeat split. Qed.

(** ** Sorting with a comparator *)

Section SortWith.
Context {A : Type} (compareFn : A -> A -> Q) (R : A -> A -> Prop).

Lemma insertSorted_Permutation x (l : list A) :
  Permutation (insertSorted compareFn x l) (x :: l).
Proof.
  induction l as [|y l IH]; cbn; [reflexivity|].
  destruct (Qltb 0 (compareFn x y)); [|reflexivity].
  rewrite IH. apply perm_swap.
Qed.

Lemma sortWith_Permutation (l : list A) : Permutation (sortWith compareFn l) l.
Proof.
  induction l as [|x l IH]; cbn; [reflexivity|].
  fold (sortWith compareFn l).
  rewrite insertSorted_Permutation. now constructor.
Qed.

Lemma sortWith_length (l : list A) : length (sortWith compareFn l) = length l.
Proof. apply Permutation_length, sortWith_Permutation. Qed.

(** The comparator decides [R]: a result that is not positive puts the first
    argument before the second, a positive one the second before the first. *)
Hypothesis compare_le : forall x y, Qltb 0 (compareFn x y) = false -> R x y.
Hypothesis compare_gt : forall x y, Qltb 0 (compareFn x y) = true -> R y x.
Hypothesis R_trans : forall x y z, R x y -> R y z -> R x z.

Lemma insertSorted_StronglySorted x (l : list A) :
  StronglySorted R l -> StronglySorted R (insertSorted compareFn x l).
Proof.
  induction 1 as [|y l Hs IH Hy]; cbn.
  - repeat constructor.
  - destruct (Qltb 0 (compareFn x y)) eqn:E.
    + constructor; [exact IH|].
      rewrite (insertSorted_Permutation x l).
      constructor; [now apply compare_gt|exact Hy].
    + constructor; [now constructor|].
      constructor; [now apply compare_le|].
      eapply Forall_impl; [exact Hy|].
      intros z Hz. eapply R_trans; [|exact Hz]. now apply compare_le.
Qed.

Lemma sortWith_StronglySorted (l : list A) :
  StronglySorted R (sortWith compareFn l).
Proof.
  induction l as [|x l IH]; cbn; [constructor|].
  now apply insertSorted_StronglySorted.
Qed.

End SortWith.

(** ** The candidate evaluator *)

Section Evaluator.
Context (host : Host).
Local Open Scope Q_scope.

Lemma foldl_keepBest_from (b0 : Q * Q) (ms : list (Q * Q)) :
  exists b, foldl keepBest (Some b0) ms = Some b /\
    (b = b0 \/ In b ms) /\
    combinedScore b <= combinedScore b0 /\
    forall m, In m ms -> combinedScore b <= combinedScore m.
Proof.
  revert b0. induction ms as [|m ms IH]; intros b0; cbn [foldl].
  - exists b0. repeat split; [now left|lra|intros ? []].
  - unfold keepBest at 2.
    destruct (Qltb (combinedScore m) (combinedScore b0)) eqn:E.
    + apply Qltb_lt in E.
      destruct (IH m) as (b & Hb & Hin & Hle & Hall).
      exists b. repeat split; [exact Hb| |lra|].
      * right. destruct Hin as [->|Hin]; [now left|now right].
      * intros m' [<-|Hm']; [exact Hle|now apply Hall].
    + apply Qltb_ge in E.
      destruct (IH b0) as (b & Hb & Hin & Hle & Hall).
      exists b. repeat split; [exact Hb| |exact Hle|].
      * destruct Hin as [->|Hin]; [now left|right; now right].
      * intros m' [<-|Hm']; [lra|now apply Hall].
Qed.

Lemma foldl_keepBest_min (ms : list (Q * Q)) :
  ms <> [] ->
  exists b, foldl keepBest None ms = Some b /\ In b ms /\
    forall m, In m ms -> combinedScore b <= combinedScore m.
Proof.
  destruct ms as [|m ms]; [congruence|intros _]. cbn [foldl keepBest].
  destruct (foldl_keepBest_from m ms) as (b & Hb & Hin & Hle & Hall).
  exists b. repeat split; [exact Hb| |].
  - destruct Hin as [->|Hin]; [now left|now right].
  - intros m' [<-|Hm']; [exact Hle|now apply Hall].
Qed.







End Evaluator.

(** ** The viewport query *)

Module ViewportFacts.
Import ViewportIndex.
Local Open Scope Q_scope.

(** The box is the bounds widened on each axis by the ratio times the span
    of that axis, a span that is not negative. *)
Lemma paddedBox_sides (bounds : BoundsLike) (ratio : Q) :
  let lonSpan := Math_max 0 (getEast bounds - getWest bounds) in
  let latSpan := Math_max 0 (getNorth bounds - getSouth bounds) in
  paddedWest (paddedBox bounds ratio) = getWest bounds - lonSpan * ratio /\
  paddedEast (paddedBox bounds ratio) = getEast bounds + lonSpan * ratio /\
  paddedSouth (paddedBox bounds ratio) = getSouth bounds - latSpan * ratio /\
  paddedNorth (paddedBox bounds ratio) = getNorth bounds + latSpan * ratio.
Proof. repeat split. Qed.

Lemma insideBox_inPaddedBox box p : insideBox box p = true -> inPaddedBox box p.
Proof.
  unfold insideBox, inPaddedBox. intros H. apply negb_true_iff in H.
  repeat (apply orb_false_iff in H; destruct H as [H ?]).
  repeat split; now apply Qltb_ge.
Qed.

Lemma selectInBox_inside index box p :
  p ∈ selectInBox index box -> inPaddedBox box p.
Proof.
  unfold selectInBox. intros H.
  apply list_elem_of_bind in H. destruct H as (x & H & _).
  apply list_elem_of_bind in H. destruct H as (y & H & _).
  apply list_elem_of_In, filter_In in H. destruct H as [_ H].
  now apply insideBox_inPaddedBox.
Qed.

Lemma sliceFromZero_subset {A : Type} (l : list A) (cap : Q) x :
  x ∈ sliceFromZero l cap -> x ∈ l.
Proof.
  unfold sliceFromZero. intros H. apply elem_of_take in H.
  destruct H as (i & H & _). eapply list_elem_of_lookup_2, H.
Qed.

Lemma sliceFromZero_length {A : Type} (l : list A) (cap : Q) :
  0 <= cap -> inject_Z (Z.of_nat (length (sliceFromZero l cap))) <= cap.
Proof.
  intros Hcap. unfold sliceFromZero.
  destruct (Qtrunc_bounds cap) as [[Hlo _] _]; [exact Hcap|].
  assert (Hz : (0 <= Qtrunc cap)%Z).
  { unfold Qtrunc. apply Z.quot_pos; [|lia].
    unfold Qle in Hcap. simpl in Hcap. lia. }
  destruct (Z.ltb_spec (Qtrunc cap) 0) as [Hneg|_]; [lia|].
  rewrite length_take.
  apply Qle_trans with (inject_Z (Qtrunc cap)); [|exact Hlo].
  rewrite <- Zle_Qle. lia.
Qed.

Lemma StronglySorted_take {A : Type} (R : A -> A -> Prop) n (l : list A) :
  StronglySorted R l -> StronglySorted R (take n l).
Proof.
  intros H. revert n. induction H as [|x l Hs IH Hx]; intros [|n]; cbn;
    try constructor.
  - apply IH.
  - now apply Forall_take.
Qed.

Lemma sortWith_nearerTo c (l : list ParcelFeature) :
  StronglySorted (nearerTo c) (sortWith (compareByDistance c) l).
Proof.
  apply sortWith_StronglySorted; unfold compareByDistance, nearerTo.
  - intros x y H. apply Qltb_ge in H. lra.
  - intros x y H. apply Qltb_lt in H. lra.
  - intros x y z ? ?. lra.
Qed.

Lemma StronglySorted_lookup_lt {A : Type} (R : A -> A -> Prop) (l : list A)
    i j x y :
  StronglySorted R l -> (i < j)%nat ->
  l !! i = Some x -> l !! j = Some y -> R x y.
Proof.
  intros H. revert i j.
  induction H as [|a l Hs IH Ha]; intros i j Hij Hi Hj.
  - destruct i; discriminate.
  - destruct j as [|j]; [lia|]. cbn in Hj. destruct i as [|i].
    + cbn in Hi. injection Hi as <-.
      apply (proj1 (List.Forall_forall _ _) Ha).
      eapply list_elem_of_In, list_elem_of_lookup_2, Hj.
    + cbn in Hi. apply (IH i j); [lia|assumption|assumption].
Qed.

(** C4.  The padded box is the bounds widened on each axis by the padding
    ratio (0.22 when absent) times the span of that axis.  Every returned
    parcel has its reference point in the padded box; the returned count
    does not exceed the cap, a cap being a count and so not negative; and
    when the query without the cap returns more parcels than the cap, the
    returned parcels are in ascending order of squared distance to the
    center, the supplied one or else the center of the padded box. *)
Theorem queryParcelsInBounds_inside_capped_ordered
    (index : ParcelViewportIndex) (bounds : BoundsLike)
    (options : QueryParcelsOptions) :
  let ratio := default (22 # 100) (paddingRatio options) in
  let lonSpan := Math_max 0 (getEast bounds - getWest bounds) in
  let latSpan := Math_max 0 (getNorth bounds - getSouth bounds) in
  let west := getWest bounds - lonSpan * ratio in
  let east := getEast bounds + lonSpan * ratio in
  let south := getSouth bounds - latSpan * ratio in
  let north := getNorth bounds + latSpan * ratio in
  let c := default ((west + east) / 2, (south + north) / 2)
                   (center options) in
  let distanceSqTo := fun p : ParcelFeature =>
    (lon (properties p) - fst c) * (lon (properties p) - fst c) +
    (lat (properties p) - snd c) * (lat (properties p) - snd c) in
  let result := queryParcelsInBounds index bounds options in
  let uncapped :=
    queryParcelsInBounds index bounds
      {| paddingRatio := paddingRatio options; maxFeatures := None;
         center := center options |} in
  (forall p, p ∈ result ->
     west <= lon (properties p) /\ lon (properties p) <= east /\
     south <= lat (properties p) /\ lat (properties p) <= north) /\
  (forall cap, maxFeatures options = Some cap -> 0 <= cap ->
     inject_Z (Z.of_nat (length result)) <= cap) /\
  (forall cap, maxFeatures options = Some cap ->
     cap < inject_Z (Z.of_nat (length uncapped)) ->
     forall i j p q, (i < j)%nat ->
       result !! i = Some p -> result !! j = Some q ->
       distanceSqTo p <= distanceSqTo q).
Proof.
  cbv zeta.
  set (box := paddedBox bounds (default (22 # 100) (paddingRatio options))).
  change (queryParcelsInBounds index bounds
            {| paddingRatio := paddingRatio options; maxFeatures := None;
               center := center options |})
    with (selectInBox index box).
  assert (Hin : forall p, p ∈ selectInBox index box -> inPaddedBox box p)
    by apply selectInBox_inside.
  unfold queryParcelsInBounds. fold box.
  set (selected := selectInBox index box) in *.
  split; [|split].
  - intros p Hp. apply (Hin p).
    destruct (maxFeatures options) as [cap|];
      [destruct (Qleb _ cap)|]; [exact Hp| |exact Hp].
    apply sliceFromZero_subset in Hp.
    eapply elem_of_Permutation_proper; [|exact Hp].
    symmetry. apply sortWith_Permutation.
  - intros cap -> Hcap. destruct (Qleb _ cap) eqn:E.
    + now apply Qleb_le.
    + now apply sliceFromZero_length.
  - intros cap -> Hlt i j p q Hij Hp Hq. destruct (Qleb _ cap) eqn:E.
    + apply Qleb_le in E. lra.
    + unfold sliceFromZero in Hp, Hq.
      exact (StronglySorted_lookup_lt _ _ i j p q
               (StronglySorted_take _ _ _
                  (sortWith_nearerTo (queryCenter box (center options))
                     selected))
               Hij Hp Hq).
Qed.

End ViewportFacts.

(** With a cap of two, two of the three parcels of the viewport are
    returned. *)
Lemma queryParcelsInBounds_witness :
  (0 <= 2)%Q /\
  (inject_Z (Z.of_nat (length
     (ViewportIndex.queryParcelsInBounds ViewportScenario.threeParcels
        ViewportScenario.viewport (ViewportScenario.capped 2)))) <= 2)%Q.
Proof.
  split; [discriminate|].
  apply (proj1 (proj2 (ViewportFacts.queryParcelsInBounds_inside_capped_ordered
           ViewportScenario.threeParcels ViewportScenario.viewport
           (ViewportScenario.capped 2))) 2); [reflexivity|discriminate].
Defined.

(** A negative cap is met by no count, and the source does not guard
    against one: with a cap of minus one [slice] counts from the end and
    drops the last of the three sorted parcels. *)
Lemma negative_cap_counts_from_end :
  length (ViewportIndex.queryParcelsInBounds ViewportScenario.threeParcels
            ViewportScenario.viewport (ViewportScenario.capped (- (1))))
  = 2%nat.
Proof. vm_compute; reflexivity. Qed.

(** ** The lot-type resolver *)

Section LotType.
Context (host : Host).

Lemma determineLotType_corner hasFlankage isDoubleFronting oppositeEdge :
  fst (determineLotType hasFlankage isDoubleFronting oppositeEdge) = CornerLot
  <-> hasFlankage = true.
Proof.
  unfold determineLotType.
  destruct hasFlankage, isDoubleFronting, (isLaneAdjacent oppositeEdge);
    cbn; split; congruence.
Qed.

(** The lot type of a run is the resolver's, on the locals of the run. *)
Lemma classifyEdges_lotType parcel es edgeMatches :
  let run := classifyEdges host parcel es edgeMatches in
  run_hasReliableFlankage run =
    (0 <? run_flankageCount run)%nat &&
    negb (run_usedRelaxedFlankage run && run_laneDetectedOnOpposite run) /\
  run_laneDetectedOnOpposite run =
    isLaneAdjacent (edgeAt (edges (run_result run)) (run_oppositeIndex run)) /\
  lotType (run_result run) =
    fst (determineLotType (run_hasReliableFlankage run)
           (run_isDoubleFronting run)
           (edgeAt (edges (run_result run)) (run_oppositeIndex run))).
Proof.
  cbv zeta. repeat split.
Qed.
End LotType.

(** ** The passes of the classifier *)

Section ClassifierFacts.
Context (host : Host).

Lemma index_stampEdge t m k e : index (stampEdge host t m k e) = index e.
Proof. reflexivity. Qed.

Lemma type_stampEdge t m k e : type (stampEdge host t m k e) = t.
Proof. reflexivity. Qed.

Lemma type_stampDefault ms e : type (stampDefault host ms e) = type e.
Proof.
  unfold stampDefault.
  destruct (firstAdjacentStreet ms false relaxFrontage); [reflexivity|].
  destruct (List.find isAdjacent ms); [reflexivity|].
  destruct (head ms); reflexivity.
Qed.

Lemma index_stampDefault ms e : index (stampDefault host ms e) = index e.
Proof.
  unfold stampDefault.
  destruct (firstAdjacentStreet ms false relaxFrontage); [reflexivity|].
  destruct (List.find isAdjacent ms); [reflexivity|].
  destruct (head ms); reflexivity.
Qed.

Lemma type_stampFrontage em nps e :
  type (stampFrontage host em nps e) = Frontage.
Proof. unfold stampFrontage. destruct (orTry _ _); reflexivity. Qed.

Lemma index_stampFrontage em nps e :
  index (stampFrontage host em nps e) = index e.
Proof. unfold stampFrontage. destruct (orTry _ _); reflexivity. Qed.

Lemma type_stampRear em e : isRearType (fst (stampRear host em e)).
Proof.
  unfold stampRear, isRearType.
  destruct (firstAdjacentLane _ true) as [m|]; [|now left].
  destruct (negb (isAdjacent m)); now right.
Qed.

Lemma index_stampRear em e : index (fst (stampRear host em e)) = index e.
Proof.
  unfold stampRear.
  destruct (firstAdjacentLane _ true) as [m|]; [|reflexivity].
  destruct (negb (isAdjacent m)); reflexivity.
Qed.

(** The first loop stamps each edge with its own matches. *)
Lemma defaultPass_edges m (es : list EdgeAnalysis) em :
  fst (defaultPass host m es em)
  = List.map (fun e =>
      stampDefault host (findEvaluatedRoadCandidatesForEdge host m e) e) es.
Proof.
  revert em. induction es as [|e es IH]; intros em; cbn; [reflexivity|].
  specialize (IH (<[index e:=findEvaluatedRoadCandidatesForEdge host m e]> em)).
  destruct (defaultPass host m es _) as [rest em']. cbn in *. now rewrite IH.
Qed.

Lemma ringEdgesFrom_Forall (P : EdgeAnalysis -> Prop) k (ring : list Position) :
  (forall i a b e, freshEdge host i a b e -> P e) ->
  Forall P (ringEdgesFrom host k ring).
Proof.
  intros HP. revert k. induction ring as [|a [|b rest] IH]; intros k.
  - constructor.
  - constructor.
  - destruct (ringEdgesFrom_cons host k a b rest) as [e [He ->]].
    constructor; [now apply (HP k a b)|apply IH].
Qed.

Lemma toRingEdges_Forall (P : EdgeAnalysis -> Prop) (ring : list Position) :
  (forall i a b e, freshEdge host i a b e -> P e) ->
  Forall P (toRingEdges host ring).
Proof.
  intros HP. unfold toRingEdges. destruct (_ <? 2)%nat; [constructor|].
  now apply ringEdgesFrom_Forall.
Qed.

(** A property of edges that every stamp of the flankage pass establishes
    is kept by the pass. *)
Lemma applyFlankage_Forall (P : EdgeAnalysis -> Prop) em fi oi base relaxed
    (es : list EdgeAnalysis) :
  (forall e c, P (stampEdge host Flankage c street e)) ->
  Forall P es -> Forall P (fst (applyFlankage host em fi oi base relaxed es)).
Proof.
  intros HP. induction 1 as [|e es He Hes IH]; cbn; [constructor|].
  destruct (applyFlankage host em fi oi base relaxed es) as [rest n].
  cbn in IH.
  destruct (indexIs fi e || indexIs oi e); [now constructor|].
  destruct (firstDifferentStreetCandidate _ _ _); constructor; auto.
Qed.

Lemma flankagePass_Forall (P : EdgeAnalysis -> Prop) em fi oi base
    (es : list EdgeAnalysis) :
  (forall e c, P (stampEdge host Flankage c street e)) ->
  Forall P es -> Forall P (fst (fst (flankagePass host em fi oi base es))).
Proof.
  intros HP Hes. unfold flankagePass.
  destruct (_ =? 0)%nat; [destruct (0 <? _)%nat|]; cbn;
    repeat apply applyFlankage_Forall; assumption.
Qed.

Lemma notRear_of_type e t :
  type e = t -> t <> Rear -> t <> RearLane -> notRear e.
Proof. intros <-. now split. Qed.

Lemma stampFrontageAt_notRear em nps fi (es : list EdgeAnalysis) :
  Forall notRear es -> Forall notRear (stampFrontageAt host em nps fi es).
Proof.
  intros H. destruct fi as [i|]; [|exact H]. cbn.
  apply Forall_alter; [exact H|]. intros e _ _.
  eapply notRear_of_type; [apply type_stampFrontage|discriminate..].
Qed.

Lemma stampDoubleFronting_notRear df oi (es : list EdgeAnalysis) :
  Forall notRear es -> Forall notRear (stampDoubleFronting host df oi es).
Proof.
  intros H. destruct df as [c|], oi as [i|]; try exact H. cbn.
  apply Forall_alter; [exact H|]. intros e _ _.
  eapply notRear_of_type; [apply type_stampEdge|discriminate..].
Qed.

(** Before the rear pass no edge is a rear edge. *)
Lemma rearPass_rear em oi isDF (es : list EdgeAnalysis) :
  Forall notRear es ->
  let es' := fst (rearPass host em oi isDF es) in
  (forall i e, es' !! i = Some e -> isRearType e ->
     oi = Some i /\ isDF = false) /\
  (forall i e, oi = Some i -> isDF = false -> es' !! i = Some e ->
     isRearType e).
Proof.
  intros Hes. cbv zeta. unfold rearPass.
  assert (Hno : forall i e, es !! i = Some e -> isRearType e -> False).
  { intros i e Hi [Hr|Hr]; eapply Forall_lookup_1 in Hes; [|exact Hi| |exact Hi];
      destruct Hes; congruence. }
  destruct oi as [k|]; [destruct isDF; [|destruct (es !! k) as [oe|] eqn:Hk]|];
    cbn [fst]; split; intros i e; try discriminate;
    try (intros Hi Hr; exfalso; exact (Hno i e Hi Hr)).
  - intros Hi Hr. destruct (decide (k = i)) as [->|Hne]; [now split|].
    rewrite list_lookup_alter_ne in Hi by exact Hne.
    exfalso. exact (Hno i e Hi Hr).
  - intros [= <-] _ Hi. rewrite list_lookup_alter_eq, Hk in Hi.
    injection Hi as <-. apply type_stampRear.
  - intros [= <-] _ Hi. congruence.
Qed.

Lemma classifyEdges_rear parcel (es : list EdgeAnalysis) em :
  Forall notRear es ->
  let run := classifyEdges host parcel es em in
  (forall i e, edges (run_result run) !! i = Some e -> isRearType e ->
     run_oppositeIndex run = Some i /\ run_isDoubleFronting run = false) /\
  (forall i e, run_oppositeIndex run = Some i ->
     run_isDoubleFronting run = false ->
     edges (run_result run) !! i = Some e -> isRearType e).
Proof.
  intros Hes. cbv zeta. unfold classifyEdges. cbv zeta.
  cbn [run_result run_oppositeIndex run_isDoubleFronting edges].
  apply rearPass_rear, flankagePass_Forall.
  - intros e c. eapply notRear_of_type; [apply type_stampEdge|discriminate..].
  - apply stampDoubleFronting_notRear, stampFrontageAt_notRear, Hes.
Qed.

Lemma firstLoop_notRear parcel map :
  Forall notRear (fst (firstLoop host parcel map)).
Proof.
  assert (H0 : Forall notRear
            (toRingEdges host (default [] (head (coordinates parcel))))).
  { apply toRingEdges_Forall. intros i a b e (_ & _ & _ & _ & _ & Ht & _).
    eapply notRear_of_type; [exact Ht|discriminate..]. }
  unfold firstLoop. destruct map as [m|]; [|exact H0].
  rewrite defaultPass_edges. apply Forall_fmap.
  eapply Forall_impl; [exact H0|]. intros e [H1 H2].
  split; cbn; rewrite type_stampDefault; assumption.
Qed.

(** C10.  In the analysis of a parcel an edge of type Rear or Rear Lane is
    the identified opposite edge, and there is none when double fronting is
    detected; so at most one edge has such a type.  When an opposite edge
    is identified and there is no double fronting, it has such a type. *)
Theorem analyzeParcel_rear_is_opposite (parcel : ParcelFeature)
    (map : option MapboxMap) :
  let run := analyzeParcelRun host parcel map in
  let es := edges (analyzeParcel host parcel map) in
  (forall i e, es !! i = Some e -> isRearType e ->
     run_oppositeIndex run = Some i /\ run_isDoubleFronting run = false) /\
  (forall i j ei ej, es !! i = Some ei -> es !! j = Some ej ->
     isRearType ei -> isRearType ej -> i = j) /\
  (forall i e, run_oppositeIndex run = Some i ->
     run_isDoubleFronting run = false -> es !! i = Some e -> isRearType e).
Proof.
  cbv zeta. unfold analyzeParcel, analyzeParcelRun. cbv zeta.
  destruct (classifyEdges_rear parcel _ (snd (firstLoop host parcel map))
              (firstLoop_notRear parcel map)) as [H1 H2].
  split; [exact H1|split; [|exact H2]].
  intros i j ei ej Hi Hj Ri Rj.
  destruct (H1 i ei Hi Ri) as [Ei _], (H1 j ej Hj Rj) as [Ej _].
  congruence.
Qed.

End ClassifierFacts.

(** ** Indices and the flankage count *)

Section IndexFacts.
Context (host : Host).

Lemma ringEdgesFrom_indexed k (ring : list Position) i e :
  ringEdgesFrom host k ring !! i = Some e -> index e = (k + i)%nat.
Proof.
  revert k i. induction ring as [|a [|b rest] IH]; intros k i H.
  - destruct i; discriminate.
  - destruct i; discriminate.
  - destruct (ringEdgesFrom_cons host k a b rest) as [e0 [Hf Heq]].
    rewrite Heq in H. destruct i as [|i].
    + injection H as <-. destruct Hf as [-> _]. lia.
    + cbn in H. apply IH in H. lia.
Qed.

Lemma toRingEdges_indexed (ring : list Position) :
  indexed (toRingEdges host ring).
Proof.
  intros i e. unfold toRingEdges. destruct (_ <? 2)%nat.
  - destruct i; discriminate.
  - apply ringEdgesFrom_indexed.
Qed.

Lemma indexed_same_indices (es es' : list EdgeAnalysis) :
  List.map index es' = List.map index es -> indexed es -> indexed es'.
Proof.
  intros Hm Hes i e' Hi.
  assert (H1 : List.map index es' !! i = Some (index e')).
  { change (List.map index es') with (index <$> es').
    now rewrite list_lookup_fmap, Hi. }
  rewrite Hm in H1. change (List.map index es) with (index <$> es) in H1.
  rewrite list_lookup_fmap in H1.
  destruct (es !! i) as [e|] eqn:E; [|discriminate].
  injection H1 as <-. now apply Hes.
Qed.

Lemma map_index_alter (f : EdgeAnalysis -> EdgeAnalysis) i
    (es : list EdgeAnalysis) :
  (forall e, index (f e) = index e) ->
  List.map index (alter f i es) = List.map index es.
Proof.
  intros Hf. revert i. induction es as [|e es IH]; intros [|i]; cbn;
    try reflexivity.
  - now rewrite Hf.
  - f_equal. apply IH.
Qed.

Lemma map_index_defaultPass m (es : list EdgeAnalysis) em :
  List.map index (fst (defaultPass host m es em)) = List.map index es.
Proof.
  rewrite defaultPass_edges, List.map_map. apply List.map_ext.
  intros e. apply index_stampDefault.
Qed.

Lemma map_index_stampFrontageAt em nps fi (es : list EdgeAnalysis) :
  List.map index (stampFrontageAt host em nps fi es) = List.map index es.
Proof.
  destruct fi as [i|]; [|reflexivity]. apply map_index_alter.
  intros e. apply index_stampFrontage.
Qed.

Lemma map_index_stampDoubleFronting df oi (es : list EdgeAnalysis) :
  List.map index (stampDoubleFronting host df oi es) = List.map index es.
Proof.
  destruct df as [c|], oi as [i|]; try reflexivity.
  now apply map_index_alter.
Qed.

Lemma map_index_applyFlankage em fi oi base relaxed (es : list EdgeAnalysis) :
  List.map index (fst (applyFlankage host em fi oi base relaxed es))
  = List.map index es.
Proof.
  induction es as [|e es IH]; cbn; [reflexivity|].
  destruct (applyFlankage host em fi oi base relaxed es) as [rest n].
  cbn in IH.
  destruct (indexIs fi e || indexIs oi e); [cbn; now rewrite IH|].
  destruct (firstDifferentStreetCandidate _ _ _); cbn; now rewrite IH.
Qed.

Lemma map_index_flankagePass em fi oi base (es : list EdgeAnalysis) :
  List.map index (fst (fst (flankagePass host em fi oi base es)))
  = List.map index es.
Proof.
  unfold flankagePass.
  destruct (_ =? 0)%nat; [destruct (0 <? _)%nat|]; cbn;
    rewrite ?map_index_applyFlankage; reflexivity.
Qed.

Lemma map_index_rearPass em oi isDF (es : list EdgeAnalysis) :
  List.map index (fst (rearPass host em oi isDF es)) = List.map index es.
Proof.
  unfold rearPass.
  destruct oi as [k|]; [destruct isDF; [|destruct (es !! k) as [oe|]]|];
    try reflexivity.
  cbn. apply map_index_alter. intros x. apply index_stampRear.
Qed.

(** The flankage pass leaves the edge at an excluded index as it is. *)
Lemma applyFlankage_skips em fi oi base relaxed (es : list EdgeAnalysis) i e :
  es !! i = Some e -> indexIs fi e || indexIs oi e = true ->
  fst (applyFlankage host em fi oi base relaxed es) !! i = Some e.
Proof.
  revert i. induction es as [|x es IH]; intros i Hi Hskip.
  - destruct i; discriminate.
  - cbn. destruct (applyFlankage host em fi oi base relaxed es) as [rest n]
      eqn:E. cbn in IH.
    destruct i as [|i].
    + injection Hi as ->. rewrite Hskip. reflexivity.
    + destruct (indexIs fi x || indexIs oi x);
        [|destruct (firstDifferentStreetCandidate _ _ _)]; cbn;
        now apply IH.
Qed.

(** The count of the flankage pass is the number of flankage edges it
    leaves, when there was none before. *)
Lemma applyFlankage_count em fi oi base relaxed (es : list EdgeAnalysis) :
  Forall (fun e => isFlankage e = false) es ->
  snd (applyFlankage host em fi oi base relaxed es)
  = length (List.filter isFlankage
              (fst (applyFlankage host em fi oi base relaxed es))).
Proof.
  induction 1 as [|e es He Hes IH]; cbn; [reflexivity|].
  destruct (applyFlankage host em fi oi base relaxed es) as [rest n].
  cbn in IH.
  destruct (indexIs fi e || indexIs oi e); cbn.
  - now rewrite He.
  - destruct (firstDifferentStreetCandidate _ _ _); cbn.
    + now rewrite IH.
    + now rewrite He.
Qed.

Lemma filter_length_zero_Forall (es : list EdgeAnalysis) :
  length (List.filter isFlankage es) = 0%nat ->
  Forall (fun e => isFlankage e = false) es.
Proof.
  induction es as [|e es IH]; cbn; [constructor|].
  destruct (isFlankage e) eqn:E; [discriminate|].
  intros H. constructor; auto.
Qed.

Lemma flankagePass_count em fi oi base (es : list EdgeAnalysis) :
  Forall (fun e => isFlankage e = false) es ->
  snd (fst (flankagePass host em fi oi base es))
  = length (List.filter isFlankage
              (fst (fst (flankagePass host em fi oi base es)))).
Proof.
  intros Hes. unfold flankagePass.
  pose proof (applyFlankage_count em fi oi base false es Hes) as Hs.
  destruct (Nat.eqb_spec (snd (applyFlankage host em fi oi base false es)) 0)
    as [Hz|Hnz]; [|exact Hs].
  assert (Hes' : Forall (fun e => isFlankage e = false)
                   (fst (applyFlankage host em fi oi base false es))).
  { apply filter_length_zero_Forall. congruence. }
  pose proof (applyFlankage_count em fi oi base true _ Hes') as Hr.
  destruct (0 <? _)%nat eqn:Hpos; cbn; [exact Hr|].
  apply Nat.ltb_ge in Hpos. lia.
Qed.

Lemma flankagePass_skips em fi oi base (es : list EdgeAnalysis) i e :
  es !! i = Some e -> indexIs fi e || indexIs oi e = true ->
  fst (fst (flankagePass host em fi oi base es)) !! i = Some e.
Proof.
  intros Hi Hskip. unfold flankagePass.
  destruct (_ =? 0)%nat; [destruct (0 <? _)%nat|]; cbn;
    repeat apply applyFlankage_skips; assumption.
Qed.

Lemma filter_length_alter (f : EdgeAnalysis -> EdgeAnalysis) i
    (es : list EdgeAnalysis) :
  (forall e, es !! i = Some e -> isFlankage (f e) = isFlankage e) ->
  length (List.filter isFlankage (alter f i es))
  = length (List.filter isFlankage es).
Proof.
  revert i. induction es as [|e es IH]; intros [|i] Hf; cbn;
    try reflexivity.
  - rewrite (Hf e eq_refl). destruct (isFlankage e); reflexivity.
  - destruct (isFlankage e); cbn; rewrite (IH i); try reflexivity;
      intros x Hx; now apply Hf.
Qed.

End IndexFacts.

(** ** The corner-lot rule *)

Section CornerLot.
Context (host : Host).

Lemma analyzeParcelRun_firstLoop parcel map :
  analyzeParcelRun host parcel map
  = classifyEdges host parcel (fst (firstLoop host parcel map))
      (snd (firstLoop host parcel map)).
Proof. reflexivity. Qed.

Lemma firstLoop_side parcel map :
  Forall (fun e => type e = Side) (fst (firstLoop host parcel map)).
Proof.
  assert (H0 : Forall (fun e => type e = Side)
            (toRingEdges host (default [] (head (coordinates parcel))))).
  { apply toRingEdges_Forall. now intros i a b e (_ & _ & _ & _ & _ & Ht & _). }
  unfold firstLoop. destruct map as [m|]; [|exact H0].
  rewrite defaultPass_edges. apply Forall_fmap.
  eapply Forall_impl; [exact H0|]. intros e He. cbn.
  now rewrite type_stampDefault.
Qed.

Lemma firstLoop_indexed parcel map : indexed (fst (firstLoop host parcel map)).
Proof.
  unfold firstLoop. destruct map as [m|]; [|apply toRingEdges_indexed].
  eapply indexed_same_indices; [apply map_index_defaultPass|].
  apply toRingEdges_indexed.
Qed.

Lemma classifyEdges_flankageCount parcel (es : list EdgeAnalysis) em :
  Forall (fun e => type e = Side) es -> indexed es ->
  let run := classifyEdges host parcel es em in
  run_flankageCount run
  = length (List.filter isFlankage (edges (run_result run))).
Proof.
  intros Hside Hidx. cbv zeta. unfold classifyEdges. cbv zeta.
  cbn [run_result run_flankageCount edges].
  set (nps := normalizeStreetName _).
  set (fi := index <$> _).
  set (es2 := stampFrontageAt host em nps fi es).
  set (oi := fi ≫= findOppositeEdgeIndex host es2).
  set (df := doubleFrontingCandidate em _ _ _).
  set (es3 := stampDoubleFronting host df oi es2).
  set (base := frontageStreetOf _ nps).
  assert (H2 : Forall (fun e => isFlankage e = false) es2).
  { subst es2. destruct fi as [i|]; cbn.
    - apply Forall_alter.
      + eapply Forall_impl; [exact Hside|]. intros e He.
        unfold isFlankage. now rewrite He.
      + intros e _ _. unfold isFlankage. now rewrite type_stampFrontage.
    - eapply Forall_impl; [exact Hside|]. intros e He.
      unfold isFlankage. now rewrite He. }
  assert (H3 : Forall (fun e => isFlankage e = false) es3).
  { subst es3. destruct df as [c|], oi as [i|]; try exact H2. cbn.
    apply Forall_alter; [exact H2|]. intros e _ _. reflexivity. }
  assert (I3 : indexed es3).
  { eapply indexed_same_indices; [|exact Hidx]. subst es3 es2.
    now rewrite map_index_stampDoubleFronting, map_index_stampFrontageAt. }
  rewrite (flankagePass_count host em fi oi base es3 H3).
  unfold rearPass.
  destruct oi as [k|] eqn:Eoi; [|reflexivity].
  destruct (bool_decide (is_Some df)); [reflexivity|].
  destruct (fst (fst (flankagePass host em fi (Some k) base es3)) !! k)
    as [oe|] eqn:Ek; [|reflexivity].
  cbn [fst]. symmetry. apply filter_length_alter.
  intros e He. rewrite Ek in He. injection He as <-.
  destruct (type_stampRear host em oe) as [Hr|Hr];
    unfold isFlankage at 1; rewrite Hr; cbn.
  all: assert (Hk : (k < length es3)%nat)
    by (apply lookup_lt_Some in Ek;
        rewrite <- (length_map index), map_index_flankagePass,
          length_map in Ek; exact Ek).
  all: destruct (lookup_lt_is_Some_2 es3 k Hk) as [e3 He3].
  all: assert (Hsk : indexIs fi e3 || indexIs (Some k) e3 = true)
    by (unfold indexIs at 2; rewrite (I3 k e3 He3), bool_decide_eq_true_2;
        [apply orb_true_r|reflexivity]).
  all: rewrite (flankagePass_skips host em fi (Some k) base es3 k e3 He3 Hsk)
    in Ek.
  all: injection Ek as <-.
  all: symmetry; exact (proj1 (Forall_lookup _ _) H3 k e3 He3).
Qed.

Lemma isLaneAdjacent_true (oe : option EdgeAnalysis) :
  isLaneAdjacent oe = true <->
  exists e, oe = Some e /\ isRoadAdjacent e = true /\ roadKind e = Some lane.
Proof.
  unfold isLaneAdjacent. destruct oe as [e|].
  - rewrite andb_true_iff, bool_decide_eq_true. split.
    + intros [H1 H2]. now exists e.
    + intros (e' & [= <-] & H1 & H2). now split.
  - split; [discriminate|]. now intros (e & H & _).
Qed.

(** C1, as the code has it.  The flankage count is the number of edges the
    analysis returns stamped as flankage.  The lot type is Corner Lot
    exactly when that count is positive and it is not the case that the
    flankage was found only by the relaxed pass while the opposite edge is
    adjacent to a lane; so flankage found by the strict pass gives Corner
    Lot whatever lies on the opposite edge. *)
Theorem analyzeParcel_corner_lot_rule (parcel : ParcelFeature)
    (map : option MapboxMap) :
  let run := analyzeParcelRun host parcel map in
  let result := analyzeParcel host parcel map in
  run_flankageCount run = length (List.filter isFlankage (edges result)) /\
  (run_laneDetectedOnOpposite run = true <->
   exists i e, run_oppositeIndex run = Some i /\ edges result !! i = Some e /\
               isRoadAdjacent e = true /\ roadKind e = Some lane) /\
  (lotType result = CornerLot <->
   (0 < run_flankageCount run)%nat /\
   ~ (run_usedRelaxedFlankage run = true /\
      run_laneDetectedOnOpposite run = true)) /\
  ((0 < run_flankageCount run)%nat -> run_usedRelaxedFlankage run = false ->
   lotType result = CornerLot).
Proof.
  cbv zeta. unfold analyzeParcel. rewrite analyzeParcelRun_firstLoop.
  pose proof (classifyEdges_flankageCount parcel _
                (snd (firstLoop host parcel map))
                (firstLoop_side parcel map) (firstLoop_indexed parcel map))
    as Hcount.
  destruct (classifyEdges_lotType host parcel (fst (firstLoop host parcel map))
              (snd (firstLoop host parcel map))) as (Hrel & Hlane & Hlot).
  cbv zeta in Hcount.
  set (run := classifyEdges host parcel _ _) in *. clearbody run.
  assert (Hcorner : lotType (run_result run) = CornerLot <->
            (0 < run_flankageCount run)%nat /\
            ~ (run_usedRelaxedFlankage run = true /\
               run_laneDetectedOnOpposite run = true)).
  { rewrite Hlot, determineLotType_corner, Hrel, andb_true_iff,
      negb_true_iff, andb_false_iff, Nat.ltb_lt.
    destruct (run_usedRelaxedFlankage run), (run_laneDetectedOnOpposite run);
      intuition congruence. }
  split; [exact Hcount|split; [|split]].
  - rewrite Hlane, isLaneAdjacent_true. unfold edgeAt. split.
    + intros (e & He & H1 & H2).
      destruct (run_oppositeIndex run) as [i|]; [|discriminate].
      now exists i, e.
    + intros (i & e & -> & He & H1 & H2). now exists e.
  - exact Hcorner.
  - intros Hpos Hstrict. apply Hcorner. split; [exact Hpos|].
    intros [Hr _]. congruence.
Qed.

End CornerLot.

(** Oak Avenue at 22 m is a flankage of the east side only by the relaxed
    pass, and a lane runs behind the lot: one edge is stamped as flankage,
    the count is one, and the lot type is Standard with Lane. *)
Lemma relaxed_flankage_with_lane_is_not_corner :
  let map := Some (Scenario.mapOf
                     [Scenario.mainStreet 10; Scenario.rearLane;
                      Scenario.oakAvenue 22]) in
  let run := analyzeParcelRun Scenario.flatHost Scenario.lot map in
  let result := analyzeParcel Scenario.flatHost Scenario.lot map in
  run_flankageCount run = 1%nat /\
  List.map type (edges result) = [Frontage; Flankage; RearLane; Side] /\
  lotType result = StandardWithLane.
Proof. vm_compute. repeat split. Qed.

(** Oak Avenue at 10 m is a flankage by the strict pass: Corner Lot, with
    the same lane behind the lot. *)
Lemma analyzeParcel_corner_lot_rule_witness :
  let map := Some (Scenario.mapOf
                     [Scenario.mainStreet 10; Scenario.rearLane;
                      Scenario.oakAvenue 10]) in
  lotType (analyzeParcel Scenario.flatHost Scenario.lot map) = CornerLot.
Proof.
  cbv zeta.
  apply (proj2 (proj2 (proj2 (analyzeParcel_corner_lot_rule
           Scenario.flatHost Scenario.lot _)))); vm_compute; [lia|reflexivity].
Defined.

(** ** Confidence *)

Section ConfidenceFacts.
Context (host : Host).

Lemma determineLotType_double hasFlankage isDoubleFronting oppositeEdge :
  fst (determineLotType hasFlankage isDoubleFronting oppositeEdge)
  = DoubleFronting -> isDoubleFronting = true.
Proof.
  unfold determineLotType.
  destruct hasFlankage, isDoubleFronting, (isLaneAdjacent oppositeEdge);
    cbn; congruence.
Qed.

(** Whether an edge has a street candidate depends on its index only. *)
Lemma hasStreetCandidate_index em relaxed (e e' : EdgeAnalysis) :
  index e = index e' ->
  hasStreetCandidate em relaxed e = hasStreetCandidate em relaxed e'.
Proof. unfold hasStreetCandidate, matchesOf. now intros ->. Qed.

Lemma firstAdjacentStreet_relax ms mode :
  is_Some (firstAdjacentStreet ms false mode) ->
  is_Some (firstAdjacentStreet ms true mode).
Proof.
  unfold firstAdjacentStreet. induction ms as [|c ms IH]; cbn; [easy|].
  destruct (isStreet c), (isAdjacent c),
    (isRelaxedStreetCandidateForMode c mode); cbn; auto; easy.
Qed.

Lemma filter_nil_Forall {A : Type} (p : A -> bool) (l : list A) :
  List.filter p l = [] <-> Forall (fun x => p x = false) l.
Proof.
  induction l as [|x l IH]; cbn; [split; [constructor|reflexivity]|].
  destruct (p x) eqn:E.
  - split; [discriminate|]. intros H. inversion H; congruence.
  - rewrite IH. split; [now constructor|]. intros H. now inversion H.
Qed.

(** The street-candidate edges are empty exactly when no edge has a street
    candidate, even relaxed. *)
Lemma chooseFrontage_candidates_nil (es : list EdgeAnalysis) em nps :
  snd (chooseFrontage es em nps) = [] <->
  Forall (fun e => hasStreetCandidate em true e = false) es.
Proof.
  unfold chooseFrontage. cbn [snd].
  destruct (List.filter (hasStreetCandidate em false) es) as [|x l] eqn:E.
  - cbn. apply filter_nil_Forall.
  - cbn. split; [discriminate|]. intros H. exfalso.
    assert (Hx : In x (List.filter (hasStreetCandidate em false) es))
      by (rewrite E; now left).
    apply filter_In in Hx. destruct Hx as [Hin Hs].
    apply list_elem_of_In in Hin.
    pose proof (proj1 (Forall_forall _ _) H x Hin) as Hf. cbn in Hf.
    unfold hasStreetCandidate in Hs, Hf.
    apply bool_decide_eq_true in Hs. apply bool_decide_eq_false in Hf.
    now apply Hf, firstAdjacentStreet_relax.
Qed.

Lemma doubleFrontingCandidate_street em fe oe s c :
  doubleFrontingCandidate em fe oe s = Some c ->
  exists opp, oe = Some opp /\ hasStreetCandidate em true opp = true.
Proof.
  unfold doubleFrontingCandidate.
  destruct fe as [f|]; [|discriminate]. destruct oe as [opp|]; [|discriminate].
  destruct (em !! index opp) as [ms|] eqn:E; [|discriminate].
  destruct (firstAdjacentStreet ms true relaxFrontage) as [c'|] eqn:F;
    [|discriminate].
  intros _. exists opp. split; [reflexivity|].
  unfold hasStreetCandidate, matchesOf. rewrite E.
  apply bool_decide_eq_true. simpl. rewrite F. now exists c'.
Qed.

Lemma same_indices_lookup (es es' : list EdgeAnalysis) i e' :
  List.map index es' = List.map index es -> es' !! i = Some e' ->
  exists e, es !! i = Some e /\ index e = index e'.
Proof.
  intros Hm Hi.
  assert (H1 : List.map index es' !! i = Some (index e')).
  { change (List.map index es') with (index <$> es').
    now rewrite list_lookup_fmap, Hi. }
  rewrite Hm in H1. change (List.map index es) with (index <$> es) in H1.
  rewrite list_lookup_fmap in H1.
  destruct (es !! i) as [e|] eqn:E; [|discriminate].
  injection H1 as H1. now exists e.
Qed.

(** Double fronting needs a street candidate on the opposite edge, so the
    street-candidate edges are not empty. *)
Lemma classifyEdges_double_has_candidates parcel (es : list EdgeAnalysis) em :
  let run := classifyEdges host parcel es em in
  run_isDoubleFronting run = true -> run_candidateStreetEdges run <> [].
Proof.
  cbv zeta. unfold classifyEdges. cbv zeta.
  cbn [run_isDoubleFronting run_candidateStreetEdges].
  set (nps := normalizeStreetName _).
  set (fi := index <$> _).
  set (es2 := stampFrontageAt host em nps fi es).
  intros Hdf Hnil. apply bool_decide_eq_true in Hdf. destruct Hdf as [c Hc].
  apply doubleFrontingCandidate_street in Hc.
  destruct Hc as (opp & Hopp & Hs).
  unfold edgeAt in Hopp.
  destruct (fi ≫= findOppositeEdgeIndex host es2) as [k|]; [|discriminate].
  cbn in Hopp.
  destruct (same_indices_lookup es es2 k opp
              (map_index_stampFrontageAt host em nps fi es) Hopp)
    as (e & He & Hidx).
  apply chooseFrontage_candidates_nil in Hnil.
  pose proof (proj1 (Forall_lookup _ _) Hnil k e He) as Hf. cbn in Hf.
  rewrite (hasStreetCandidate_index em true e opp Hidx) in Hf. congruence.
Qed.

Lemma classifyEdges_confidence parcel (es : list EdgeAnalysis) em :
  let run := classifyEdges host parcel es em in
  confidence (run_result run)
  = computeConfidence (lotType (run_result run))
      (run_frontageMatchedByPrimaryStreet run)
      (run_candidateStreetEdges run)
      (run_usedRelaxedFlankage run) (run_usedRelaxedLane run) /\
  (lotType (run_result run) = DoubleFronting ->
   run_isDoubleFronting run = true) /\
  run_edgeMatches run = em /\
  run_candidateStreetEdges run
  = snd (chooseFrontage es em
           (normalizeStreetName
              (extractPrimaryStreet (fullAddress (properties parcel))
                 (streetName (properties parcel))))).
Proof.
  cbv zeta. split; [reflexivity|split; [|split; reflexivity]].
  apply determineLotType_double.
Qed.

(** C5, as the code has it.  There is no street-adjacent edge exactly when
    no edge has a street candidate within the relaxed frontage thresholds.
    A frontage not matched by the primary street name gives low confidence
    when there is no street-adjacent edge and medium when there is one; a
    matched frontage gives medium when the relaxed flankage or the relaxed
    rear-lane fallback was used and high otherwise.  So the confidence is
    never high after one of these two fallbacks. *)
Theorem analyzeParcel_confidence_rule (parcel : ParcelFeature)
    (map : option MapboxMap) :
  let run := analyzeParcelRun host parcel map in
  let result := analyzeParcel host parcel map in
  let matched := run_frontageMatchedByPrimaryStreet run in
  let streetEdges := run_candidateStreetEdges run in
  let relaxedUsed := run_usedRelaxedFlankage run || run_usedRelaxedLane run in
  (streetEdges = [] <->
   Forall (fun e => hasStreetCandidate (run_edgeMatches run) true e = false)
          (fst (firstLoop host parcel map))) /\
  (matched = false -> streetEdges = [] -> confidence result = low) /\
  (matched = false -> streetEdges <> [] -> confidence result = medium) /\
  (matched = true -> relaxedUsed = true -> confidence result = medium) /\
  (matched = true -> relaxedUsed = false -> confidence result = high) /\
  (relaxedUsed = true -> confidence result <> high).
Proof.
  cbv zeta. unfold analyzeParcel. rewrite analyzeParcelRun_firstLoop.
  destruct (classifyEdges_confidence parcel (fst (firstLoop host parcel map))
              (snd (firstLoop host parcel map))) as (Hc & Hd & Hem & Hcse).
  pose proof (classifyEdges_double_has_candidates parcel
                (fst (firstLoop host parcel map))
                (snd (firstLoop host parcel map))) as Hdf.
  pose proof (chooseFrontage_candidates_nil (fst (firstLoop host parcel map))
                (snd (firstLoop host parcel map))
                (normalizeStreetName
                   (extractPrimaryStreet (fullAddress (properties parcel))
                      (streetName (properties parcel))))) as Hnil.
  cbv zeta in Hdf. rewrite <- Hcse, <- Hem in Hnil.
  set (run := classifyEdges host parcel _ _) in *. clearbody run.
  split; [exact Hnil|].
  rewrite Hc. unfold computeConfidence.
  destruct (run_frontageMatchedByPrimaryStreet run),
    (run_usedRelaxedFlankage run), (run_usedRelaxedLane run);
    cbn [negb orb andb]; rewrite ?andb_false_r, ?andb_true_r;
    repeat split; try congruence; try discriminate.
  all: destruct (run_candidateStreetEdges run) as [|x l] eqn:E; cbn;
    try congruence; try discriminate.
  all: destruct (bool_decide (lotType (run_result run) = DoubleFronting))
    eqn:B; try congruence; try discriminate.
  all: apply bool_decide_eq_true in B; apply Hd in B; apply Hdf in B;
    congruence.
Qed.

End ConfidenceFacts.

(** ** A parcel without road candidates *)

Section NoCandidates.
Context (host : Host).

Lemma noMatches_matchesOf em e : noMatches em -> matchesOf em e = [].
Proof. intros H. apply H. Qed.

Lemma noMatches_empty : noMatches ∅.
Proof. intros k. now rewrite lookup_empty. Qed.

Lemma noMatches_insert em k : noMatches em -> noMatches (<[k:=[]]> em).
Proof.
  intros H k'. destruct (decide (k = k')) as [->|Hne].
  - now rewrite lookup_insert_eq.
  - rewrite lookup_insert_ne by exact Hne. apply H.
Qed.

Lemma defaultPass_no_candidates m (es : list EdgeAnalysis) em :
  noMatches em ->
  Forall (fun e => queryRoadCandidatesForEdge host m e = []) es ->
  fst (defaultPass host m es em) = List.map (setDebug noCandidateNearEdge) es /\
  noMatches (snd (defaultPass host m es em)).
Proof.
  intros Hem Hes. revert em Hem.
  induction Hes as [|e es He Hes IH]; intros em Hem; cbn; [now split|].
  assert (Hf : findEvaluatedRoadCandidatesForEdge host m e = []).
  { unfold findEvaluatedRoadCandidatesForEdge. now rewrite He. }
  rewrite Hf.
  destruct (IH (<[index e:=[]]> em) (noMatches_insert em (index e) Hem))
    as [H1 H2].
  destruct (defaultPass host m es _) as [rest em']. cbn in *.
  split; [now rewrite H1|exact H2].
Qed.

Lemma selectNearest_no_matches (es : list EdgeAnalysis) em opts :
  noMatches em -> selectNearestEdgeByStreetCandidate es em opts = None.
Proof.
  intros Hem. unfold selectNearestEdgeByStreetCandidate.
  assert (H : foldl (selectStep em opts) None es = None); [|now rewrite H].
  induction es as [|e es IH]; cbn; [reflexivity|].
  unfold selectStep at 2. rewrite (noMatches_matchesOf em e Hem).
  unfold firstAdjacentStreetByName, firstAdjacentStreet. cbn.
  destruct (negb (isEmpty (normalizedStreet opts)));
    [destruct (isEmpty (normalizedStreet opts))|]; exact IH.
Qed.

Lemma hasStreetCandidate_no_matches em relaxed e :
  noMatches em -> hasStreetCandidate em relaxed e = false.
Proof.
  intros Hem. unfold hasStreetCandidate.
  rewrite (noMatches_matchesOf em e Hem). apply bool_decide_eq_false.
  cbn. now intros [x Hx].
Qed.

Lemma filter_all_false {A : Type} (p : A -> bool) (l : list A) :
  (forall x, p x = false) -> List.filter p l = [].
Proof.
  intros H. induction l as [|x l IH]; cbn; [reflexivity|]. now rewrite H.
Qed.

Lemma chooseFrontage_no_matches (es : list EdgeAnalysis) em nps :
  noMatches em -> chooseFrontage es em nps = (longestEdge es, false, []).
Proof.
  intros Hem. unfold chooseFrontage.
  rewrite !(selectNearest_no_matches _ em _ Hem).
  rewrite !filter_all_false
    by (intros e; now apply hasStreetCandidate_no_matches).
  destruct (negb (isEmpty nps)); reflexivity.
Qed.

Lemma stampFrontage_no_matches em nps e :
  noMatches em -> stampFrontage host em nps e = setType Frontage e.
Proof.
  intros Hem. unfold stampFrontage. rewrite (noMatches_matchesOf em e Hem).
  unfold firstAdjacentStreetByName. now destruct (isEmpty nps).
Qed.

Lemma stampRear_no_matches em e :
  noMatches em -> stampRear host em e = (setType Rear e, false).
Proof.
  intros Hem. unfold stampRear. now rewrite (noMatches_matchesOf em e Hem).
Qed.

Lemma doubleFrontingCandidate_no_matches em fe oe s :
  noMatches em -> doubleFrontingCandidate em fe oe s = None.
Proof.
  intros Hem. unfold doubleFrontingCandidate.
  destruct fe; [|reflexivity]. destruct oe as [opp|]; [|reflexivity].
  pose proof (Hem (index opp)) as H.
  destruct (em !! index opp) as [ms|]; [|reflexivity].
  cbn in H. subst ms. reflexivity.
Qed.

Lemma applyFlankage_no_matches em fi oi base relaxed (es : list EdgeAnalysis) :
  noMatches em -> applyFlankage host em fi oi base relaxed es = (es, 0%nat).
Proof.
  intros Hem. induction es as [|e es IH]; cbn; [reflexivity|].
  rewrite IH, (noMatches_matchesOf em e Hem). cbn.
  now destruct (indexIs fi e || indexIs oi e).
Qed.

Lemma alter_ext_all {A : Type} (f g : A -> A) i (l : list A) :
  (forall x, f x = g x) -> alter f i l = alter g i l.
Proof.
  intros H. revert i. induction l as [|x l IH]; intros [|i]; cbn;
    try reflexivity.
  - now rewrite H.
  - f_equal. apply IH.
Qed.

Lemma alter_out_of_range {A : Type} (f : A -> A) i (l : list A) :
  l !! i = None -> alter f i l = l.
Proof.
  revert i. induction l as [|x l IH]; intros [|i] H; cbn; try reflexivity.
  - discriminate.
  - f_equal. now apply IH.
Qed.

(** Without candidates the classifier stamps the longest edge as frontage
    and the edge opposite to it as rear, and nothing else. *)
Lemma classifyEdges_no_matches parcel (es : list EdgeAnalysis) em :
  noMatches em ->
  let run := classifyEdges host parcel es em in
  let fi := index <$> longestEdge es in
  let oi :=
    fi ≫= findOppositeEdgeIndex host (stampFrontageRear fi None es) in
  run_frontageIndex run = fi /\ run_oppositeIndex run = oi /\
  edges (run_result run) = stampFrontageRear fi oi es /\
  run_frontageMatchedByPrimaryStreet run = false /\
  run_candidateStreetEdges run = [] /\
  run_isDoubleFronting run = false /\
  run_usedRelaxedFlankage run = false /\
  run_usedRelaxedLane run = false /\
  run_flankageCount run = 0%nat.
Proof.
  intros Hem. cbv zeta. unfold classifyEdges. cbv zeta.
  cbn [run_frontageIndex run_oppositeIndex run_result edges
       run_frontageMatchedByPrimaryStreet run_candidateStreetEdges
       run_isDoubleFronting run_usedRelaxedFlankage run_usedRelaxedLane
       run_flankageCount].
  rewrite !(chooseFrontage_no_matches es em _ Hem). cbn [fst snd].
  set (fi := index <$> longestEdge es).
  assert (E2 : stampFrontageAt host em
                 (normalizeStreetName
                    (extractPrimaryStreet (fullAddress (properties parcel))
                       (streetName (properties parcel)))) fi es
               = stampFrontageRear fi None es).
  { unfold stampFrontageAt, stampFrontageRear. destruct fi as [i|];
      [|reflexivity].
    apply alter_ext_all. intros e. now apply stampFrontage_no_matches. }
  rewrite !E2.
  set (es2 := stampFrontageRear fi None es).
  set (oi := fi ≫= findOppositeEdgeIndex host es2).
  rewrite !(doubleFrontingCandidate_no_matches em _ _ _ Hem).
  cbn [stampDoubleFronting].
  unfold flankagePass. rewrite !(applyFlankage_no_matches em _ _ _ _ _ Hem).
  cbn [fst snd Nat.eqb Nat.ltb Nat.leb].
  assert (B : bool_decide (is_Some (@None EvaluatedRoadCandidate)) = false).
  { apply bool_decide_eq_false. now intros [x Hx]. }
  rewrite !B.
  assert (E5 : rearPass host em oi false es2
               = (stampFrontageRear fi oi es, false)).
  { unfold rearPass, stampFrontageRear. fold (stampFrontageRear fi None es).
    fold es2. destruct oi as [k|]; [|reflexivity].
    destruct (es2 !! k) as [oe|] eqn:Ek.
    - rewrite (stampRear_no_matches em oe Hem). cbn [snd]. f_equal.
      apply alter_ext_all. intros e. now rewrite (stampRear_no_matches em e Hem).
    - now rewrite alter_out_of_range. }
  rewrite !E5. cbn [fst snd]. repeat split.
Qed.

End NoCandidates.

Section NoCandidatesAnalysis.
Context (host : Host).

Lemma longestEdge_lookup (es : list EdgeAnalysis) e :
  longestEdge es = Some e -> exists i, es !! i = Some e.
Proof.
  destruct es as [|x es]; [discriminate|]. cbn. intros [= <-].
  assert (G : forall (l : list EdgeAnalysis) b,
            foldl (fun best current =>
                     if Qltb (lengthMeters best) (lengthMeters current)
                     then current else best) b l = b \/
            exists i, l !! i = Some
              (foldl (fun best current =>
                        if Qltb (lengthMeters best) (lengthMeters current)
                        then current else best) b l)).
  { induction l as [|y l IH]; intros b; cbn; [now left|].
    destruct (IH (if Qltb (lengthMeters b) (lengthMeters y) then y else b))
      as [H|[i H]].
    - rewrite H. destruct (Qltb _ _); [right; now exists 0%nat|now left].
    - right. now exists (S i). }
  destruct (G es x) as [H|[i H]].
  - rewrite H. now exists 0%nat.
  - now exists (S i).
Qed.

Lemma longestEdge_map (f : EdgeAnalysis -> EdgeAnalysis)
    (es : list EdgeAnalysis) :
  (forall e, lengthMeters (f e) = lengthMeters e) ->
  longestEdge (List.map f es) = f <$> longestEdge es.
Proof.
  intros Hf. destruct es as [|x es]; [reflexivity|]. cbn. f_equal.
  revert x. induction es as [|y es IH]; intros x; cbn; [reflexivity|].
  rewrite !Hf.
  destruct (Qltb (lengthMeters x) (lengthMeters y)); apply IH.
Qed.

Lemma chooseBestOpposite_In cands maxDeg k :
  chooseBestOppositeWithinOrientation cands maxDeg = Some k ->
  exists c, In c cands /\ opposite_index c = k.
Proof.
  unfold chooseBestOppositeWithinOrientation.
  set (oriented := List.filter _ cands).
  destruct (sortWith compareOpposite oriented) as [|c l] eqn:E;
    [discriminate|].
  cbn. intros [= <-]. exists c. split; [|reflexivity].
  assert (Hc : In c (sortWith compareOpposite oriented))
    by (rewrite E; now left).
  eapply Permutation_in in Hc; [|apply sortWith_Permutation].
  subst oriented. now apply filter_In in Hc.
Qed.

Lemma keepFarthest_index frontage fi (es : list EdgeAnalysis) st k :
  (forall j, fst st = Some j -> j <> fi) ->
  fst (foldl (keepFarthest host frontage fi) st es) = Some k -> k <> fi.
Proof.
  revert st. induction es as [|e es IH]; intros st Hst; cbn; [apply Hst|].
  apply IH. unfold keepFarthest.
  destruct (Nat.eqb_spec (index e) fi) as [Heq|Hne]; [exact Hst|].
  destruct (Qltb _ _); [|exact Hst]. cbn. now intros j [= <-].
Qed.

(** The opposite edge is never the frontage edge itself. *)
Lemma findOppositeEdgeIndex_other (es : list EdgeAnalysis) fi k :
  findOppositeEdgeIndex host es fi = Some k -> k <> fi.
Proof.
  unfold findOppositeEdgeIndex.
  destruct (es !! fi) as [frontage|]; [|discriminate].
  set (cands := List.map _ _).
  assert (Hc : forall c, In c cands -> opposite_index c <> fi).
  { subst cands. intros c Hc. apply in_map_iff in Hc.
    destruct Hc as (e & <- & He). apply filter_In in He.
    destruct He as [_ He]. cbn. apply negb_true_iff in He.
    now apply Nat.eqb_neq in He. }
  destruct (chooseBestOppositeWithinOrientation cands
              OPPOSITE_EDGE_STRICT_ORIENTATION_DEG) as [s|] eqn:Es.
  - intros [= <-]. apply chooseBestOpposite_In in Es.
    destruct Es as (c & Hin & <-). now apply Hc.
  - destruct (chooseBestOppositeWithinOrientation cands
                OPPOSITE_EDGE_RELAXED_ORIENTATION_DEG) as [r|] eqn:Er.
    + intros [= <-]. apply chooseBestOpposite_In in Er.
      destruct Er as (c & Hin & <-). now apply Hc.
    + apply keepFarthest_index. discriminate.
Qed.

Lemma stampFrontageRear_types (fi oi : option nat) (es : list EdgeAnalysis) :
  Forall (fun e => type e = Side) es ->
  forall i e, stampFrontageRear fi oi es !! i = Some e ->
    type e = if decide (oi = Some i) then Rear
             else if decide (fi = Some i) then Frontage else Side.
Proof.
  intros Hes i e. unfold stampFrontageRear.
  set (es2 := match fi with Some j => _ | None => es end).
  assert (H2 : forall x, es2 !! i = Some x ->
            type x = if decide (fi = Some i) then Frontage else Side).
  { subst es2. intros x. destruct fi as [j|].
    - destruct (decide (Some j = Some i)) as [[= ->]|Hne].
      + rewrite list_lookup_alter_eq. destruct (es !! i); [|discriminate].
        now intros [= <-].
      + rewrite list_lookup_alter_ne by congruence.
        intros Hx. exact (proj1 (Forall_lookup _ _) Hes i x Hx).
    - destruct (decide (None = Some i)); [discriminate|].
      intros Hx. exact (proj1 (Forall_lookup _ _) Hes i x Hx). }
  destruct oi as [k|].
  - destruct (decide (Some k = Some i)) as [[= ->]|Hne].
    + rewrite list_lookup_alter_eq. destruct (es2 !! i); [|discriminate].
      now intros [= <-].
    + rewrite list_lookup_alter_ne by congruence. apply H2.
  - destruct (decide (None = Some i)); [discriminate|]. apply H2.
Qed.

Lemma stampFrontageRear_not_adjacent (fi oi : option nat)
    (es : list EdgeAnalysis) :
  Forall (fun e => isRoadAdjacent e = false) es ->
  Forall (fun e => isRoadAdjacent e = false) (stampFrontageRear fi oi es).
Proof.
  intros Hes. unfold stampFrontageRear.
  assert (H2 : Forall (fun e => isRoadAdjacent e = false)
            match fi with
            | Some i => alter (setType Frontage) i es
            | None => es
            end).
  { destruct fi; [|exact Hes]. apply Forall_alter; [exact Hes|]. now intros. }
  destruct oi; [|exact H2]. apply Forall_alter; [exact H2|]. now intros.
Qed.

End NoCandidatesAnalysis.

(** ** Determinism *)

Section Determinism.
Context (host : Host).

Lemma ringEdgesFrom_endpoints k (ring : list Position) :
  Forall (fun e => In (start e) ring /\ In (end_ e) ring)
         (ringEdgesFrom host k ring).
Proof.
  revert k. induction ring as [|a [|b rest] IH]; intros k.
  - constructor.
  - constructor.
  - destruct (ringEdgesFrom_cons host k a b rest)
      as [e [(_ & Hs & He & _) ->]].
    constructor.
    + rewrite Hs, He. split; [now left|right; now left].
    + eapply Forall_impl; [apply IH|].
      intros x [H1 H2]. split; now right.
Qed.

Lemma toRingEdges_endpoints (ring : list Position) :
  Forall (fun e => In (start e) ring /\ In (end_ e) ring)
         (toRingEdges host ring).
Proof.
  unfold toRingEdges. destruct (_ <? 2)%nat; [constructor|].
  apply ringEdgesFrom_endpoints.
Qed.

Lemma queryGeometry_agree m1 m2 e :
  getZoom m1 = getZoom m2 ->
  project m1 (start e) = project m2 (start e) ->
  project m1 (end_ e) = project m2 (end_ e) ->
  queryGeometry host m1 e = queryGeometry host m2 e.
Proof.
  intros Hz Hs He. unfold queryGeometry, edgeQueryPaddingPx.
  now rewrite Hz, Hs, He.
Qed.

Lemma findEvaluated_agree m1 m2 e :
  queryGeometry host m1 e = queryGeometry host m2 e ->
  queryRenderedFeatures m1 (queryGeometry host m1 e)
  = queryRenderedFeatures m2 (queryGeometry host m1 e) ->
  findEvaluatedRoadCandidatesForEdge host m1 e
  = findEvaluatedRoadCandidatesForEdge host m2 e.
Proof.
  intros Hg Hq.
  unfold findEvaluatedRoadCandidatesForEdge, queryRoadCandidatesForEdge.
  now rewrite <- Hg, Hq.
Qed.

Lemma defaultPass_agree m1 m2 (es : list EdgeAnalysis) em :
  Forall (fun e => findEvaluatedRoadCandidatesForEdge host m1 e
                   = findEvaluatedRoadCandidatesForEdge host m2 e) es ->
  defaultPass host m1 es em = defaultPass host m2 es em.
Proof.
  intros H. revert em. induction H as [|e es He Hes IH]; intros em; cbn;
    [reflexivity|].
  now rewrite He, IH.
Qed.

(** C9.  Two runs of the analysis on the same parcel return the same
    record, field by field, when the provider answers the same in both:
    the same zoom, the same projection of the ring's vertices, and the same
    features for every window the analysis queries. *)
Theorem analyzeParcel_deterministic (parcel : ParcelFeature)
    (m1 m2 : MapboxMap)
    (Hzoom : getZoom m1 = getZoom m2)
    (Hproject : forall p, In p (default [] (head (coordinates parcel))) ->
                          project m1 p = project m2 p)
    (Hquery : Forall (fun e =>
                queryRenderedFeatures m1 (queryGeometry host m1 e)
                = queryRenderedFeatures m2 (queryGeometry host m1 e))
              (toRingEdges host (default [] (head (coordinates parcel))))) :
  analyzeParcel host parcel (Some m1) = analyzeParcel host parcel (Some m2) /\
  analyzeParcelRun host parcel (Some m1)
  = analyzeParcelRun host parcel (Some m2).
Proof.
  assert (Hfirst : firstLoop host parcel (Some m1)
                   = firstLoop host parcel (Some m2)).
  { unfold firstLoop. apply defaultPass_agree.
    pose proof (toRingEdges_endpoints
                  (default [] (head (coordinates parcel)))) as Hends.
    revert Hquery Hends. generalize (toRingEdges host
                            (default [] (head (coordinates parcel)))).
    intros es Hq Hends. induction Hq as [|e es He Hes IH]; [constructor|].
    inversion Hends as [|? ? [Hs Hen] Hrest]; subst.
    constructor; [|now apply IH].
    apply findEvaluated_agree; [|exact He].
    apply queryGeometry_agree; [exact Hzoom|now apply Hproject..]. }
  unfold analyzeParcel. rewrite !analyzeParcelRun_firstLoop, Hfirst.
  now split.
Qed.

End Determinism.

(** Two maps that differ only far from the lot give the same analysis. *)
Lemma analyzeParcel_deterministic_witness :
  let features :=
    [Scenario.mainStreet 10; Scenario.rearLane; Scenario.oakAvenue 22] in
  analyzeParcel Scenario.flatHost Scenario.lot
    (Some (Scenario.mapOf features))
  = analyzeParcel Scenario.flatHost Scenario.lot
      (Some (Scenario.mapOfNear features)).
Proof.
  cbv zeta.
  apply (analyzeParcel_deterministic Scenario.flatHost Scenario.lot).
  - reflexivity.
  - reflexivity.
  - apply Forall_forall. intros e He. apply list_elem_of_In in He.
    assert (Hnear : forallb (fun e =>
              Qltb (fst (fst (queryGeometry Scenario.flatHost
                (Scenario.mapOf
                   [Scenario.mainStreet 10; Scenario.rearLane;
                    Scenario.oakAvenue 22]) e))) 1000000)
              (toRingEdges Scenario.flatHost
                 (default [] (head (coordinates Scenario.lot)))) = true)
      by (vm_compute; reflexivity).
    rewrite forallb_forall in Hnear. specialize (Hnear e He).
    unfold Scenario.mapOfNear at 1. cbn [queryRenderedFeatures].
    rewrite Hnear. reflexivity.
Defined.

(** ** The theorems at the sample lot *)

(** The ring of the lot has five vertices and four edges. *)
Lemma toRingEdges_fresh_witness :
  (3 <= length (default [] (head (coordinates Scenario.lot))))%nat /\
  length (toRingEdges Scenario.flatHost
            (default [] (head (coordinates Scenario.lot)))) = 4%nat.
Proof.
  split; [vm_compute; lia|].
  apply (proj1 (toRingEdges_fresh Scenario.flatHost
                  (default [] (head (coordinates Scenario.lot)))
                  ltac:(vm_compute; lia))).
Defined.


(** The north side of the lot, a rear lane, is its opposite edge. *)
Lemma analyzeParcel_rear_is_opposite_witness :
  let map := Some (Scenario.mapOf
                     [Scenario.mainStreet 10; Scenario.rearLane;
                      Scenario.oakAvenue 22]) in
  run_oppositeIndex (analyzeParcelRun Scenario.flatHost Scenario.lot map)
  = Some 2%nat /\
  run_isDoubleFronting (analyzeParcelRun Scenario.flatHost Scenario.lot map)
  = false.
Proof.
  cbv zeta.
  eapply (proj1 (analyzeParcel_rear_is_opposite Scenario.flatHost
                   Scenario.lot _) 2%nat).
  - vm_compute. reflexivity.
  - right. reflexivity.
Defined.

(** With Oak Avenue found by the relaxed flankage pass the confidence is
    medium. *)
Lemma analyzeParcel_confidence_rule_witness :
  let map := Some (Scenario.mapOf
                     [Scenario.mainStreet 10; Scenario.rearLane;
                      Scenario.oakAvenue 22]) in
  confidence (analyzeParcel Scenario.flatHost Scenario.lot map) = medium.
Proof.
  cbv zeta.
  apply (proj1 (proj2 (proj2 (proj2 (analyzeParcel_confidence_rule
           Scenario.flatHost Scenario.lot _))))); vm_compute; reflexivity.
Defined.

(** Main Street at 25 m is beyond the strict 20 m: no edge is selected by
    its name under the strict thresholds, the south side is under the
    relaxed ones, the frontage counts as matched by the primary street, and
    the confidence is high. *)
Lemma relaxed_frontage_keeps_high_confidence :
  let map := Some (Scenario.mapOf [Scenario.mainStreet 25]) in
  let first := firstLoop Scenario.flatHost Scenario.lot map in
  let byName relaxed :=
    selectNearestEdgeByStreetCandidate (fst first) (snd first)
      {| normalizedStreet := "main street"; allowRelaxed := relaxed;
         relaxMode := relaxFrontage |} in
  let run := analyzeParcelRun Scenario.flatHost Scenario.lot map in
  normalizeStreetName
    (primaryStreet (analyzeParcel Scenario.flatHost Scenario.lot map))
  = "main street"%string /\
  byName false = None /\
  index <$> byName true = Some 0%nat /\
  run_frontageIndex run = Some 0%nat /\
  run_frontageMatchedByPrimaryStreet run = true /\
  confidence (analyzeParcel Scenario.flatHost Scenario.lot map) = high.
Proof. vm_compute. repeat split. Qed.

(** * Further properties *)

(** ** The analysis, edge by edge *)

Section Pointwise.
Context (host : Host).

Lemma applyFlankage_map em fi oi base relaxed (es : list EdgeAnalysis) :
  applyFlankage host em fi oi base relaxed es
  = (List.map (flankOne host em fi oi base relaxed) es,
     length (List.filter (flankHit em fi oi base relaxed) es)).
Proof.
  induction es as [|e es IH]; [reflexivity|].
  cbn [applyFlankage List.map List.filter]. rewrite IH.
  destruct (indexIs fi e || indexIs oi e) eqn:E1.
  - unfold flankOne, flankHit. rewrite E1. reflexivity.
  - destruct (firstDifferentStreetCandidate (matchesOf em e) base relaxed)
      as [c|] eqn:E2; unfold flankOne, flankHit; rewrite E1, E2;
      cbn [negb andb].
    + rewrite bool_decide_eq_true_2 by (now exists c). reflexivity.
    + rewrite bool_decide_eq_false_2 by (now intros [x Hx]). reflexivity.
Qed.

Lemma flankOne_no_hit em fi oi base relaxed e :
  flankHit em fi oi base relaxed e = false ->
  flankOne host em fi oi base relaxed e = e.
Proof.
  unfold flankHit, flankOne.
  destruct (indexIs fi e || indexIs oi e); [reflexivity|].
  destruct (firstDifferentStreetCandidate _ _ _) as [c|]; [|reflexivity].
  cbn [negb andb]. rewrite bool_decide_eq_true_2 by (now exists c).
  discriminate.
Qed.

Lemma map_flankOne_no_hit em fi oi base relaxed (es : list EdgeAnalysis) :
  length (List.filter (flankHit em fi oi base relaxed) es) = 0%nat ->
  List.map (flankOne host em fi oi base relaxed) es = es.
Proof.
  induction es as [|e es IH]; cbn; [reflexivity|].
  destruct (flankHit em fi oi base relaxed e) eqn:E; [discriminate|].
  intros H. now rewrite (flankOne_no_hit _ _ _ _ _ _ E), IH.
Qed.

(** The flankage pass: one loop over the edges, strict if it stamps an edge
    and relaxed if not. *)
Lemma flankagePass_map em fi oi base (es : list EdgeAnalysis) :
  let relaxed :=
    (length (List.filter (flankHit em fi oi base false) es) =? 0)%nat in
  flankagePass host em fi oi base es
  = (List.map (flankOne host em fi oi base relaxed) es,
     length (List.filter (flankHit em fi oi base relaxed) es),
     relaxed &&
     (0 <? length (List.filter (flankHit em fi oi base true) es))%nat).
Proof.
  cbv zeta. unfold flankagePass. rewrite !applyFlankage_map. cbn [fst snd].
  destruct (Nat.eqb_spec
              (length (List.filter (flankHit em fi oi base false) es)) 0)
    as [Hz|Hnz]; [|reflexivity].
  rewrite !(map_flankOne_no_hit em fi oi base false es Hz). cbn [andb].
  destruct (Nat.ltb_spec 0
              (length (List.filter (flankHit em fi oi base true) es)))
    as [Hp|Hn]; [reflexivity|].
  rewrite Hz. f_equal. f_equal. lia.
Qed.

Lemma rearPass_lookup em oi isDF (es : list EdgeAnalysis) i :
  fst (rearPass host em oi isDF es) !! i
  = (fun e => if isDF then e
              else if decide (oi = Some i) then fst (stampRear host em e)
                   else e) <$> es !! i.
Proof.
  unfold rearPass.
  destruct oi as [k|]; [destruct isDF; [|destruct (es !! k) as [oe|] eqn:Ek]|];
    cbn [fst].
  - now destruct (es !! i).
  - destruct (decide (Some k = Some i)) as [[= ->]|Hne].
    + now rewrite list_lookup_alter_eq.
    + rewrite list_lookup_alter_ne by congruence. now destruct (es !! i).
  - destruct (decide (Some k = Some i)) as [[= ->]|Hne].
    + now rewrite Ek.
    + now destruct (es !! i).
  - destruct isDF; now destruct (es !! i).
Qed.

Lemma stampFrontageAt_lookup em nps fi (es : list EdgeAnalysis) i :
  stampFrontageAt host em nps fi es !! i
  = (fun e => if decide (fi = Some i) then stampFrontage host em nps e
              else e) <$> es !! i.
Proof.
  unfold stampFrontageAt. destruct fi as [k|].
  - destruct (decide (Some k = Some i)) as [[= ->]|Hne].
    + now rewrite list_lookup_alter_eq.
    + rewrite list_lookup_alter_ne by congruence. now destruct (es !! i).
  - now destruct (es !! i).
Qed.

Lemma stampDoubleFronting_lookup df oi (es : list EdgeAnalysis) i :
  stampDoubleFronting host df oi es !! i
  = (fun e => match df with
              | Some c => if decide (oi = Some i)
                          then stampEdge host Frontage c street e else e
              | None => e
              end) <$> es !! i.
Proof.
  unfold stampDoubleFronting. destruct df as [c|]; [destruct oi as [k|]|].
  - destruct (decide (Some k = Some i)) as [[= ->]|Hne].
    + now rewrite list_lookup_alter_eq.
    + rewrite list_lookup_alter_ne by congruence. now destruct (es !! i).
  - now destruct (es !! i).
  - now destruct (es !! i).
Qed.

(** The locals of a run are the stages. *)
Lemma classifyEdges_stages parcel (es : list EdgeAnalysis) em :
  let run := classifyEdges host parcel es em in
  run_frontageIndex run = stageFrontageIndex parcel es em /\
  run_oppositeIndex run = stageOppositeIndex host parcel es em /\
  run_isDoubleFronting run
  = bool_decide (is_Some (stageDoubleFronting host parcel es em)) /\
  run_frontageMatchedByPrimaryStreet run
  = snd (fst (chooseFrontage es em (stagePrimaryStreet parcel))) /\
  edges (run_result run)
  = fst (rearPass host em (stageOppositeIndex host parcel es em)
           (bool_decide (is_Some (stageDoubleFronting host parcel es em)))
           (fst (fst (flankagePass host em (stageFrontageIndex parcel es em)
                        (stageOppositeIndex host parcel es em)
                        (stageBaseStreet host parcel es em)
                        (stageDoubleEdges host parcel es em))))) /\
  run_flankageCount run
  = snd (fst (flankagePass host em (stageFrontageIndex parcel es em)
                (stageOppositeIndex host parcel es em)
                (stageBaseStreet host parcel es em)
                (stageDoubleEdges host parcel es em))) /\
  run_usedRelaxedFlankage run
  = snd (flankagePass host em (stageFrontageIndex parcel es em)
           (stageOppositeIndex host parcel es em)
           (stageBaseStreet host parcel es em)
           (stageDoubleEdges host parcel es em)).
Proof. cbv zeta. repeat split. Qed.

(** Every edge of the result is the classified edge of its place. *)
Lemma classifyEdges_lookup parcel (es : list EdgeAnalysis) em i :
  edges (run_result (classifyEdges host parcel es em)) !! i
  = classifiedEdge host parcel es em i <$> es !! i.
Proof.
  destruct (classifyEdges_stages parcel es em) as (_ & _ & _ & _ & -> & _).
  rewrite rearPass_lookup, flankagePass_map. cbn [fst snd].
  fold (stageRelaxedFlankage host parcel es em). unfold classifiedEdge.
  generalize (stageRelaxedFlankage host parcel es em). intros relaxed.
  rewrite list_lookup_fmap. unfold stageDoubleEdges.
  rewrite stampDoubleFronting_lookup.
  rewrite (stampFrontageAt_lookup em (stagePrimaryStreet parcel)
             (stageFrontageIndex parcel es em) es i
           : stageFrontageEdges host parcel es em !! i = _).
  destruct (es !! i) as [e|]; [|reflexivity]. cbn [fmap option_fmap option_map].
  f_equal.
  destruct (stageDoubleFronting host parcel es em) as [c|] eqn:Edf.
  - rewrite bool_decide_eq_true_2 by (now exists c). reflexivity.
  - rewrite bool_decide_eq_false_2 by (now intros [x Hx]). reflexivity.
Qed.

End Pointwise.

(** ** Frontage selection and the opposite edge *)

Section Selection.
Context (host : Host).

Lemma selectStep_cases em opts best e :
  let next := selectStep em opts best e in
  (streetCandidateFor em opts e = None /\ next = best) \/
  (exists c, streetCandidateFor em opts e = Some c /\
             (next = best /\ best <> None \/ next = Some (e, c))).
Proof.
  cbv zeta. unfold selectStep. fold (streetCandidateFor em opts e).
  destruct (streetCandidateFor em opts e) as [c|]; [|now left].
  right. exists c. split; [reflexivity|].
  destruct best as [[be bc]|]; [|now right].
  repeat match goal with
         | |- context [if ?b then _ else _] => destruct b
         end; try (now right); left; split; congruence.
Qed.

Lemma foldl_selectStep em opts (es : list EdgeAnalysis) best :
  match foldl (selectStep em opts) best es with
  | Some (e, c) =>
      best = Some (e, c) \/
      (In e es /\ streetCandidateFor em opts e = Some c)
  | None =>
      best = None /\
      Forall (fun e => streetCandidateFor em opts e = None) es
  end.
Proof.
  revert best. induction es as [|x es IH]; intros best; cbn [foldl].
  - destruct best as [[e c]|]; [now left|now split].
  - specialize (IH (selectStep em opts best x)).
    destruct (selectStep_cases em opts best x)
      as [[Hn Hb]|(c & Hc & [[Hb Hne]|Hb])].
    + rewrite Hb in *.
      destruct (foldl (selectStep em opts) best es) as [[e c]|].
      * destruct IH as [IH|[IH1 IH2]]; [now left|right; split; [now right|]].
        exact IH2.
      * destruct IH as [IH1 IH2]. split; [exact IH1|now constructor].
    + rewrite Hb in *.
      destruct (foldl (selectStep em opts) best es) as [[e c']|].
      * destruct IH as [IH|[IH1 IH2]]; [now left|right; split; [now right|]].
        exact IH2.
      * destruct IH as [IH1 IH2]. congruence.
    + rewrite Hb in *.
      destruct (foldl (selectStep em opts) (Some (x, c)) es) as [[e c']|].
      * right. destruct IH as [[= <- <-]|[IH1 IH2]].
        -- split; [now left|exact Hc].
        -- split; [now right|exact IH2].
      * destruct IH as [IH1 _]. discriminate.
Qed.

(** The selection returns an edge of the list that has the candidate asked
    for, and returns none exactly when no edge has one. *)
Lemma selectNearest_spec (es : list EdgeAnalysis) em opts :
  match selectNearestEdgeByStreetCandidate es em opts with
  | Some e => In e es /\ is_Some (streetCandidateFor em opts e)
  | None => Forall (fun e => streetCandidateFor em opts e = None) es
  end.
Proof.
  unfold selectNearestEdgeByStreetCandidate.
  pose proof (foldl_selectStep em opts es None) as H.
  destruct (foldl (selectStep em opts) None es) as [[e c]|]; cbn.
  - destruct H as [H|[H1 H2]]; [discriminate|]. split; [exact H1|].
    now exists c.
  - now destruct H.
Qed.

Lemma orTry_Some {A : Type} (a b : option A) x :
  orTry a b = Some x -> a = Some x \/ b = Some x.
Proof. destruct a; cbn; auto. Qed.

Lemma chooseFrontage_In (es : list EdgeAnalysis) em nps e :
  fst (fst (chooseFrontage es em nps)) = Some e -> In e es.
Proof.
  unfold chooseFrontage. cbn [fst].
  set (cse := if (0 <? _)%nat then _ else _).
  assert (Hcse : forall x, In x cse -> In x es).
  { subst cse. intros x. destruct (0 <? _)%nat; intros Hx;
      apply filter_In in Hx; tauto. }
  assert (Hsel : forall l opts x,
            selectNearestEdgeByStreetCandidate l em opts = Some x -> In x l).
  { intros l opts x Hx. pose proof (selectNearest_spec l em opts) as H.
    rewrite Hx in H. tauto. }
  intros H. apply orTry_Some in H. destruct H as [H|H].
  - destruct (negb (isEmpty nps)); [|discriminate].
    apply orTry_Some in H. destruct H as [H|H]; eapply Hsel, H.
  - apply orTry_Some in H. destruct H as [H|H]; [eapply Hcse, Hsel, H|].
    apply orTry_Some in H. destruct H as [H|H]; [eapply Hcse, Hsel, H|].
    destruct (longestEdge_lookup es e H) as [i Hi].
    eapply list_elem_of_In, list_elem_of_lookup_2, Hi.
Qed.

Lemma chooseFrontage_nonempty (es : list EdgeAnalysis) em nps :
  es <> [] -> is_Some (fst (fst (chooseFrontage es em nps))).
Proof.
  intros Hne. unfold chooseFrontage. cbn [fst]. unfold orTry.
  repeat match goal with
         | |- context [match ?o with Some _ => _ | None => _ end] =>
             destruct o
         | |- context [if ?b then _ else _] => destruct b
         end; try (now eexists).
  all: destruct es; [congruence|now eexists].
Qed.

End Selection.

Section OppositeEdge.
Context (host : Host).

Lemma keepFarthest_In frontage fi (es : list EdgeAnalysis) st k :
  fst (foldl (keepFarthest host frontage fi) st es) = Some k ->
  fst st = Some k \/ exists e, In e es /\ index e = k /\ index e <> fi.
Proof.
  revert st. induction es as [|e es IH]; intros st; cbn [foldl]; [now left|].
  intros H. apply IH in H. destruct H as [H|(x & Hx & Hi)].
  - unfold keepFarthest in H.
    destruct (Nat.eqb_spec (index e) fi) as [Heq|Hne]; [now left|].
    destruct (Qltb _ _); [|now left]. cbn in H. injection H as <-.
    right. exists e. split; [now left|now split].
  - right. exists x. split; [now right|exact Hi].
Qed.

(** [findOppositeEdgeIndex] returns the index of an edge of the list other
    than the frontage. *)
Lemma findOppositeEdgeIndex_In (es : list EdgeAnalysis) fi k :
  findOppositeEdgeIndex host es fi = Some k ->
  k <> fi /\ exists e, In e es /\ index e = k.
Proof.
  intros H. split; [eapply findOppositeEdgeIndex_other, H|].
  revert H. unfold findOppositeEdgeIndex.
  destruct (es !! fi) as [frontage|]; [|discriminate].
  set (cands := List.map _ _).
  assert (Hc : forall c, In c cands ->
            exists e, In e es /\ index e = opposite_index c).
  { subst cands. intros c Hc. apply in_map_iff in Hc.
    destruct Hc as (e & <- & He). apply filter_In in He.
    exists e. split; [tauto|reflexivity]. }
  destruct (chooseBestOppositeWithinOrientation cands
              OPPOSITE_EDGE_STRICT_ORIENTATION_DEG) as [s|] eqn:Es.
  - intros [= <-]. apply chooseBestOpposite_In in Es.
    destruct Es as (c & Hin & <-). now apply Hc.
  - destruct (chooseBestOppositeWithinOrientation cands
                OPPOSITE_EDGE_RELAXED_ORIENTATION_DEG) as [r|] eqn:Er.
    + intros [= <-]. apply chooseBestOpposite_In in Er.
      destruct Er as (c & Hin & <-). now apply Hc.
    + intros H. apply keepFarthest_In in H.
      destruct H as [H|(e & He & Hi & _)]; [discriminate|]. now exists e.
Qed.

Lemma keepFarthest_found frontage fi (es : list EdgeAnalysis) st :
  (forall a b, (0 <= turf_distance host a b)%Q) ->
  (fst st = None -> snd st = (- (1))%Q) ->
  (exists e, In e es /\ index e <> fi) \/ is_Some (fst st) ->
  is_Some (fst (foldl (keepFarthest host frontage fi) st es)).
Proof.
  intros Hd. revert st. induction es as [|e es IH]; intros st Hst H;
    cbn [foldl].
  - destruct H as [(e & [] & _)|H]; exact H.
  - apply IH.
    + unfold keepFarthest. destruct (index e =? fi)%nat; [exact Hst|].
      destruct (Qltb _ _); [discriminate|exact Hst].
    + unfold keepFarthest.
      destruct (Nat.eqb_spec (index e) fi) as [Heq|Hne].
      * destruct H as [(x & [<-|Hx] & Hi)|H]; [congruence| |now right].
        left. now exists x.
      * right. destruct (fst st) as [j|] eqn:Ej.
        -- destruct (Qltb _ _); cbn; [now eexists|rewrite Ej; now eexists].
        -- rewrite (Hst eq_refl).
           assert (Hlt : Qltb (- (1))
                     (turf_distance host (midpoint frontage) (midpoint e))
                   = true).
           { apply Qltb_lt. specialize (Hd (midpoint frontage) (midpoint e)).
             lra. }
           rewrite Hlt. cbn. now eexists.
Qed.

(** With distances that are not negative an opposite edge is found
    whenever the list has the frontage and another edge. *)
Lemma findOppositeEdgeIndex_found (es : list EdgeAnalysis) fi :
  (forall a b, (0 <= turf_distance host a b)%Q) ->
  is_Some (es !! fi) -> (exists e, In e es /\ index e <> fi) ->
  is_Some (findOppositeEdgeIndex host es fi).
Proof.
  intros Hd [frontage Hf] Hother. unfold findOppositeEdgeIndex. rewrite Hf.
  destruct (chooseBestOppositeWithinOrientation _ _); [now eexists|].
  destruct (chooseBestOppositeWithinOrientation _ _); [now eexists|].
  apply keepFarthest_found; [exact Hd|reflexivity|now left].
Qed.

(** The frontage and opposite indices of the stages are places of the
    list, and differ. *)
Lemma stage_indices parcel (es : list EdgeAnalysis) em :
  indexed es ->
  (forall i, stageFrontageIndex parcel es em = Some i ->
     is_Some (es !! i)) /\
  (forall k, stageOppositeIndex host parcel es em = Some k ->
     is_Some (es !! k) /\ stageFrontageIndex parcel es em <> Some k) /\
  (es <> [] -> is_Some (stageFrontageIndex parcel es em)).
Proof.
  intros Hidx. split; [|split].
  - unfold stageFrontageIndex. intros i Hi.
    destruct (fst (fst (chooseFrontage es em (stagePrimaryStreet parcel))))
      as [e|] eqn:E; [|discriminate].
    cbn in Hi. injection Hi as <-. apply chooseFrontage_In in E.
    apply list_elem_of_In, list_elem_of_lookup in E. destruct E as [j Hj].
    rewrite (Hidx j e Hj). now exists e.
  - unfold stageOppositeIndex. intros k Hk.
    destruct (stageFrontageIndex parcel es em) as [i|] eqn:Ei; [|discriminate].
    cbn in Hk. apply findOppositeEdgeIndex_In in Hk.
    destruct Hk as [Hne (e & He & <-)]. split; [|congruence].
    apply list_elem_of_In, list_elem_of_lookup in He. destruct He as [j Hj].
    assert (I2 : indexed (stageFrontageEdges host parcel es em)).
    { eapply indexed_same_indices; [|exact Hidx].
      apply map_index_stampFrontageAt. }
    rewrite (I2 j e Hj).
    destruct (same_indices_lookup es (stageFrontageEdges host parcel es em)
                j e (map_index_stampFrontageAt host em _ _ es) Hj)
      as (e0 & He0 & _).
    now exists e0.
  - intros Hne. unfold stageFrontageIndex.
    destruct (chooseFrontage_nonempty es em (stagePrimaryStreet parcel) Hne)
      as [e ->].
    now eexists.
Qed.

End OppositeEdge.

(** ** The types of the returned edges *)

Section EdgeTypes.
Context (host : Host).

Lemma filter_length_places {A : Type} (p : A -> bool) (q : nat -> bool)
    (l : list A) :
  (forall i e, l !! i = Some e -> p e = q i) ->
  length (List.filter p l) = length (List.filter q (seq 0 (length l))).
Proof.
  revert q. induction l as [|x l IH]; intros q H; [reflexivity|].
  cbn [length seq List.filter]. rewrite (H 0%nat x eq_refl).
  assert (G : forall m, length (List.filter q (List.map S m))
              = length (List.filter (fun i => q (S i)) m)).
  { induction m as [|y m IHm]; cbn; [reflexivity|].
    destruct (q (S y)); cbn; now rewrite IHm. }
  assert (E : length (List.filter p l)
              = length (List.filter q (seq 1 (length l)))).
  { rewrite <- seq_shift, G. apply IH.
    intros i e He. apply (H (S i) e He). }
  destruct (q 0%nat); cbn [length]; now rewrite E.
Qed.

Lemma count_place (a s n : nat) :
  length (List.filter (fun i => bool_decide (i = a)) (seq s n))
  = if decide (s <= a < s + n)%nat then 1%nat else 0%nat.
Proof.
  revert s. induction n as [|n IH]; intros s; cbn [seq List.filter].
  - destruct (decide _); [lia|reflexivity].
  - destruct (decide (s = a)) as [->|Hne].
    + rewrite bool_decide_eq_true_2 by reflexivity. cbn [length]. rewrite IH.
      destruct (decide (S a <= a < S a + n)%nat); [lia|].
      destruct (decide (a <= a < a + S n)%nat); [reflexivity|lia].
    + rewrite bool_decide_eq_false_2 by exact Hne. rewrite IH.
      destruct (decide (S s <= a < S s + n)%nat),
        (decide (s <= a < s + S n)%nat); try reflexivity; lia.
Qed.

Lemma count_two_places (a b n : nat) :
  a <> b -> (a < n)%nat -> (b < n)%nat ->
  length (List.filter (fun i => bool_decide (i = a) || bool_decide (i = b))
            (seq 0 n)) = 2%nat.
Proof.
  intros Hab Ha Hb.
  assert (G : forall l : list nat,
            length (List.filter
                      (fun i => bool_decide (i = a) || bool_decide (i = b)) l)
            = (length (List.filter (fun i => bool_decide (i = a)) l) +
               length (List.filter (fun i => bool_decide (i = b)) l))%nat).
  { induction l as [|x l IH]; cbn; [reflexivity|].
    destruct (decide (x = a)) as [->|Hxa].
    - rewrite bool_decide_eq_true_2 by reflexivity.
      rewrite (bool_decide_eq_false_2 (a = b)) by exact Hab.
      cbn. now rewrite IH.
    - rewrite (bool_decide_eq_false_2 (x = a)) by exact Hxa. cbn.
      destruct (bool_decide (x = b)); cbn; rewrite IH; lia. }
  rewrite G, !count_place.
  destruct (decide (0 <= a < 0 + n)%nat), (decide (0 <= b < 0 + n)%nat);
    try reflexivity; lia.
Qed.

Lemma indexIs_place (o : option nat) e i :
  index e = i -> indexIs o e = bool_decide (o = Some i).
Proof. now intros <-. Qed.

Lemma doubleFronting_has_opposite parcel (es : list EdgeAnalysis) em :
  is_Some (stageDoubleFronting host parcel es em) ->
  is_Some (stageOppositeIndex host parcel es em).
Proof.
  unfold stageDoubleFronting, doubleFrontingCandidate, edgeAt.
  destruct (stageFrontageIndex parcel es em ≫= _); [|now intros [x Hx]].
  destruct (stageOppositeIndex host parcel es em); [now eexists|].
  now intros [x Hx].
Qed.

(** The type of the classified edge of a place, for an edge that went in
    as a side edge. *)
Lemma classifiedEdge_type parcel (es : list EdgeAnalysis) em i e :
  indexed es -> es !! i = Some e -> type e = Side ->
  let fi := stageFrontageIndex parcel es em in
  let oi := stageOppositeIndex host parcel es em in
  let df := stageDoubleFronting host parcel es em in
  let e' := classifiedEdge host parcel es em i e in
  (fi = Some i -> type e' = Frontage) /\
  (oi = Some i -> is_Some df -> type e' = Frontage) /\
  (oi = Some i -> df = None -> isRearType e') /\
  (fi <> Some i -> oi <> Some i ->
   type e' = if flankHit em fi oi (stageBaseStreet host parcel es em)
                  (stageRelaxedFlankage host parcel es em) e
             then Flankage else Side).
Proof.
  intros Hidx He Hside. cbv zeta.
  destruct (stage_indices host parcel es em Hidx) as (_ & Hoi & _).
  pose proof (Hidx i e He) as Hi.
  unfold classifiedEdge.
  set (fi := stageFrontageIndex parcel es em) in *.
  set (oi := stageOppositeIndex host parcel es em) in *.
  set (df := stageDoubleFronting host parcel es em).
  set (base := stageBaseStreet host parcel es em).
  set (relaxed := stageRelaxedFlankage host parcel es em).
  clearbody fi oi df base relaxed.
  assert (Hskip : forall x, index x = i ->
            (fi = Some i \/ oi = Some i) ->
            flankOne host em fi oi base relaxed x = x).
  { intros x Hx Hor. unfold flankOne.
    rewrite !(indexIs_place _ x i Hx).
    destruct Hor as [H|H]; rewrite (bool_decide_eq_true_2 _ H);
      rewrite ?orb_true_r; reflexivity. }
  split; [|split; [|split]].
  - intros Hfi.
    assert (Hno : oi <> Some i).
    { intros Ho. destruct (Hoi i Ho) as [_ Hne]. contradiction. }
    destruct (decide (fi = Some i)); [|contradiction].
    destruct (decide (oi = Some i)); [contradiction|].
    assert (E3 : match df with
                 | Some c =>
                     stampFrontage host em (stagePrimaryStreet parcel) e
                 | None => stampFrontage host em (stagePrimaryStreet parcel) e
                 end = stampFrontage host em (stagePrimaryStreet parcel) e)
      by now destruct df.
    rewrite E3, Hskip; [| |now left].
    + destruct df; apply type_stampFrontage.
    + now rewrite index_stampFrontage.
  - intros Ho [c ->].
    destruct (Hoi i Ho) as [_ Hne].
    destruct (decide (fi = Some i)); [contradiction|].
    destruct (decide (oi = Some i)); [|contradiction].
    rewrite Hskip; [reflexivity|exact Hi|now right].
  - intros Ho ->.
    destruct (Hoi i Ho) as [_ Hne].
    destruct (decide (fi = Some i)); [contradiction|].
    destruct (decide (oi = Some i)); [|contradiction].
    rewrite Hskip; [|exact Hi|now right]. apply type_stampRear.
  - intros Hnf Hno.
    destruct (decide (fi = Some i)); [contradiction|].
    destruct (decide (oi = Some i)); [contradiction|].
    assert (E3 : match df with Some c => e | None => e end = e)
      by now destruct df.
    rewrite E3.
    assert (E5 : forall x : EdgeAnalysis,
              match df with Some _ => x | None => x end = x)
      by (intros x; now destruct df).
    rewrite E5. unfold flankOne, flankHit.
    rewrite !(indexIs_place _ e i Hi).
    rewrite (bool_decide_eq_false_2 (fi = Some i)) by assumption.
    rewrite (bool_decide_eq_false_2 (oi = Some i)) by assumption.
    cbn [orb negb andb].
    destruct (firstDifferentStreetCandidate _ _ _) as [c|].
    + rewrite bool_decide_eq_true_2 by (now exists c). reflexivity.
    + rewrite bool_decide_eq_false_2 by (now intros [x Hx]). exact Hside.
Qed.

End EdgeTypes.

Section FrontageEdges.
Context (host : Host).

Lemma classifyEdges_length parcel (es : list EdgeAnalysis) em :
  length (edges (run_result (classifyEdges host parcel es em))) = length es.
Proof.
  destruct (classifyEdges_stages host parcel es em) as (_ & _ & _ & _ & -> & _).
  rewrite <- (length_map index), map_index_rearPass, map_index_flankagePass.
  unfold stageDoubleEdges, stageFrontageEdges.
  now rewrite map_index_stampDoubleFronting, map_index_stampFrontageAt,
    length_map.
Qed.

(** In a classified list that went in as side edges, the frontage edges are
    the frontage place and, under double fronting, the opposite place. *)
Lemma classifyEdges_frontage parcel (es : list EdgeAnalysis) em :
  indexed es -> Forall (fun e => type e = Side) es ->
  let run := classifyEdges host parcel es em in
  forall i e, edges (run_result run) !! i = Some e ->
    (type e = Frontage <->
     run_frontageIndex run = Some i \/
     (run_isDoubleFronting run = true /\ run_oppositeIndex run = Some i)).
Proof.
  intros Hidx Hside. cbv zeta. intros i e' He'.
  pose proof (classifyEdges_lookup host parcel es em i) as Hl.
  destruct (classifyEdges_stages host parcel es em)
    as (Efi & Eoi & Edf' & _).
  set (run := classifyEdges host parcel es em) in *. clearbody run.
  rewrite Hl in He'. rewrite Efi, Eoi, Edf'. clear Hl Efi Eoi Edf' run.
  destruct (es !! i) as [e|] eqn:He; [|discriminate]. cbn in He'.
  injection He' as <-.
  pose proof (proj1 (Forall_lookup _ _) Hside i e He) as Hs. cbn in Hs.
  destruct (classifiedEdge_type host parcel es em i e Hidx He Hs)
    as (Hf & Hd & Hr & Ho).
  set (e' := classifiedEdge host parcel es em i e) in *. clearbody e'.
  set (hit := flankHit _ _ _ _ _ _) in *. clearbody hit.
  set (fi := stageFrontageIndex parcel es em) in *.
  set (oi := stageOppositeIndex host parcel es em) in *.
  set (df := stageDoubleFronting host parcel es em) in *.
  clearbody fi oi df.
  destruct (decide (fi = Some i)) as [Hfi|Hnf].
  { split; [now left|intros _; now apply Hf]. }
  destruct (decide (oi = Some i)) as [Hoi|Hno].
  { destruct df as [c|].
    - rewrite bool_decide_eq_true_2 by (now exists c).
      split; [now right|intros _; apply Hd; [exact Hoi|now exists c]].
    - rewrite bool_decide_eq_false_2 by (now intros [x Hx]).
      split.
      + intros Ht. destruct (Hr Hoi eq_refl) as [H|H]; congruence.
      + intros [H|[H _]]; [contradiction|discriminate]. }
  split.
  - intros Ht. rewrite (Ho Hnf Hno) in Ht. destruct hit; discriminate.
  - intros [H|[_ H]]; contradiction.
Qed.

End FrontageEdges.

Section FrontageCount.
Context (host : Host).

(** The frontage edges of a classified list that went in as side edges,
    and their number. *)
Lemma classifyEdges_frontage_count parcel (es0 : list EdgeAnalysis) em :
  indexed es0 -> Forall (fun e => type e = Side) es0 ->
  let run := classifyEdges host parcel es0 em in
  let es := edges (run_result run) in
  (forall i e, es !! i = Some e ->
     (type e = Frontage <->
      run_frontageIndex run = Some i \/
      (run_isDoubleFronting run = true /\ run_oppositeIndex run = Some i))) /\
  (es <> [] ->
   exists i, run_frontageIndex run = Some i /\ (i < length es)%nat) /\
  (run_isDoubleFronting run = true ->
   exists k, run_oppositeIndex run = Some k /\ (k < length es)%nat /\
             run_frontageIndex run <> Some k) /\
  length (List.filter isFrontage es)
  = match es with
    | [] => 0%nat
    | _ :: _ => if run_isDoubleFronting run then 2%nat else 1%nat
    end.
Proof.
  intros Hidx Hside. cbv zeta.
  pose proof (classifyEdges_frontage host parcel es0 em Hidx Hside) as Hfr.
  pose proof (classifyEdges_length host parcel es0 em) as Hlen.
  destruct (classifyEdges_stages host parcel es0 em)
    as (Efi & Eoi & Edf & _).
  destruct (stage_indices host parcel es0 em Hidx) as (Hfi & Hoi & Hne).
  pose proof (doubleFronting_has_opposite host parcel es0 em) as Hdo.
  cbv zeta in Hfr.
  set (run := classifyEdges host parcel es0 em) in *. clearbody run.
  rewrite <- Efi, <- Eoi in *.
  assert (Hdf : run_isDoubleFronting run = true ->
            exists k, run_oppositeIndex run = Some k /\
                      (k < length es0)%nat /\ run_frontageIndex run <> Some k).
  { intros Hd. rewrite Edf in Hd. apply bool_decide_eq_true in Hd.
    destruct (Hdo Hd) as [k Hk]. exists k. split; [exact Hk|].
    destruct (Hoi k Hk) as [Hin Hne']. split; [|exact Hne'].
    now apply lookup_lt_is_Some. }
  assert (Hfront : edges (run_result run) <> [] ->
            exists i, run_frontageIndex run = Some i /\ (i < length es0)%nat).
  { intros Hn. destruct Hne as [i Hi].
    - intros ->. destruct (edges (run_result run)); [congruence|discriminate].
    - exists i. split; [exact Hi|]. now apply lookup_lt_is_Some, Hfi. }
  split; [exact Hfr|]. split; [now rewrite Hlen|].
  split; [now rewrite Hlen|].
  set (l := edges (run_result run)) in *. clearbody l.
  destruct l as [|x l]; [reflexivity|].
  destruct Hfront as (a & Ha & Hla); [discriminate|].
  destruct (run_isDoubleFronting run) eqn:Ed.
  - destruct (Hdf eq_refl) as (b & Hb & Hlb & Hab).
    clear Hdo Hfi Hoi Hne Edf Efi Eoi Hdf.
    rewrite (filter_length_places isFrontage
               (fun i => bool_decide (i = a) || bool_decide (i = b))).
    + rewrite Hlen. apply count_two_places; [congruence|assumption..].
    + intros i e He. unfold isFrontage.
      destruct (Hfr i e He) as [H1 H2].
      destruct (decide (i = a)) as [->|Hia].
      * rewrite (bool_decide_eq_true_2 (a = a)) by reflexivity. cbn [orb].
        apply bool_decide_eq_true_2, H2. left. exact Ha.
      * rewrite (bool_decide_eq_false_2 (i = a)) by exact Hia. cbn [orb].
        destruct (decide (i = b)) as [->|Hib].
        -- rewrite (bool_decide_eq_true_2 (b = b)) by reflexivity.
           apply bool_decide_eq_true_2, H2. right. split; [reflexivity|].
           exact Hb.
        -- rewrite (bool_decide_eq_false_2 (i = b)) by exact Hib.
           apply bool_decide_eq_false_2. intros Ht.
           destruct (H1 Ht) as [H|[_ H]].
           ++ rewrite Ha in H. injection H as H. congruence.
           ++ rewrite Hb in H. injection H as H. congruence.
  - clear Hdo Hfi Hoi Hne Edf Efi Eoi Hdf.
    rewrite (filter_length_places isFrontage (fun i => bool_decide (i = a))).
    + rewrite Hlen, count_place.
      destruct (decide (0 <= a < 0 + length es0)%nat); [reflexivity|lia].
    + intros i e He. unfold isFrontage.
      destruct (Hfr i e He) as [H1 H2].
      destruct (decide (i = a)) as [->|Hia].
      * rewrite (bool_decide_eq_true_2 (a = a)) by reflexivity.
        apply bool_decide_eq_true_2, H2. left. exact Ha.
      * rewrite (bool_decide_eq_false_2 (i = a)) by exact Hia.
        apply bool_decide_eq_false_2. intros Ht.
        destruct (H1 Ht) as [H|[H _]].
        -- rewrite Ha in H. injection H as H. congruence.
        -- discriminate.
Qed.

(** X1.  Exactly one edge of a returned analysis is stamped as frontage,
    the chosen frontage edge, unless double fronting is detected: then
    exactly two are, the frontage edge and the opposite edge.  An analysis
    without edges has none. *)
Theorem analyzeParcel_frontage_count (parcel : ParcelFeature)
    (map : option MapboxMap) :
  let run := analyzeParcelRun host parcel map in
  let es := edges (analyzeParcel host parcel map) in
  (forall i e, es !! i = Some e ->
     (type e = Frontage <->
      run_frontageIndex run = Some i \/
      (run_isDoubleFronting run = true /\ run_oppositeIndex run = Some i))) /\
  (es <> [] ->
   exists i, run_frontageIndex run = Some i /\ (i < length es)%nat) /\
  (run_isDoubleFronting run = true ->
   exists k, run_oppositeIndex run = Some k /\ (k < length es)%nat /\
             run_frontageIndex run <> Some k) /\
  length (List.filter isFrontage es)
  = match es with
    | [] => 0%nat
    | _ :: _ => if run_isDoubleFronting run then 2%nat else 1%nat
    end.
Proof.
  cbv zeta. unfold analyzeParcel. rewrite analyzeParcelRun_firstLoop.
  pose proof (classifyEdges_frontage_count parcel _
                (snd (firstLoop host parcel map))
                (firstLoop_indexed host parcel map)
                (firstLoop_side host parcel map)) as H.
  cbv zeta in H. exact H.
Qed.

End FrontageCount.

(** The lot with a lane behind it has one frontage edge. *)
Lemma analyzeParcel_frontage_count_witness :
  let map := Some (Scenario.mapOf
                     [Scenario.mainStreet 10; Scenario.rearLane]) in
  edges (analyzeParcel Scenario.flatHost Scenario.lot map) <> [] /\
  exists i,
    run_frontageIndex (analyzeParcelRun Scenario.flatHost Scenario.lot map)
    = Some i /\
    (i < length (edges (analyzeParcel Scenario.flatHost Scenario.lot map)))%nat.
Proof.
  cbv zeta.
  assert (Hne : edges (analyzeParcel Scenario.flatHost Scenario.lot
                  (Some (Scenario.mapOf
                           [Scenario.mainStreet 10; Scenario.rearLane])))
                <> []) by (vm_compute; discriminate).
  split; [exact Hne|].
  exact (proj1 (proj2 (analyzeParcel_frontage_count Scenario.flatHost
                         Scenario.lot _)) Hne).
Defined.

(** ** The geometry of the returned edges *)

Section Geometry.
Context (host : Host).

Lemma frame_stampEdge t m k e : frame (stampEdge host t m k e) = frame e.
Proof. reflexivity. Qed.

Lemma frame_stampDefault ms e : frame (stampDefault host ms e) = frame e.
Proof.
  unfold stampDefault.
  destruct (firstAdjacentStreet ms false relaxFrontage); [reflexivity|].
  destruct (List.find isAdjacent ms); [reflexivity|].
  destruct (head ms); reflexivity.
Qed.

Lemma frame_stampFrontage em nps e : frame (stampFrontage host em nps e) = frame e.
Proof.
  unfold stampFrontage.
  destruct (orTry _ _); reflexivity.
Qed.

Lemma frame_stampRear em e : frame (fst (stampRear host em e)) = frame e.
Proof.
  unfold stampRear.
  destruct (firstAdjacentLane _ true) as [m|]; [|reflexivity].
  destruct (negb (isAdjacent m)); reflexivity.
Qed.

Lemma frame_flankOne em fi oi base relaxed e :
  frame (flankOne host em fi oi base relaxed e) = frame e.
Proof.
  unfold flankOne. destruct (indexIs fi e || indexIs oi e); [reflexivity|].
  destruct (firstDifferentStreetCandidate _ _ _); reflexivity.
Qed.

Lemma frame_classifiedEdge parcel (es : list EdgeAnalysis) em i e :
  frame (classifiedEdge host parcel es em i e) = frame e.
Proof.
  unfold classifiedEdge. cbv zeta.
  set (fi := stageFrontageIndex parcel es em).
  set (oi := stageOppositeIndex host parcel es em).
  set (df := stageDoubleFronting host parcel es em).
  set (base := stageBaseStreet host parcel es em).
  set (relaxed := stageRelaxedFlankage host parcel es em).
  set (nps := stagePrimaryStreet parcel).
  clearbody fi oi df base relaxed nps.
  assert (E2 : frame (if decide (fi = Some i)
                      then stampFrontage host em nps e else e) = frame e).
  { destruct (decide (fi = Some i)); [apply frame_stampFrontage|reflexivity]. }
  set (e2 := if decide (fi = Some i) then stampFrontage host em nps e else e)
    in *.
  clearbody e2.
  destruct df as [c|].
  - rewrite frame_flankOne.
    destruct (decide (oi = Some i)); [rewrite frame_stampEdge|]; exact E2.
  - destruct (decide (oi = Some i));
      [rewrite frame_stampRear|]; rewrite frame_flankOne; exact E2.
Qed.

Lemma frame_firstLoop parcel map i :
  frame <$> fst (firstLoop host parcel map) !! i
  = frame <$> toRingEdges host (default [] (head (coordinates parcel))) !! i.
Proof.
  unfold firstLoop. destruct map as [m|]; [|reflexivity].
  rewrite defaultPass_edges, list_lookup_fmap.
  destruct (toRingEdges host _ !! i) as [e|]; [|reflexivity].
  cbn. now rewrite frame_stampDefault.
Qed.

Lemma ringEdgesFrom_lookup_inv k (ring : list Position) i e :
  ringEdgesFrom host k ring !! i = Some e ->
  exists a b, ring !! i = Some a /\ ring !! S i = Some b /\
              freshEdge host (k + i) a b e.
Proof.
  intros He.
  assert (Hi : (i < length ring - 1)%nat).
  { rewrite <- (ringEdgesFrom_length host k). eapply lookup_lt_Some, He. }
  destruct (lookup_lt_is_Some_2 ring i ltac:(lia)) as [a Ha].
  destruct (lookup_lt_is_Some_2 ring (S i) ltac:(lia)) as [b Hb].
  destruct (ringEdgesFrom_lookup host k ring i a b Ha Hb) as [e' [He' Hf]].
  exists a, b. split; [exact Ha|]. split; [exact Hb|]. congruence.
Qed.

Lemma toRingEdges_length (ring : list Position) :
  length (toRingEdges host ring) = (length ring - 1)%nat.
Proof.
  unfold toRingEdges. destruct (Nat.ltb_spec (length ring) 2) as [Hlt|_].
  - cbn. lia.
  - apply ringEdgesFrom_length.
Qed.

Lemma toRingEdges_lookup_inv (ring : list Position) i e :
  toRingEdges host ring !! i = Some e ->
  exists a b, ring !! i = Some a /\ ring !! S i = Some b /\
              freshEdge host i a b e.
Proof.
  unfold toRingEdges. destruct (_ <? 2)%nat.
  - destruct i; discriminate.
  - apply (ringEdgesFrom_lookup_inv 0).
Qed.

(** Every edge of an analysis has the geometry of the ring edge of its
    place. *)
Lemma analysis_edge_frames (parcel : ParcelFeature) (map : option MapboxMap) :
  let ringEdges := toRingEdges host (default [] (head (coordinates parcel))) in
  let result := analyzeParcel host parcel map in
  length (edges result) = length ringEdges /\
  forall i e, edges result !! i = Some e ->
    exists r, ringEdges !! i = Some r /\ frame e = frame r.
Proof.
  cbv zeta. unfold analyzeParcel. rewrite analyzeParcelRun_firstLoop.
  pose proof (frame_firstLoop parcel map) as Hfl.
  set (es0 := fst (firstLoop host parcel map)) in *.
  set (em := snd (firstLoop host parcel map)) in *.
  clearbody es0 em.
  pose proof (classifyEdges_length host parcel es0 em) as Hlen.
  pose proof (classifyEdges_lookup host parcel es0 em) as Hlk.
  set (run := classifyEdges host parcel es0 em) in *. clearbody run.
  set (ringEdges := toRingEdges host (default [] (head (coordinates parcel))))
    in *.
  clearbody ringEdges.
  assert (Hl0 : length es0 = length ringEdges).
  { apply Nat.le_antisymm; apply Nat.nlt_ge; intros Hlt.
    - destruct (lookup_lt_is_Some_2 es0 (length ringEdges) Hlt) as [x Hx].
      specialize (Hfl (length ringEdges)).
      rewrite Hx, (lookup_ge_None_2 ringEdges) in Hfl by lia.
      discriminate.
    - destruct (lookup_lt_is_Some_2 ringEdges (length es0) Hlt) as [x Hx].
      specialize (Hfl (length es0)).
      rewrite Hx, (lookup_ge_None_2 es0) in Hfl by lia.
      discriminate. }
  split; [now rewrite Hlen, Hl0|].
  intros i e He. rewrite Hlk in He. specialize (Hfl i).
  destruct (es0 !! i) as [e0|]; [|discriminate].
  cbn in He. injection He as <-.
  destruct (ringEdges !! i) as [r|]; [|discriminate].
  assert (Hfr : frame e0 = frame r)
    by (cbn in Hfl; exact (Some_inj _ _ Hfl)).
  exists r. split; [reflexivity|].
  now rewrite frame_classifiedEdge.
Qed.

(** X2.  The analysis returns one edge for each pair of consecutive
    vertices of the first ring of the parcel, in ring order, with or
    without a map: edge [i] has index [i], runs from vertex [i] to vertex
    [i + 1], has their mean as midpoint and their distance as length.  The
    classification never changes the geometry of an edge. *)
Theorem analyzeParcel_edges_follow_ring (parcel : ParcelFeature)
    (map : option MapboxMap) :
  let ring := default [] (head (coordinates parcel)) in
  let result := analyzeParcel host parcel map in
  length (edges result) = (length ring - 1)%nat /\
  forall i e, edges result !! i = Some e ->
    exists a b,
      ring !! i = Some a /\ ring !! S i = Some b /\
      index e = i /\ start e = a /\ end_ e = b /\
      midpoint e = (((fst a + fst b) / 2)%Q, ((snd a + snd b) / 2)%Q) /\
      lengthMeters e = turf_distance host a b.
Proof.
  cbv zeta. destruct (analysis_edge_frames parcel map) as [Hlen Hlk].
  cbv zeta in Hlen, Hlk.
  set (result := analyzeParcel host parcel map) in *. clearbody result.
  split; [now rewrite Hlen, toRingEdges_length|].
  intros i e He. destruct (Hlk i e He) as (r & Hr & Hf).
  destruct (toRingEdges_lookup_inv _ i r Hr)
    as (a & b & Ha & Hb & Hi & Hs & Hen & Hm & Hl & _).
  unfold frame in Hf. injection Hf as Hf1 Hf2 Hf3 Hf4 Hf5.
  exists a, b. rewrite Hf1, Hf2, Hf3, Hf4, Hf5.
  repeat split; assumption.
Qed.

(** X3.  The line features drawn for an analysis are one per pair of
    consecutive ring vertices, in ring order: feature [i] is the line from
    vertex [i] to vertex [i + 1], carries the type of edge [i] and the label
    made of the number [i + 1] and that type.  Without an analysis there is
    no feature. *)
Theorem toEdgeFeatureCollection_of_analysis (parcel : ParcelFeature)
    (map : option MapboxMap) :
  let ring := default [] (head (coordinates parcel)) in
  let result := analyzeParcel host parcel map in
  let features := toEdgeFeatureCollection (Some result) in
  toEdgeFeatureCollection None = [] /\
  length features = (length ring - 1)%nat /\
  forall i f, features !! i = Some f ->
    exists a b e,
      ring !! i = Some a /\ ring !! S i = Some b /\
      edges result !! i = Some e /\
      line_coordinates f = [a; b] /\
      line_edgeType f = edgeTypeString (type e) /\
      line_label f
      = (pretty (i + 1)%nat ++ " " ++ edgeTypeString (type e))%string.
Proof.
  cbv zeta. destruct (analysis_edge_frames parcel map) as [Hlen Hlk].
  cbv zeta in Hlen, Hlk.
  set (result := analyzeParcel host parcel map) in *. clearbody result.
  split; [reflexivity|]. unfold toEdgeFeatureCollection.
  split; [now rewrite length_map, Hlen, toRingEdges_length|].
  intros i f Hf. rewrite list_lookup_fmap in Hf.
  destruct (edges result !! i) as [e|] eqn:He; [|discriminate].
  cbn in Hf. injection Hf as <-.
  destruct (Hlk i e He) as (r & Hr & Hfr).
  destruct (toRingEdges_lookup_inv _ i r Hr)
    as (a & b & Ha & Hb & Hi & Hs & Hen & _).
  unfold frame in Hfr. injection Hfr as Hf1 Hf2 Hf3 _ _.
  exists a, b, e. cbn. rewrite Hf1, Hf2, Hf3, Hi, Hs, Hen.
  repeat split; assumption.
Qed.

End Geometry.

(** ** The longest edge *)

Section LongestEdge.
Context (host : Host).
Local Open Scope Q_scope.

(** The fold of [longestEdge], with the edges already seen: the edge kept
    is as long as any edge seen and longer than every edge before it. *)
Lemma foldl_longest (l pre : list EdgeAnalysis) (b : EdgeAnalysis) (k : nat) :
  pre !! k = Some b ->
  (forall j e', pre !! j = Some e' -> lengthMeters e' <= lengthMeters b) ->
  (forall j e', (j < k)%nat -> pre !! j = Some e' ->
     lengthMeters e' < lengthMeters b) ->
  let best :=
    foldl (fun best current =>
             if Qltb (lengthMeters best) (lengthMeters current)
             then current else best) b l in
  exists i, (pre ++ l)%list !! i = Some best /\
    (forall j e', (pre ++ l)%list !! j = Some e' ->
       lengthMeters e' <= lengthMeters best) /\
    (forall j e', (j < i)%nat -> (pre ++ l)%list !! j = Some e' ->
       lengthMeters e' < lengthMeters best).
Proof.
  cbv zeta. revert pre b k.
  induction l as [|y l IH]; intros pre b k Hk Hmax Hfirst.
  - cbn. rewrite app_nil_r. exists k. auto.
  - cbn [foldl].
    replace (pre ++ y :: l)%list with ((pre ++ [y]) ++ l)%list
      by (rewrite <- app_assoc; reflexivity).
    pose proof (lookup_lt_Some _ _ _ Hk) as Hklt.
    destruct (Qltb (lengthMeters b) (lengthMeters y)) eqn:E.
    + apply Qltb_lt in E. apply (IH (pre ++ [y])%list y (length pre)).
      * rewrite lookup_app_r by lia. now rewrite Nat.sub_diag.
      * intros j e' Hj. apply lookup_app_Some in Hj.
        destruct Hj as [Hj|[Hge Hj]].
        -- pose proof (Hmax j e' Hj). lra.
        -- destruct (j - length pre)%nat as [|n]; [|destruct n; discriminate].
           cbn in Hj. injection Hj as <-. lra.
      * intros j e' Hlt Hj. rewrite lookup_app_l in Hj by lia.
        pose proof (Hmax j e' Hj). lra.
    + apply Qltb_ge in E. apply (IH (pre ++ [y])%list b k).
      * now rewrite lookup_app_l by lia.
      * intros j e' Hj. apply lookup_app_Some in Hj.
        destruct Hj as [Hj|[Hge Hj]].
        -- exact (Hmax j e' Hj).
        -- destruct (j - length pre)%nat as [|n]; [|destruct n; discriminate].
           cbn in Hj. injection Hj as <-. exact E.
      * intros j e' Hlt Hj. rewrite lookup_app_l in Hj by lia.
        exact (Hfirst j e' Hlt Hj).
Qed.

(** [longestEdge] gives an edge of the greatest length, the first of them:
    no edge of the list is longer, and every edge before it is shorter.
    Only the empty list has none. *)
Lemma longestEdge_first_longest (es : list EdgeAnalysis) (e : EdgeAnalysis) :
  longestEdge es = Some e ->
  exists i, es !! i = Some e /\
    (forall j e', es !! j = Some e' -> lengthMeters e' <= lengthMeters e) /\
    (forall j e', (j < i)%nat -> es !! j = Some e' ->
       lengthMeters e' < lengthMeters e).
Proof.
  destruct es as [|x es]; [discriminate|]. cbn [longestEdge]. intros [= <-].
  apply (foldl_longest es [x] x 0).
  - reflexivity.
  - intros [|j] e' Hj; [|discriminate]. cbn in Hj. injection Hj as <-. lra.
  - intros j e' Hlt. lia.
Qed.

Lemma longestEdge_None (es : list EdgeAnalysis) :
  longestEdge es = None <-> es = [].
Proof. destruct es; cbn; split; congruence. Qed.

Lemma frame_lengthMeters (e e' : EdgeAnalysis) :
  frame e = frame e' -> lengthMeters e = lengthMeters e'.
Proof. unfold frame. now intros [= _ _ _ _ ->]. Qed.

(** The edge of the result at the place of the longest edge of the list
    the classifier starts from: no edge of the result is longer, and every
    edge of the result before it is shorter. *)
Lemma classifyEdges_longest parcel (es : list EdgeAnalysis) em i :
  indexed es ->
  index <$> longestEdge es = Some i ->
  let result := run_result (classifyEdges host parcel es em) in
  exists e, edges result !! i = Some e /\
    (forall j e', edges result !! j = Some e' ->
       lengthMeters e' <= lengthMeters e) /\
    (forall j e', (j < i)%nat -> edges result !! j = Some e' ->
       lengthMeters e' < lengthMeters e).
Proof.
  intros Hidx Hi. cbv zeta.
  assert (Hlk : forall j e',
            edges (run_result (classifyEdges host parcel es em)) !! j
            = Some e' ->
            exists e0, es !! j = Some e0 /\
                       lengthMeters e' = lengthMeters e0).
  { intros j e' Hj. rewrite classifyEdges_lookup in Hj.
    destruct (es !! j) as [e0|]; [|discriminate].
    exists e0. split; [reflexivity|].
    apply frame_lengthMeters. cbn in Hj. apply Some_inj in Hj.
    rewrite <- Hj. apply frame_classifiedEdge. }
  assert (Hex : forall j e0, es !! j = Some e0 ->
            exists e',
              edges (run_result (classifyEdges host parcel es em)) !! j
              = Some e').
  { intros j e0 Hj. rewrite classifyEdges_lookup, Hj. now eexists. }
  set (run := classifyEdges host parcel es em) in *. clearbody run.
  destruct (longestEdge es) as [le|] eqn:El; [|discriminate].
  cbn in Hi. injection Hi as Hi.
  destruct (longestEdge_first_longest es le El) as (p & Hp & Hmax & Hfirst).
  assert (Hpi : p = i) by (rewrite <- Hi; symmetry; exact (Hidx p le Hp)).
  subst p.
  destruct (Hex i le Hp) as [e He].
  destruct (Hlk i e He) as (e0 & He0 & Hl).
  assert (e0 = le) by congruence. subst e0.
  exists e. split; [exact He|]. rewrite Hl. split.
  - intros j e' Hj. destruct (Hlk j e' Hj) as (e0 & Hj0 & ->).
    exact (Hmax j e0 Hj0).
  - intros j e' Hlt Hj. destruct (Hlk j e' Hj) as (e0 & Hj0 & ->).
    exact (Hfirst j e0 Hlt Hj0).
Qed.

End LongestEdge.

(** ** The analysis of a parcel without road candidates *)

Section NoCandidatesResult.
Context (host : Host).

(** C2, as the code has it.  When no edge of the parcel has a road
    candidate, the lot type is Standard without Lane and the confidence is
    low; the longest edge, the first of them on a tie, is stamped as
    frontage (no edge of the result is longer than the frontage edge, and
    every edge before it is shorter), the edge found opposite to it as
    rear, and every other edge stays a side edge.  A parcel with an edge
    has a frontage edge. *)
Theorem analyzeParcel_without_candidates (parcel : ParcelFeature)
    (m : MapboxMap)
    (H : Forall (fun e => queryRoadCandidatesForEdge host m e = [])
           (toRingEdges host (default [] (head (coordinates parcel))))) :
  let ringEdges := toRingEdges host (default [] (head (coordinates parcel))) in
  let run := analyzeParcelRun host parcel (Some m) in
  let result := analyzeParcel host parcel (Some m) in
  lotType result = StandardWithoutLane /\
  confidence result = low /\
  run_frontageIndex run = index <$> longestEdge ringEdges /\
  length (edges result) = length ringEdges /\
  (forall i e, edges result !! i = Some e ->
     type e = if decide (run_oppositeIndex run = Some i) then Rear
              else if decide (run_frontageIndex run = Some i) then Frontage
              else Side) /\
  (ringEdges <> [] ->
   exists i e, run_frontageIndex run = Some i /\
               edges result !! i = Some e /\ type e = Frontage /\
               (forall j e', edges result !! j = Some e' ->
                  (lengthMeters e' <= lengthMeters e)%Q) /\
               (forall j e', (j < i)%nat -> edges result !! j = Some e' ->
                  (lengthMeters e' < lengthMeters e)%Q)).
Proof.
  cbv zeta. unfold analyzeParcel. rewrite analyzeParcelRun_firstLoop.
  set (es0 := toRingEdges host (default [] (head (coordinates parcel)))) in *.
  destruct (defaultPass_no_candidates host m es0 ∅ noMatches_empty H)
    as [Hes1 Hem].
  change (defaultPass host m es0 ∅) with (firstLoop host parcel (Some m))
    in Hes1, Hem.
  pose proof (firstLoop_indexed host parcel (Some m)) as Hidx.
  set (es1 := fst (firstLoop host parcel (Some m))) in *.
  set (em := snd (firstLoop host parcel (Some m))) in *.
  destruct (classifyEdges_no_matches host parcel es1 em Hem)
    as (Hfi & Hoi & Hedges & Hmatched & Hcse & Hdf & Hurf & Hurl & Hcount).
  destruct (classifyEdges_lotType host parcel es1 em) as (Hrel & Hlane & Hlot).
  destruct (classifyEdges_confidence host parcel es1 em) as (Hconf & _).
  pose proof (fun i => classifyEdges_longest host parcel es1 em i Hidx)
    as Hlong.
  cbv zeta in Hlong.
  set (run := classifyEdges host parcel es1 em) in *. clearbody run.
  set (fi := index <$> longestEdge es1) in *.
  set (oi := fi ≫= findOppositeEdgeIndex host (stampFrontageRear fi None es1))
    in *.
  assert (Hside0 : Forall (fun e => type e = Side) es0).
  { apply toRingEdges_Forall. now intros i a b e (_ & _ & _ & _ & _ & Ht & _). }
  assert (Hside : Forall (fun e => type e = Side) es1).
  { rewrite Hes1. apply Forall_fmap. eapply Forall_impl; [exact Hside0|].
    now intros e He. }
  assert (Hadj : Forall (fun e => isRoadAdjacent e = false) es1).
  { rewrite Hes1. apply Forall_fmap. apply toRingEdges_Forall.
    now intros i a b e (_ & _ & _ & _ & _ & _ & _ & Ha & _). }
  assert (Hnolane : run_laneDetectedOnOpposite run = false).
  { rewrite Hlane, Hedges, Hoi.
    destruct oi as [k|]; [|reflexivity].
    change (isLaneAdjacent (stampFrontageRear fi (Some k) es1 !! k) = false).
    destruct (stampFrontageRear fi (Some k) es1 !! k) as [e|] eqn:E;
      [|reflexivity].
    unfold isLaneAdjacent.
    pose proof (stampFrontageRear_not_adjacent fi (Some k) es1 Hadj) as Hf.
    now rewrite (proj1 (Forall_lookup _ _) Hf k e E). }
  assert (Hlt : lotType (run_result run) = StandardWithoutLane).
  { rewrite Hlot. unfold determineLotType.
    rewrite <- Hlane, Hnolane, Hrel, Hcount, Hdf. reflexivity. }
  assert (Hfi0 : fi = index <$> longestEdge es0).
  { subst fi. rewrite Hes1, longestEdge_map by reflexivity.
    now destruct (longestEdge es0). }
  assert (Hone : forall k, oi = Some k -> fi <> Some k).
  { subst oi. intros k Hk. destruct fi as [j|]; [|discriminate]. cbn in Hk.
    apply findOppositeEdgeIndex_other in Hk. congruence. }
  split; [exact Hlt|]. split.
  { rewrite Hconf, Hlt, Hmatched, Hcse, Hurf, Hurl. reflexivity. }
  split; [now rewrite Hfi|]. split.
  { rewrite Hedges, Hes1. unfold stampFrontageRear.
    destruct fi, oi; rewrite ?length_alter, length_map; reflexivity. }
  split.
  { intros i e. rewrite Hedges, Hfi, Hoi.
    now apply stampFrontageRear_types. }
  intros Hne.
  destruct fi as [p|] eqn:Efi.
  - destruct (Hlong p eq_refl) as (e & He & Hmax & Hfirst).
    exists p, e. split; [exact Hfi|]. split; [exact He|].
    split; [|split; assumption].
    pose proof He as He'. rewrite Hedges in He'.
    rewrite (stampFrontageRear_types (Some p) oi es1 Hside p e He').
    destruct (decide (oi = Some p)) as [Ho|_].
    + exfalso. now apply (Hone p Ho).
    + destruct (decide (Some p = Some p)); [reflexivity|contradiction].
  - exfalso. apply Hne. unfold fi in Efi.
    destruct (longestEdge es1) as [le|] eqn:El; [discriminate|].
    apply longestEdge_None in El. rewrite Hes1 in El.
    destruct es0; [reflexivity|discriminate].
Qed.

End NoCandidatesResult.

(** Without any rendered feature the east side of the lot, its longest
    edge, is stamped as frontage and the west side as rear: not every edge
    is a side edge. *)
Lemma no_features_longest_edge_is_frontage :
  let map := Scenario.mapOf [] in
  (forall window, queryRenderedFeatures map window = []) /\
  List.map type
    (edges (analyzeParcel Scenario.flatHost Scenario.lot (Some map)))
  = [Side; Frontage; Side; Rear].
Proof. split; [reflexivity|vm_compute; reflexivity]. Qed.

Lemma analyzeParcel_without_candidates_witness :
  let result :=
    analyzeParcel Scenario.flatHost Scenario.lot (Some (Scenario.mapOf [])) in
  lotType result = StandardWithoutLane /\ confidence result = low.
Proof.
  cbv zeta.
  destruct (analyzeParcel_without_candidates Scenario.flatHost Scenario.lot
              (Scenario.mapOf [])) as (H1 & H2 & _).
  - repeat constructor.
  - split; [exact H1|exact H2].
Defined.


(** ** The query window of an edge *)

Section QueryWindow.
Context (host : Host).
Local Open Scope Q_scope.

Lemma Math_max_ge_l x y : x <= Math_max x y.
Proof.
  unfold Math_max. destruct (Qltb x y) eqn:E; [|lra].
  apply Qltb_lt in E. lra.
Qed.

Lemma Math_max_ge_r x y : y <= Math_max x y.
Proof.
  unfold Math_max. destruct (Qltb x y) eqn:E; [lra|].
  apply Qltb_ge in E. lra.
Qed.

Lemma Math_min_le_l x y : Math_min x y <= x.
Proof.
  unfold Math_min. destruct (Qltb y x) eqn:E; [|lra].
  apply Qltb_lt in E. lra.
Qed.

Lemma Math_min_le_r x y : Math_min x y <= y.
Proof.
  unfold Math_min. destruct (Qltb y x) eqn:E; [lra|].
  apply Qltb_ge in E. lra.
Qed.

Lemma Math_max_cases x y : Math_max x y = x \/ Math_max x y = y.
Proof. unfold Math_max. destruct (Qltb x y); auto. Qed.

Lemma edgeQueryPaddingPx_range map edge :
  38 <= edgeQueryPaddingPx host map edge <= 220.
Proof.
  unfold edgeQueryPaddingPx. cbv zeta.
  destruct (Qleb _ 0).
  - unfold MIN_QUERY_PADDING_PX. lra.
  - set (t := inject_Z _). clearbody t.
    unfold MIN_QUERY_PADDING_PX, MAX_QUERY_PADDING_PX.
    split; [apply Math_max_ge_l|].
    destruct (Math_max_cases 38 (Math_min 220 t)) as [-> | ->]; [lra|].
    apply Math_min_le_l.
Qed.

(** X4.  The padding of the query window of an edge is between 38 and 220
    pixels at every zoom and latitude, and the window holds the projected
    ends of the edge at least that far from each of its sides. *)
Theorem queryGeometry_holds_edge (map : MapboxMap) (edge : EdgeAnalysis) :
  let padding := edgeQueryPaddingPx host map edge in
  let window := queryGeometry host map edge in
  38 <= padding <= 220 /\
  withinBox padding window (project map (start edge)) /\
  withinBox padding window (project map (end_ edge)) /\
  withinBox 38 window (project map (start edge)) /\
  withinBox 38 window (project map (end_ edge)).
Proof.
  cbv zeta. pose proof (edgeQueryPaddingPx_range map edge) as Hp.
  unfold queryGeometry, withinBox. cbv zeta. cbn [fst snd].
  set (p := edgeQueryPaddingPx host map edge) in *. clearbody p.
  set (s := project map (start edge)). set (e := project map (end_ edge)).
  clearbody s e.
  pose proof (Math_min_le_l (fst s) (fst e)).
  pose proof (Math_min_le_r (fst s) (fst e)).
  pose proof (Math_min_le_l (snd s) (snd e)).
  pose proof (Math_min_le_r (snd s) (snd e)).
  pose proof (Math_max_ge_l (fst s) (fst e)).
  pose proof (Math_max_ge_r (fst s) (fst e)).
  pose proof (Math_max_ge_l (snd s) (snd e)).
  pose proof (Math_max_ge_r (snd s) (snd e)).
  repeat split; lra.
Qed.

End QueryWindow.

(** ** The road candidates of an edge *)

Section Candidates.
Context (host : Host).

Lemma uniqueCandidatesFrom_sublist seen (cs : list RoadCandidate) :
  sublist (uniqueCandidatesFrom seen cs) cs.
Proof.
  revert seen. induction cs as [|c cs IH]; intros seen; cbn.
  - constructor.
  - destruct (decide (candidateKey c ∈ seen)).
    + apply sublist_cons, IH.
    + apply sublist_skip, IH.
Qed.

Lemma uniqueCandidatesFrom_fresh seen (cs : list RoadCandidate) c :
  In c (uniqueCandidatesFrom seen cs) -> candidateKey c ∉ seen.
Proof.
  revert seen. induction cs as [|x cs IH]; intros seen; cbn; [tauto|].
  destruct (decide (candidateKey x ∈ seen)) as [Hin|Hout].
  - apply IH.
  - intros [<-|H]; [exact Hout|]. apply IH in H. set_solver.
Qed.

Lemma uniqueCandidatesFrom_NoDup seen (cs : list RoadCandidate) :
  NoDup (List.map candidateKey (uniqueCandidatesFrom seen cs)).
Proof.
  revert seen. induction cs as [|x cs IH]; intros seen; cbn.
  - constructor.
  - destruct (decide (candidateKey x ∈ seen)) as [Hin|Hout]; [apply IH|].
    cbn. apply NoDup_cons. split; [|apply IH].
    intros H. apply list_elem_of_In, in_map_iff in H.
    destruct H as (c & Hk & Hc). apply uniqueCandidatesFrom_fresh in Hc.
    rewrite Hk in Hc. set_solver.
Qed.

Lemma uniqueCandidatesFrom_first seen (l1 : list RoadCandidate) c l2 :
  candidateKey c ∉ seen ->
  ~ In (candidateKey c) (List.map candidateKey l1) ->
  In c (uniqueCandidatesFrom seen (l1 ++ c :: l2)).
Proof.
  revert seen. induction l1 as [|x l1 IH]; intros seen Hs Hn; cbn.
  - destruct (decide (candidateKey c ∈ seen)); [contradiction|now left].
  - cbn in Hn.
    destruct (decide (candidateKey x ∈ seen)).
    + apply IH; [exact Hs|tauto].
    + right. apply IH; [|tauto].
      assert (Hxc : candidateKey x <> candidateKey c) by tauto.
      rewrite elem_of_union, elem_of_singleton. intros [Hk|Hk]; auto.
Qed.

Lemma uniqueCandidatesFrom_is_first seen (cs : list RoadCandidate) c :
  In c (uniqueCandidatesFrom seen cs) ->
  exists l1 l2, cs = (l1 ++ c :: l2)%list /\
    ~ In (candidateKey c) (List.map candidateKey l1).
Proof.
  revert seen. induction cs as [|x cs IH]; intros seen; cbn; [tauto|].
  destruct (decide (candidateKey x ∈ seen)) as [Hin|Hout].
  - intros H. pose proof (uniqueCandidatesFrom_fresh _ _ _ H) as Hf.
    destruct (IH _ H) as (l1 & l2 & -> & Hn).
    exists (x :: l1), l2. split; [reflexivity|].
    cbn. intros [Hk|Hk]; [|contradiction]. rewrite Hk in Hin. contradiction.
  - intros [<-|H].
    + exists [], cs. split; [reflexivity|]. cbn. tauto.
    + pose proof (uniqueCandidatesFrom_fresh _ _ _ H) as Hf.
      destruct (IH _ H) as (l1 & l2 & -> & Hn).
      exists (x :: l1), l2. split; [reflexivity|].
      cbn. intros [Hk|Hk]; [|contradiction]. set_solver.
Qed.

(** X5.  The key of a candidate is made of its lower-cased name, its
    lower-cased class, its kind, its lower-cased source layer and the
    number of its lines, joined by bars.  [uniqueCandidates] keeps the
    candidates in their order and drops the rest: no two of the kept ones
    have the same key, so any two of them differ in one of these five; and
    a candidate is kept exactly when it stands at a place where no earlier
    candidate has its key. *)
Theorem uniqueCandidates_first_of_each_key (cs : list RoadCandidate) :
  let key := fun c : RoadCandidate =>
    (toLowerCase (name c) ++ "|" ++
     toLowerCase (className c) ++ "|" ++
     match kind c with lane => "lane" | street => "street" end ++ "|" ++
     toLowerCase (candidate_sourceLayer c) ++ "|" ++
     pretty (length (lines c)))%string in
  let kept := uniqueCandidates cs in
  NoDup (List.map key kept) /\
  sublist kept cs /\
  (forall i j c d, i <> j -> kept !! i = Some c -> kept !! j = Some d ->
     toLowerCase (name c) <> toLowerCase (name d) \/
     toLowerCase (className c) <> toLowerCase (className d) \/
     kind c <> kind d \/
     toLowerCase (candidate_sourceLayer c)
     <> toLowerCase (candidate_sourceLayer d) \/
     length (lines c) <> length (lines d)) /\
  (forall l1 c l2, cs = (l1 ++ c :: l2)%list ->
     ~ In (key c) (List.map key l1) -> In c kept) /\
  (forall c, In c kept ->
     exists l1 l2, cs = (l1 ++ c :: l2)%list /\
       ~ In (key c) (List.map key l1)).
Proof.
  cbv zeta. unfold uniqueCandidates.
  change (fun c : RoadCandidate =>
            (toLowerCase (name c) ++ "|" ++
             toLowerCase (className c) ++ "|" ++
             match kind c with lane => "lane" | street => "street" end ++
             "|" ++ toLowerCase (candidate_sourceLayer c) ++ "|" ++
             pretty (length (lines c)))%string)
    with candidateKey.
  pose proof (uniqueCandidatesFrom_NoDup ∅ cs) as Hnd.
  split; [exact Hnd|].
  split; [apply uniqueCandidatesFrom_sublist|].
  split; [|split].
  - intros i j c d Hij Hc Hd.
    assert (Hk : candidateKey c <> candidateKey d).
    { intros Hk. apply Hij.
      eapply NoDup_lookup; [exact Hnd| |].
      - change (List.map ?f ?l) with (f <$> l).
        rewrite list_lookup_fmap, Hc. reflexivity.
      - change (List.map ?f ?l) with (f <$> l).
        rewrite list_lookup_fmap, Hd. cbn. now rewrite Hk. }
    destruct (decide (toLowerCase (name c) = toLowerCase (name d)))
      as [E1|]; [|now left].
    destruct (decide (toLowerCase (className c) = toLowerCase (className d)))
      as [E2|]; [|right; now left].
    destruct (decide (kind c = kind d)) as [E3|]; [|right; right; now left].
    destruct (decide (toLowerCase (candidate_sourceLayer c)
                      = toLowerCase (candidate_sourceLayer d)))
      as [E4|]; [|right; right; right; now left].
    destruct (decide (length (lines c) = length (lines d)))
      as [E5|]; [|right; right; right; now right].
    exfalso. apply Hk. unfold candidateKey.
    now rewrite E1, E2, E3, E4, E5.
  - intros l1 c l2 -> Hn. apply uniqueCandidatesFrom_first; [|exact Hn].
    set_solver.
  - intros c. apply uniqueCandidatesFrom_is_first.
Qed.

Lemma extractLineCollections_lines geometry :
  Forall (fun line : list Position => (2 <= length line)%nat)
    (extractLineCollections geometry).
Proof.
  unfold extractLineCollections. destruct geometry as [coords|coords|].
  - cbv zeta. destruct (Nat.leb_spec 2 (length (normalizeLine coords))).
    + now repeat constructor.
    + constructor.
  - apply List.Forall_forall. intros l Hl. apply filter_In in Hl.
    destruct Hl as [_ Hl]. now apply Nat.leb_le in Hl.
  - constructor.
Qed.

(** What [toRoadCandidate] accepts: a line feature that is not a bike or
    pedestrian way, with at least one line, each of two points or more. *)
Lemma toRoadCandidate_accepts feature c :
  toRoadCandidate feature = Some c ->
  isLineGeometry (geometry feature) = true /\
  lines c = extractLineCollections (geometry feature) /\
  lines c <> [] /\
  Forall (fun line : list Position => (2 <= length line)%nat) (lines c) /\
  isBikeOrPedestrianWay (name c) (className c) (candidate_sourceLayer c)
  = false.
Proof.
  unfold toRoadCandidate.
  destruct (isLineGeometry (geometry feature)); [|discriminate].
  cbn [negb]. cbv zeta.
  destruct (negb (includesAny _ roadLikeWords)); [discriminate|].
  destruct (isBikeOrPedestrianWay _ _ _) eqn:Eb; [discriminate|].
  destruct (extractLineCollections (geometry feature)) as [|l ls] eqn:El;
    [discriminate|].
  cbn [length Nat.eqb]. intros [= <-]. cbn.
  split; [reflexivity|]. split; [reflexivity|]. split; [discriminate|].
  split; [|exact Eb]. rewrite <- El. apply extractLineCollections_lines.
Qed.

Lemma lineSegments_nonempty (line : list Position) :
  (2 <= length line)%nat -> lineSegments line <> [].
Proof. destruct line as [|a [|b rest]]; cbn; [lia|lia|discriminate]. Qed.

Lemma candidateSegments_nonempty c :
  lines c <> [] ->
  Forall (fun line : list Position => (2 <= length line)%nat) (lines c) ->
  candidateSegments c <> [].
Proof.
  unfold candidateSegments. destruct (lines c) as [|l ls]; [congruence|].
  intros _ H. apply Forall_cons in H. destruct H as [Hl _].
  cbn. pose proof (lineSegments_nonempty l Hl).
  destruct (lineSegments l); [congruence|discriminate].
Qed.

Lemma evaluate_candidate edge c :
  candidateSegments c <> [] ->
  exists ev, evaluateRoadCandidateForEdge host edge c = Some ev /\
             candidate ev = c.
Proof.
  intros H.
  destruct (foldl_keepBest_min
              (List.map (segmentMeasure host edge) (candidateSegments c)))
    as ([d o] & Hb & _).
  { destruct (candidateSegments c); [congruence|discriminate]. }
  unfold evaluateRoadCandidateForEdge. rewrite Hb. eexists.
  split; reflexivity.
Qed.

Lemma omap_evaluate edge (cs : list RoadCandidate) :
  Forall (fun c => candidateSegments c <> []) cs ->
  List.map candidate (omap (evaluateRoadCandidateForEdge host edge) cs) = cs.
Proof.
  induction 1 as [|c cs Hc _ IH]; [reflexivity|].
  destruct (evaluate_candidate edge c Hc) as (ev & He & Hcand).
  cbn [omap list_omap]. rewrite He. cbn. now rewrite Hcand, IH.
Qed.

Lemma queryRoadCandidates_accepted map edge :
  Forall (fun c =>
            exists feature,
              In feature
                (queryRenderedFeatures map (queryGeometry host map edge)) /\
              toRoadCandidate feature = Some c)
    (queryRoadCandidatesForEdge host map edge).
Proof.
  unfold queryRoadCandidatesForEdge. cbv zeta. apply List.Forall_forall.
  intros c Hc.
  assert (Hin : c ∈ omap toRoadCandidate
                  (queryRenderedFeatures map (queryGeometry host map edge))).
  { eapply elem_of_sublist; [apply list_elem_of_In, Hc|].
    apply uniqueCandidatesFrom_sublist. }
  apply list_elem_of_omap in Hin. destruct Hin as (f & Hf & Hfc).
  exists f. split; [now apply list_elem_of_In|exact Hfc].
Qed.

(** X6.  Every distinct road candidate found around an edge is evaluated:
    the candidates of the evaluated list are the candidates of the query,
    each once, and no two of them have the same key.  Each comes from a
    rendered line feature of the query window, is not a bike or pedestrian
    way, and has a line of two points or more. *)
Theorem findEvaluated_one_per_candidate (map : MapboxMap)
    (edge : EdgeAnalysis) :
  let candidates := queryRoadCandidatesForEdge host map edge in
  let evaluated := findEvaluatedRoadCandidatesForEdge host map edge in
  Permutation (List.map candidate evaluated) candidates /\
  length evaluated = length candidates /\
  NoDup (List.map candidateKey candidates) /\
  Forall (fun c =>
    (exists feature,
       In feature (queryRenderedFeatures map (queryGeometry host map edge)) /\
       isLineGeometry (geometry feature) = true /\
       toRoadCandidate feature = Some c) /\
    isBikeOrPedestrianWay (name c) (className c) (candidate_sourceLayer c)
    = false /\
    candidateSegments c <> []) candidates.
Proof.
  cbv zeta.
  assert (Hall : Forall (fun c =>
    (exists feature,
       In feature (queryRenderedFeatures map (queryGeometry host map edge)) /\
       isLineGeometry (geometry feature) = true /\
       toRoadCandidate feature = Some c) /\
    isBikeOrPedestrianWay (name c) (className c) (candidate_sourceLayer c)
    = false /\
    candidateSegments c <> []) (queryRoadCandidatesForEdge host map edge)).
  { eapply Forall_impl; [apply queryRoadCandidates_accepted|].
    intros c (f & Hf & Hc).
    destruct (toRoadCandidate_accepts f c Hc) as (Hg & _ & Hne & Hl & Hb).
    split; [now exists f|]. split; [exact Hb|].
    now apply candidateSegments_nonempty. }
  assert (Hperm : Permutation
            (List.map candidate
               (findEvaluatedRoadCandidatesForEdge host map edge))
            (queryRoadCandidatesForEdge host map edge)).
  { unfold findEvaluatedRoadCandidatesForEdge. cbv zeta.
    set (cs := queryRoadCandidatesForEdge host map edge) in *. clearbody cs.
    destruct cs as [|c cs]; [reflexivity|]. cbn [length Nat.eqb].
    rewrite <- (omap_evaluate edge (c :: cs)) at 2.
    - apply Permutation_map, sortWith_Permutation.
    - eapply Forall_impl; [exact Hall|]. cbn. tauto. }
  split; [exact Hperm|].
  split; [rewrite <- (length_map candidate); now apply Permutation_length|].
  split; [apply uniqueCandidatesFrom_NoDup|exact Hall].
Qed.

End Candidates.

(** ** The viewport index, built and queried *)

Module ViewportRoundTrip.
Import ViewportIndex.
Local Open Scope Q_scope.

(** The key of the cell of a parcel. *)
Lemma bucket_step (cells0 : gmap string (list ParcelFeature)) key q k p :
  p ∈ default [] (match cells0 !! key with
                  | Some current => <[key := (current ++ [q])%list]> cells0
                  | None => <[key := [q]]> cells0
                  end !! k)
  <-> p ∈ default [] (cells0 !! k) \/ (p = q /\ key = k).
Proof.
  destruct (decide (key = k)) as [<-|Hne].
  - destruct (cells0 !! key) as [cur|] eqn:E; rewrite lookup_insert_eq; cbn.
    + rewrite elem_of_app, list_elem_of_singleton. tauto.
    + rewrite list_elem_of_singleton, elem_of_nil. tauto.
  - destruct (cells0 !! key) as [cur|] eqn:E;
      rewrite lookup_insert_ne by exact Hne; tauto.
Qed.

Lemma build_bucket (parcels : list ParcelFeature) (cellSize : Q) k p :
  p ∈ default [] (cells (buildParcelViewportIndex parcels cellSize) !! k)
  <-> p ∈ parcels /\
      cellKey (cellIndex (lon (properties p)) cellSize)
              (cellIndex (lat (properties p)) cellSize) = k.
Proof.
  unfold buildParcelViewportIndex. cbn [cells].
  assert (H : forall cells0 : gmap string (list ParcelFeature),
    p ∈ default []
          (foldl (fun (cells : gmap string (list ParcelFeature)) parcel =>
                    let x := cellIndex (lon (properties parcel)) cellSize in
                    let y := cellIndex (lat (properties parcel)) cellSize in
                    let key := cellKey x y in
                    match cells !! key with
                    | Some current =>
                        <[key := (current ++ [parcel])%list]> cells
                    | None => <[key := [parcel]]> cells
                    end) cells0 parcels !! k)
    <-> p ∈ default [] (cells0 !! k) \/
        (p ∈ parcels /\
         cellKey (cellIndex (lon (properties p)) cellSize)
                 (cellIndex (lat (properties p)) cellSize) = k)).
  { induction parcels as [|q parcels IH]; intros cells0; cbn [foldl].
    - rewrite elem_of_nil. tauto.
    - rewrite IH. cbv zeta. rewrite bucket_step, elem_of_cons.
      split.
      + intros [[H|[-> H]]|[H1 H2]]; auto.
      + intros [H|[[->|H1] H2]]; auto. }
  rewrite H, lookup_empty. cbn. rewrite elem_of_nil. tauto.
Qed.

Lemma cellIndex_mono (a b cellSize : Q) :
  0 < cellSize -> a <= b -> (cellIndex a cellSize <= cellIndex b cellSize)%Z.
Proof.
  intros Hc Hab. unfold cellIndex, Math_floor. apply Qfloor_resp_le.
  unfold Qdiv. apply Qmult_le_compat_r; [exact Hab|].
  apply Qlt_le_weak, Qinv_lt_0_compat, Hc.
Qed.

Lemma elem_of_cellRange lo hi x : x ∈ cellRange lo hi <-> (lo <= x <= hi)%Z.
Proof. unfold cellRange. rewrite elem_of_seqZ. lia. Qed.

Lemma inPaddedBox_insideBox box p : inPaddedBox box p -> insideBox box p = true.
Proof.
  unfold insideBox, inPaddedBox. intros (H1 & H2 & H3 & H4).
  apply negb_true_iff.
  rewrite (proj2 (Qltb_ge _ _) H1), (proj2 (Qltb_ge _ _) H2),
    (proj2 (Qltb_ge _ _) H3), (proj2 (Qltb_ge _ _) H4).
  reflexivity.
Qed.

Lemma selectInBox_build (parcels : list ParcelFeature) (cellSize : Q) box p :
  0 < cellSize ->
  p ∈ selectInBox (buildParcelViewportIndex parcels cellSize) box
  <-> p ∈ parcels /\ inPaddedBox box p.
Proof.
  intros Hc. split.
  - intros H. split; [|now apply (ViewportFacts.selectInBox_inside _ _ _ H)].
    unfold selectInBox in H.
    apply list_elem_of_bind in H. destruct H as (x & H & _).
    apply list_elem_of_bind in H. destruct H as (y & H & _).
    apply list_elem_of_In, filter_In in H. destruct H as [H _].
    apply list_elem_of_In, build_bucket in H. tauto.
  - intros [Hp Hbox]. unfold selectInBox. cbv zeta.
    destruct Hbox as (H1 & H2 & H3 & H4).
    apply list_elem_of_bind.
    exists (cellIndex (lon (properties p)) cellSize). split.
    + apply list_elem_of_bind.
      exists (cellIndex (lat (properties p)) cellSize). split.
      * apply list_elem_of_In, filter_In. split.
        -- apply list_elem_of_In, build_bucket. now split.
        -- apply inPaddedBox_insideBox. repeat split; assumption.
      * apply elem_of_cellRange. cbn [cellSizeDeg buildParcelViewportIndex].
        split; apply cellIndex_mono; assumption.
    + apply elem_of_cellRange. cbn [cellSizeDeg buildParcelViewportIndex].
      split; apply cellIndex_mono; assumption.
Qed.

(** X7.  With a cell size above zero, a query without a cap over the index
    built of a list of parcels returns exactly the parcels of the list
    whose reference point is in the padded box. *)
Theorem queryParcelsInBounds_finds_indexed (parcels : list ParcelFeature)
    (cellSize : Q) (bounds : BoundsLike) (ratio : option Q)
    (c : option Position) (p : ParcelFeature) (H : 0 < cellSize) :
  p ∈ queryParcelsInBounds (buildParcelViewportIndex parcels cellSize) bounds
        {| paddingRatio := ratio; maxFeatures := None; center := c |}
  <-> p ∈ parcels /\
      inPaddedBox (paddedBox bounds (default (22 # 100) ratio)) p.
Proof.
  unfold queryParcelsInBounds. cbn [paddingRatio maxFeatures].
  now apply selectInBox_build.
Qed.

End ViewportRoundTrip.

(** The parcel at 10 m is found in the viewport around the three parcels. *)
Lemma queryParcelsInBounds_finds_indexed_witness :
  (0 < ViewportIndex.DEFAULT_CELL_SIZE_DEG)%Q /\
  ViewportScenario.parcelAt "a" 10
  ∈ ViewportIndex.queryParcelsInBounds ViewportScenario.threeParcels
      ViewportScenario.viewport
      {| ViewportIndex.paddingRatio := None;
         ViewportIndex.maxFeatures := None;
         ViewportIndex.center := None |}.
Proof.
  split; [reflexivity|].
  apply (ViewportRoundTrip.queryParcelsInBounds_finds_indexed
           [ViewportScenario.parcelAt "a" 10; ViewportScenario.parcelAt "b" 20;
            ViewportScenario.parcelAt "c" 30]
           ViewportIndex.DEFAULT_CELL_SIZE_DEG); [reflexivity|].
  split; [apply list_elem_of_here|].
  vm_compute. repeat split; discriminate.
Defined.

(** ** The rendered parcels of the viewport *)

Module RenderedParcelsFacts.
Import ViewportIndex RenderedParcels.
Local Open Scope Q_scope.

Lemma sameIds_spec (a b : list ParcelFeature) :
  length a = length b ->
  sameIds a b = true
  <-> List.map (fun p => parcel_id (properties p)) a
      = List.map (fun p => parcel_id (properties p)) b.
Proof.
  revert b. induction a as [|x a IH]; intros [|y b] Hl; try discriminate.
  - cbn. tauto.
  - cbn in Hl. injection Hl as Hl. cbn [sameIds List.map].
    rewrite andb_true_iff, String.eqb_eq, (IH b Hl).
    split; [intros [-> ->]; reflexivity|intros [= -> ->]; now split].
Qed.

Lemma sameParcelIdOrder_spec (a b : list ParcelFeature) :
  sameParcelIdOrder a b = true
  <-> List.map (fun p => parcel_id (properties p)) a
      = List.map (fun p => parcel_id (properties p)) b.
Proof.
  unfold sameParcelIdOrder.
  destruct (Nat.eqb_spec (length a) (length b)) as [Hl|Hl]; cbn [negb].
  - now apply sameIds_spec.
  - split; [discriminate|]. intros H. exfalso. apply Hl.
    rewrite <- (length_map (fun p => parcel_id (properties p)) a), H.
    apply length_map.
Qed.

Lemma sameParcelIdOrder_refl (a : list ParcelFeature) :
  sameParcelIdOrder a a = true.
Proof. now apply sameParcelIdOrder_spec. Qed.

(** Replacing the state by [next] unless the ids agree. *)
Lemma keep_or_replace_ids (current next : list ParcelFeature) :
  List.map (fun p => parcel_id (properties p))
    (if sameParcelIdOrder current next then current else next)
  = List.map (fun p => parcel_id (properties p)) next.
Proof.
  destruct (sameParcelIdOrder current next) eqn:E; [|reflexivity].
  now apply sameParcelIdOrder_spec.
Qed.

Lemma keep_or_replace_again (current next : list ParcelFeature) :
  let shown := if sameParcelIdOrder current next then current else next in
  (if sameParcelIdOrder shown next then shown else next) = shown.
Proof.
  cbv zeta. destruct (sameParcelIdOrder current next) eqn:E.
  - now rewrite E.
  - now rewrite sameParcelIdOrder_refl.
Qed.

Lemma sliceFromZero_4500 {A : Type} (l : list A) :
  sliceFromZero l 4500 = take (Z.to_nat 4500) l.
Proof.
  unfold sliceFromZero. cbv zeta.
  change (Qtrunc 4500) with 4500%Z. cbn [Z.ltb Z.compare].
  destruct (Z.le_ge_cases 4500 (Z.of_nat (length l))) as [Hle|Hge].
  - now rewrite Z.min_l.
  - rewrite Z.min_r, Nat2Z.id by exact Hge.
    rewrite firstn_all. symmetry. apply take_ge. lia.
Qed.

(** X8.  [update] keeps the rendered parcels as they are unless the ids
    change.  It aims at a list: the first 4500 parcels without a map, the
    parcels of the viewport query (padding 0.24, the cap of the zoom, the
    center of the map) with a map that has bounds.  When the current list
    has the ids of that list in the same order, the current list itself
    stays; otherwise that list replaces it.  A map without bounds leaves
    the current list, and no parcels leave none.  So after [update] the ids
    are those of the list aimed at, and a second update with the same
    arguments changes nothing.  [sameParcelIdOrder] holds exactly of two
    lists with the same ids in the same order. *)
Theorem update_replaces_on_new_ids (parcels : list ParcelFeature)
    (map : option MapView) (current : list ParcelFeature) :
  let ids := List.map (fun p : ParcelFeature => parcel_id (properties p)) in
  let target :=
    match map with
    | None => Some (take (Z.to_nat 4500) parcels)
    | Some m =>
        match view_bounds m with
        | None => None
        | Some bounds =>
            Some (queryParcelsInBounds
                    (buildParcelViewportIndex parcels (5 # 1000)) bounds
                    {| paddingRatio := Some (24 # 100);
                       maxFeatures := Some (maxParcelsForZoom (view_zoom m));
                       center := Some (view_center m) |})
        end
    end in
  (forall a b, sameParcelIdOrder a b = true <-> ids a = ids b) /\
  update parcels map (update parcels map current)
  = update parcels map current /\
  (parcels = [] -> update parcels map current = []) /\
  (parcels <> [] ->
   forall next, target = Some next ->
     (ids current = ids next -> update parcels map current = current) /\
     (ids current <> ids next -> update parcels map current = next)) /\
  (parcels <> [] -> target = None -> update parcels map current = current) /\
  (map = None ->
   ids (update parcels map current) = take (Z.to_nat 4500) (ids parcels)).
Proof.
  cbv zeta.
  assert (Hkeep : forall next,
            (List.map (fun p : ParcelFeature => parcel_id (properties p))
               current
             = List.map (fun p : ParcelFeature => parcel_id (properties p))
                 next ->
             (if sameParcelIdOrder current next then current else next)
             = current) /\
            (List.map (fun p : ParcelFeature => parcel_id (properties p))
               current
             <> List.map (fun p : ParcelFeature => parcel_id (properties p))
                  next ->
             (if sameParcelIdOrder current next then current else next)
             = next)).
  { intros next. pose proof (sameParcelIdOrder_spec current next) as Hs.
    destruct (sameParcelIdOrder current next).
    - split; [reflexivity|]. intros Hne. exfalso. now apply Hne, Hs.
    - split; [|reflexivity]. intros He. apply Hs in He. discriminate. }
  split; [apply sameParcelIdOrder_spec|]. split; [|split; [|split; [|split]]].
  - unfold update. destruct (length parcels =? 0)%nat; [reflexivity|].
    destruct map as [m|].
    + destruct (view_bounds m) as [bounds|]; [|reflexivity].
      apply keep_or_replace_again.
    + apply keep_or_replace_again.
  - intros ->. reflexivity.
  - intros Hne next Ht. unfold update.
    destruct (Nat.eqb_spec (length parcels) 0) as [Hz|_];
      [destruct parcels; [congruence|discriminate]|].
    destruct map as [m|].
    + destruct (view_bounds m) as [bounds|]; [|discriminate].
      injection Ht as <-. apply Hkeep.
    + injection Ht as <-. cbv zeta. rewrite sliceFromZero_4500. apply Hkeep.
  - intros Hne Ht. unfold update.
    destruct (Nat.eqb_spec (length parcels) 0) as [Hz|_];
      [destruct parcels; [congruence|discriminate]|].
    destruct map as [m|]; [|discriminate].
    destruct (view_bounds m) as [bounds|]; [discriminate|reflexivity].
  - intros ->. unfold update.
    destruct (Nat.eqb_spec (length parcels) 0) as [Hz|Hnz].
    + destruct parcels; [|discriminate]. cbn [List.map].
      now rewrite take_nil.
    + cbv zeta. rewrite keep_or_replace_ids, sliceFromZero_4500.
      change (List.map ?f ?l) with (f <$> l). now rewrite fmap_take.
Qed.

Lemma maxParcelsForZoom_cases (zoom : Q) :
  exists n : Z, maxParcelsForZoom zoom = inject_Z n /\
                (2800 <= n <= 22000)%Z.
Proof.
  unfold maxParcelsForZoom.
  destruct (Qltb zoom 11); [exists 2800%Z; split; [reflexivity|lia]|].
  destruct (Qltb zoom 12); [exists 5000%Z; split; [reflexivity|lia]|].
  destruct (Qltb zoom 13); [exists 8000%Z; split; [reflexivity|lia]|].
  destruct (Qltb zoom 14); [exists 12000%Z; split; [reflexivity|lia]|].
  exists 22000%Z; split; [reflexivity|lia].
Qed.

Lemma maxParcelsForZoom_mono (z1 z2 : Q) :
  z1 <= z2 -> maxParcelsForZoom z1 <= maxParcelsForZoom z2.
Proof.
  intros H. unfold maxParcelsForZoom.
  repeat match goal with
         | |- context [Qltb ?a ?b] =>
             let E := fresh "E" in
             destruct (Qltb a b) eqn:E;
             [apply Qltb_lt in E|apply Qltb_ge in E]
         end; try lra; try discriminate.
Qed.

Lemma Qtrunc_inject_Z (n : Z) : Qtrunc (inject_Z n) = n.
Proof. unfold Qtrunc. cbn. apply Z.quot_1_r. Qed.

Lemma StronglySorted_app_elem {A : Type} (R : A -> A -> Prop)
    (l1 l2 : list A) x1 x2 :
  StronglySorted R (l1 ++ l2) -> x1 ∈ l1 -> x2 ∈ l2 -> R x1 x2.
Proof.
  induction l1 as [|y l1 IH]; intros Hs H1 H2.
  - now apply elem_of_nil in H1.
  - cbn in Hs. apply StronglySorted_inv in Hs. destruct Hs as [Hs Hy].
    apply elem_of_cons in H1. destruct H1 as [->|H1]; [|now apply IH].
    apply (proj1 (List.Forall_forall _ _) Hy), list_elem_of_In, elem_of_app.
    now right.
Qed.

(** The query, capped by a whole number above zero. *)
Lemma queryParcelsInBounds_capped index bounds ratio (n : Z) c :
  (0 < n)%Z ->
  let box := paddedBox bounds (default (22 # 100) ratio) in
  let selected := selectInBox index box in
  let next :=
    queryParcelsInBounds index bounds
      {| paddingRatio := ratio; maxFeatures := Some (inject_Z n);
         center := c |} in
  Z.of_nat (length next) = Z.min n (Z.of_nat (length selected)) /\
  (forall p, p ∈ next -> p ∈ selected) /\
  ((Z.of_nat (length selected) <= n)%Z -> next = selected) /\
  ((n < Z.of_nat (length selected))%Z ->
   StronglySorted (nearerTo (queryCenter box c)) next /\
   forall p q, p ∈ next -> q ∈ selected -> ~ q ∈ next ->
     nearerTo (queryCenter box c) p q).
Proof.
  intros Hn. cbv zeta. unfold queryParcelsInBounds.
  cbn [paddingRatio maxFeatures center].
  set (box := paddedBox bounds (default (22 # 100) ratio)).
  set (selected := selectInBox index box). clearbody selected.
  set (cen := queryCenter box c). clearbody cen.
  pose proof (sortWith_Permutation (compareByDistance cen) selected) as Hperm.
  pose proof (sortWith_length (compareByDistance cen) selected) as Hlen.
  pose proof (ViewportFacts.sortWith_nearerTo cen selected) as Hsorted.
  set (sorted := sortWith (compareByDistance cen) selected) in *.
  clearbody sorted.
  destruct (Qleb _ (inject_Z n)) eqn:E.
  - apply Qleb_le in E. rewrite <- Zle_Qle in E.
    split; [lia|]. split; [tauto|]. split; [reflexivity|lia].
  - apply Qleb_gt in E. rewrite <- Zlt_Qlt in E.
    unfold sliceFromZero. cbv zeta. rewrite Qtrunc_inject_Z.
    destruct (Z.ltb_spec n 0) as [Hneg|_]; [lia|].
    rewrite Hlen, Z.min_l by lia.
    split; [rewrite length_take; lia|]. split; [|split; [lia|]].
    + intros p Hp. rewrite <- Hperm. apply elem_of_take in Hp.
      destruct Hp as (i & Hp & _). eapply list_elem_of_lookup_2, Hp.
    + intros _. split; [now apply ViewportFacts.StronglySorted_take|].
      intros p q Hp Hq Hnq.
      rewrite <- (take_drop (Z.to_nat n) sorted) in Hsorted.
      eapply StronglySorted_app_elem; [exact Hsorted|exact Hp|].
      rewrite <- Hperm, <- (take_drop (Z.to_nat n) sorted) in Hq.
      apply elem_of_app in Hq. tauto.
Qed.

(** X9.  With a cap that is a whole number above zero, the query returns
    as many parcels as the cap allows: all the parcels of the query without
    the cap when they are not more than the cap, and else exactly as many
    as the cap, in ascending order of squared distance to the center (the
    supplied one or else the center of the padded box), each of them at
    most as far from the center as any parcel that is left out. *)
Theorem queryParcelsInBounds_keeps_nearest (index : ParcelViewportIndex)
    (bounds : BoundsLike) (options : QueryParcelsOptions) (n : Z)
    (H : (0 < n)%Z) (Hcap : maxFeatures options = Some (inject_Z n)) :
  let ratio := default (22 # 100) (paddingRatio options) in
  let lonSpan := Math_max 0 (getEast bounds - getWest bounds) in
  let latSpan := Math_max 0 (getNorth bounds - getSouth bounds) in
  let west := getWest bounds - lonSpan * ratio in
  let east := getEast bounds + lonSpan * ratio in
  let south := getSouth bounds - latSpan * ratio in
  let north := getNorth bounds + latSpan * ratio in
  let c := default ((west + east) / 2, (south + north) / 2)
                   (center options) in
  let distanceSqTo := fun p : ParcelFeature =>
    (lon (properties p) - fst c) * (lon (properties p) - fst c) +
    (lat (properties p) - snd c) * (lat (properties p) - snd c) in
  let selected :=
    queryParcelsInBounds index bounds
      {| paddingRatio := paddingRatio options; maxFeatures := None;
         center := center options |} in
  let next := queryParcelsInBounds index bounds options in
  Z.of_nat (length next) = Z.min n (Z.of_nat (length selected)) /\
  (forall p, p ∈ next -> p ∈ selected) /\
  ((Z.of_nat (length selected) <= n)%Z -> next = selected) /\
  ((n < Z.of_nat (length selected))%Z ->
   (forall i j p q, (i < j)%nat ->
      next !! i = Some p -> next !! j = Some q ->
      distanceSqTo p <= distanceSqTo q) /\
   forall p q, p ∈ next -> q ∈ selected -> ~ q ∈ next ->
     distanceSqTo p <= distanceSqTo q).
Proof.
  destruct options as [ratio cap c]. cbn [maxFeatures] in Hcap. subst cap.
  cbn [paddingRatio center]. cbv zeta.
  destruct (queryParcelsInBounds_capped index bounds ratio n c H)
    as (Hlen & Hsub & Hall & Hcapped).
  split; [exact Hlen|]. split; [exact Hsub|]. split; [exact Hall|].
  intros Hlt. destruct (Hcapped Hlt) as [Hsorted Hnear].
  split.
  - intros i j p q Hij Hp Hq.
    exact (ViewportFacts.StronglySorted_lookup_lt _ _ i j p q Hsorted
             Hij Hp Hq).
  - intros p q Hp Hq Hnq. exact (Hnear p q Hp Hq Hnq).
Qed.

(** X10.  With a map that has bounds, [update] leaves as rendered parcels
    the ids of the query over the index of the parcels, with a padding of
    0.24 and the cap of the zoom: parcels of the list with their reference
    point in the padded box, never more than the cap, which is between
    2800 and 22000 and does not decrease with the zoom; and every parcel of
    the box when the selection is not more than the cap. *)
Theorem update_shows_viewport (parcels : list ParcelFeature)
    (bounds : BoundsLike) (center : Position) (zoom : Q)
    (current : list ParcelFeature) :
  let m := {| view_bounds := Some bounds; view_center := center;
              view_zoom := zoom |} in
  let index := buildParcelViewportIndex parcels DEFAULT_CELL_SIZE_DEG in
  let next := nextRenderedParcels index bounds center zoom in
  let box := paddedBox bounds (24 # 100) in
  let shown := update parcels (Some m) current in
  List.map (fun p => parcel_id (properties p)) shown
  = List.map (fun p => parcel_id (properties p)) next /\
  (forall p, p ∈ next -> p ∈ parcels /\ inPaddedBox box p) /\
  inject_Z (Z.of_nat (length shown)) <= maxParcelsForZoom zoom /\
  2800 <= maxParcelsForZoom zoom <= 22000 /\
  (forall zoom', zoom <= zoom' ->
     maxParcelsForZoom zoom <= maxParcelsForZoom zoom') /\
  (inject_Z (Z.of_nat (length (selectInBox index box)))
   <= maxParcelsForZoom zoom ->
   forall p, p ∈ parcels -> inPaddedBox box p -> p ∈ next).
Proof.
  cbv zeta.
  destruct (maxParcelsForZoom_cases zoom) as (n & Hcap & Hn).
  assert (Hpos : (0 < n)%Z) by lia.
  pose proof (queryParcelsInBounds_capped
                (buildParcelViewportIndex parcels DEFAULT_CELL_SIZE_DEG)
                bounds (Some (24 # 100)) n (Some center) Hpos) as Hq.
  cbv zeta in Hq. cbn [default] in Hq.
  assert (Hbuild : forall p,
            p ∈ selectInBox
                  (buildParcelViewportIndex parcels DEFAULT_CELL_SIZE_DEG)
                  (paddedBox bounds (24 # 100))
            <-> p ∈ parcels /\ inPaddedBox (paddedBox bounds (24 # 100)) p).
  { intros p. now apply ViewportRoundTrip.selectInBox_build. }
  unfold nextRenderedParcels. rewrite Hcap.
  set (next := queryParcelsInBounds _ bounds _) in *.
  set (selected := selectInBox _ _) in *.
  destruct Hq as (Hlen & Hsub & Hall & _).
  assert (Hids : List.map (fun p => parcel_id (properties p))
                   (update parcels
                      (Some {| view_bounds := Some bounds;
                               view_center := center; view_zoom := zoom |})
                      current)
                 = List.map (fun p => parcel_id (properties p)) next).
  { unfold update. cbn [view_bounds view_center view_zoom].
    unfold nextRenderedParcels. rewrite Hcap. fold next.
    destruct (Nat.eqb_spec (length parcels) 0) as [Hz|Hnz];
      [|apply keep_or_replace_ids].
    destruct parcels; [|discriminate].
    destruct next as [|x next']; [reflexivity|].
    pose proof (proj1 (proj1 (Hbuild x) (Hsub x (list_elem_of_here _ _))))
      as Hx.
    now apply elem_of_nil in Hx. }
  split; [exact Hids|].
  split; [intros p Hp; now apply Hbuild, Hsub|].
  split.
  { rewrite <- (length_map (fun p => parcel_id (properties p))), Hids,
      length_map, <- Zle_Qle. lia. }
  split; [split; change 2800 with (inject_Z 2800);
          change 22000 with (inject_Z 22000); rewrite <- Zle_Qle; lia|].
  split; [intros zoom'; rewrite <- Hcap; apply maxParcelsForZoom_mono|].
  intros Hle p Hp Hbox. rewrite <- Zle_Qle in Hle. rewrite (Hall Hle).
  now apply Hbuild.
Qed.

End RenderedParcelsFacts.

(** With a cap of two, the two parcels nearest to the center of the box are
    returned of the three of the viewport. *)
Lemma queryParcelsInBounds_keeps_nearest_witness :
  (0 < 2)%Z /\
  Z.of_nat (length
    (ViewportIndex.queryParcelsInBounds ViewportScenario.threeParcels
       ViewportScenario.viewport
       {| ViewportIndex.paddingRatio := None;
          ViewportIndex.maxFeatures := Some (inject_Z 2);
          ViewportIndex.center := None |}))
  = Z.min 2 (Z.of_nat (length
      (ViewportIndex.queryParcelsInBounds ViewportScenario.threeParcels
         ViewportScenario.viewport
         {| ViewportIndex.paddingRatio := None;
            ViewportIndex.maxFeatures := None;
            ViewportIndex.center := None |}))).
Proof.
  split; [reflexivity|].
  exact (proj1 (RenderedParcelsFacts.queryParcelsInBounds_keeps_nearest
                  ViewportScenario.threeParcels ViewportScenario.viewport
                  {| ViewportIndex.paddingRatio := None;
                     ViewportIndex.maxFeatures := Some (inject_Z 2);
                     ViewportIndex.center := None |} 2 eq_refl eq_refl)).
Defined.

(** ** Flankage and side edges *)

Section FlankageEdges.
Context (host : Host).

(** The classified edge of a place, by the role of the place. *)
Lemma classifiedEdge_cases parcel (es : list EdgeAnalysis) em i e :
  indexed es -> es !! i = Some e ->
  let fi := stageFrontageIndex parcel es em in
  let oi := stageOppositeIndex host parcel es em in
  let df := stageDoubleFronting host parcel es em in
  let e' := classifiedEdge host parcel es em i e in
  (fi = Some i ->
   e' = stampFrontage host em (stagePrimaryStreet parcel) e) /\
  (oi = Some i -> forall c, df = Some c ->
   e' = stampEdge host Frontage c street e) /\
  (oi = Some i -> df = None -> e' = fst (stampRear host em e)) /\
  (fi <> Some i -> oi <> Some i ->
   e' = flankOne host em fi oi (stageBaseStreet host parcel es em)
          (stageRelaxedFlankage host parcel es em) e).
Proof.
  intros Hidx He. cbv zeta.
  destruct (stage_indices host parcel es em Hidx) as (_ & Hoi & _).
  pose proof (Hidx i e He) as Hi.
  unfold classifiedEdge.
  set (fi := stageFrontageIndex parcel es em) in *.
  set (oi := stageOppositeIndex host parcel es em) in *.
  set (df := stageDoubleFronting host parcel es em).
  set (base := stageBaseStreet host parcel es em).
  set (relaxed := stageRelaxedFlankage host parcel es em).
  set (nps := stagePrimaryStreet parcel).
  clearbody fi oi df base relaxed nps.
  assert (Hskip : forall x, index x = i ->
            (fi = Some i \/ oi = Some i) ->
            flankOne host em fi oi base relaxed x = x).
  { intros x Hx Hor. unfold flankOne.
    rewrite !(indexIs_place _ x i Hx).
    destruct Hor as [H|H]; rewrite (bool_decide_eq_true_2 _ H);
      rewrite ?orb_true_r; reflexivity. }
  split; [|split; [|split]].
  - intros Hfi.
    assert (Hno : oi <> Some i).
    { intros Ho. destruct (Hoi i Ho) as [_ Hne]. contradiction. }
    destruct (decide (fi = Some i)); [|contradiction].
    destruct (decide (oi = Some i)); [contradiction|].
    assert (E3 : match df with
                 | Some c => stampFrontage host em nps e
                 | None => stampFrontage host em nps e
                 end = stampFrontage host em nps e)
      by now destruct df.
    rewrite E3, Hskip; [| |now left].
    + now destruct df.
    + now rewrite index_stampFrontage.
  - intros Ho c ->.
    destruct (Hoi i Ho) as [_ Hne].
    destruct (decide (fi = Some i)); [contradiction|].
    destruct (decide (oi = Some i)); [|contradiction].
    rewrite Hskip; [reflexivity|exact Hi|now right].
  - intros Ho ->.
    destruct (Hoi i Ho) as [_ Hne].
    destruct (decide (fi = Some i)); [contradiction|].
    destruct (decide (oi = Some i)); [|contradiction].
    rewrite Hskip; [reflexivity|exact Hi|now right].
  - intros Hnf Hno.
    destruct (decide (fi = Some i)); [contradiction|].
    destruct (decide (oi = Some i)); [contradiction|].
    now destruct df.
Qed.

Lemma flankHit_index em fi oi base relaxed (e e' : EdgeAnalysis) :
  index e = index e' ->
  flankHit em fi oi base relaxed e = flankHit em fi oi base relaxed e'.
Proof. unfold flankHit, indexIs, matchesOf. now intros ->. Qed.

(** What the flankage loop stamps on an edge that it hits. *)
Lemma flankOne_hit em fi oi base relaxed e :
  flankHit em fi oi base relaxed e = true ->
  exists c,
    List.find (fun c =>
      isStreet c &&
      negb (isEmpty (normalizeStreetName (name (candidate c)))) &&
      negb (negb (isEmpty base) &&
            String.eqb (normalizeStreetName (name (candidate c))) base) &&
      (isAdjacent c ||
       (relaxed && isRelaxedStreetCandidateForMode c relaxFlankage)))
      (matchesOf em e) = Some c /\
    flankOne host em fi oi base relaxed e = stampEdge host Flankage c street e.
Proof.
  unfold flankHit, flankOne. intros H. apply andb_true_iff in H.
  destruct H as [H1 H2]. apply negb_true_iff in H1. rewrite H1.
  apply bool_decide_eq_true in H2. destruct H2 as [c Hc].
  exists c. split; [exact Hc|]. now rewrite Hc.
Qed.

Lemma filter_hit_pos {A : Type} (p : A -> bool) (l : list A) i x :
  l !! i = Some x -> p x = true -> (0 < length (List.filter p l))%nat.
Proof.
  intros Hl Hp.
  assert (Hin : In x (List.filter p l)).
  { apply filter_In. split; [|exact Hp].
    eapply list_elem_of_In, list_elem_of_lookup_2, Hl. }
  destruct (List.filter p l); [contradiction|cbn; lia].
Qed.

Lemma stageDoubleEdges_index parcel (es : list EdgeAnalysis) em :
  List.map index (stageDoubleEdges host parcel es em) = List.map index es.
Proof.
  unfold stageDoubleEdges, stageFrontageEdges.
  now rewrite map_index_stampDoubleFronting, map_index_stampFrontageAt.
Qed.

(** The street of the frontage, read off the result. *)
Lemma stageBaseStreet_result parcel (es : list EdgeAnalysis) em k f :
  indexed es ->
  stageFrontageIndex parcel es em = Some k ->
  edges (run_result (classifyEdges host parcel es em)) !! k = Some f ->
  stageBaseStreet host parcel es em
  = orElse (normalizeStreetName (roadName f)) (stagePrimaryStreet parcel).
Proof.
  intros Hidx Hk Hf. rewrite classifyEdges_lookup in Hf.
  destruct (es !! k) as [e0|] eqn:He0; [|discriminate].
  cbn in Hf. injection Hf as <-.
  destruct (classifiedEdge_cases parcel es em k e0 Hidx He0) as (Hc & _).
  cbv zeta in Hc. rewrite (Hc Hk).
  unfold stageBaseStreet, frontageStreetOf, edgeAt. rewrite Hk. cbn [mbind option_bind].
  unfold stageFrontageEdges. rewrite stampFrontageAt_lookup, He0, Hk.
  cbn. destruct (decide (Some k = Some k)); [reflexivity|contradiction].
Qed.

Lemma classifyEdges_flankage parcel (es : list EdgeAnalysis) em :
  indexed es -> Forall (fun e => type e = Side) es ->
  let run := classifyEdges host parcel es em in
  forall i e, edges (run_result run) !! i = Some e ->
    (type e = Flankage ->
     run_frontageIndex run <> Some i /\ run_oppositeIndex run <> Some i /\
     isRoadAdjacent e = true /\ roadKind e = Some street /\
     isEmpty (normalizeStreetName (roadName e)) = false /\
     normalizeStreetName (roadName e) <> stageBaseStreet host parcel es em /\
     exists c,
       In c (matchesOf em e) /\ kind (candidate c) = street /\
       roadName e = name (candidate c) /\
       roadDistanceMeters e = Some (distanceMeters c) /\
       edge_orientationDiffDeg e = Some (orientationDiffDeg c) /\
       (isAdjacent c = true \/
        (run_usedRelaxedFlankage run = true /\
         isRelaxedStreetCandidateForMode c relaxFlankage = true))) /\
    (type e = Side -> es !! i = Some e).
Proof.
  intros Hidx Hside. cbv zeta. intros i e' He'.
  pose proof (classifyEdges_lookup host parcel es em i) as Hl.
  destruct (classifyEdges_stages host parcel es em)
    as (Efi & Eoi & _ & _ & _ & _ & Eur).
  rewrite flankagePass_map in Eur. cbn [snd] in Eur.
  fold (stageRelaxedFlankage host parcel es em) in Eur.
  set (run := classifyEdges host parcel es em) in *. clearbody run.
  rewrite Hl in He'. rewrite Efi, Eoi, Eur. clear Hl Efi Eoi Eur run.
  destruct (es !! i) as [e|] eqn:He; [|discriminate]. cbn in He'.
  injection He' as <-.
  pose proof (proj1 (Forall_lookup _ _) Hside i e He) as Hs. cbn in Hs.
  pose proof (Hidx i e He) as Hi.
  destruct (classifiedEdge_type host parcel es em i e Hidx He Hs)
    as (Hf & Hd & Hr & Ho).
  destruct (classifiedEdge_cases parcel es em i e Hidx He)
    as (_ & _ & _ & Hc).
  assert (Hde : exists x, stageDoubleEdges host parcel es em !! i = Some x /\
                          index x = index e).
  { destruct (same_indices_lookup (stageDoubleEdges host parcel es em) es i e)
      as (x & Hx & Hxi); [|exact He|].
    - symmetry. apply stageDoubleEdges_index.
    - now exists x. }
  set (des := stageDoubleEdges host parcel es em) in *. clearbody des.
  set (e' := classifiedEdge host parcel es em i e) in *. clearbody e'.
  set (base := stageBaseStreet host parcel es em) in *.
  set (relaxed := stageRelaxedFlankage host parcel es em) in *.
  set (fi := stageFrontageIndex parcel es em) in *.
  set (oi := stageOppositeIndex host parcel es em) in *.
  set (df := stageDoubleFronting host parcel es em) in *.
  clearbody fi oi df base relaxed.
  assert (Hrole : type e' = Flankage \/ type e' = Side ->
            fi <> Some i /\ oi <> Some i).
  { intros Ht. split.
    - intros Hfi. rewrite (Hf Hfi) in Ht. destruct Ht; discriminate.
    - intros Hoi. destruct df as [c|].
      + rewrite (Hd Hoi ltac:(now exists c)) in Ht. destruct Ht; discriminate.
      + destruct (Hr Hoi eq_refl) as [H|H]; rewrite H in Ht;
          destruct Ht; discriminate. }
  split.
  - intros Ht. destruct (Hrole (or_introl Ht)) as [Hnf Hno].
    split; [exact Hnf|]. split; [exact Hno|].
    specialize (Ho Hnf Hno). specialize (Hc Hnf Hno).
    destruct (flankHit em fi oi base relaxed e) eqn:Ehit;
      [|rewrite Ho in Ht; discriminate].
    destruct (flankOne_hit em fi oi base relaxed e Ehit) as (c & Hfind & Hst).
    rewrite Hst in Hc. clear Hst Ho Hf Hd Hr Hrole.
    apply find_some in Hfind. destruct Hfind as [Hin Hp].
    apply andb_true_iff in Hp. destruct Hp as [Hp Hadj].
    apply andb_true_iff in Hp. destruct Hp as [Hp Hdiff].
    apply andb_true_iff in Hp. destruct Hp as [Hst Hne].
    apply negb_true_iff in Hne. apply bool_decide_eq_true in Hst.
    rewrite Hc.
    change (matchesOf em (stampEdge host Flankage c street e))
      with (matchesOf em e).
    change (roadName (stampEdge host Flankage c street e))
      with (name (candidate c)).
    change (roadDistanceMeters (stampEdge host Flankage c street e))
      with (Some (distanceMeters c)).
    change (edge_orientationDiffDeg (stampEdge host Flankage c street e))
      with (Some (orientationDiffDeg c)).
    split; [reflexivity|]. split; [reflexivity|]. split; [exact Hne|].
    split.
    { intros Heq. rewrite Heq in Hne, Hdiff.
      rewrite Hne, String.eqb_refl in Hdiff. discriminate. }
    exists c. split; [exact Hin|]. split; [exact Hst|].
    split; [reflexivity|]. split; [reflexivity|]. split; [reflexivity|].
    destruct (isAdjacent c); [now left|right]. cbn [orb] in Hadj.
    apply andb_true_iff in Hadj. destruct Hadj as [-> Hrel].
    split; [|exact Hrel]. cbn [andb]. apply Nat.ltb_lt.
    destruct Hde as (x & Hx & Hxi).
    eapply filter_hit_pos; [exact Hx|].
    now rewrite (flankHit_index em fi oi base true x e Hxi).
  - intros Ht. destruct (Hrole (or_intror Ht)) as [Hnf Hno].
    specialize (Ho Hnf Hno). specialize (Hc Hnf Hno).
    destruct (flankHit em fi oi base relaxed e) eqn:Ehit;
      [rewrite Ho in Ht; discriminate|].
    rewrite Hc. f_equal. symmetry. now apply flankOne_no_hit.
Qed.

(** X11.  An edge that the analysis returns as flankage is neither the
    frontage nor the opposite edge; it is marked adjacent to a street, read
    from one of the street candidates of that edge, whose normalized name
    is not empty and differs from the street of the frontage (the
    normalized road name of the frontage edge, or else the normalized
    primary street).  That candidate is adjacent, unless the relaxed
    flankage pass was used and it is within the relaxed limits.  An edge
    returned as a side edge is as the first loop left it. *)
Theorem analyzeParcel_flankage_edges (parcel : ParcelFeature)
    (map : option MapboxMap) :
  let run := analyzeParcelRun host parcel map in
  let result := analyzeParcel host parcel map in
  forall i e, edges result !! i = Some e ->
    (type e = Flankage ->
     run_frontageIndex run <> Some i /\ run_oppositeIndex run <> Some i /\
     isRoadAdjacent e = true /\ roadKind e = Some street /\
     isEmpty (normalizeStreetName (roadName e)) = false /\
     (forall k f, run_frontageIndex run = Some k ->
        edges result !! k = Some f ->
        normalizeStreetName (roadName e)
        <> orElse (normalizeStreetName (roadName f))
             (normalizeStreetName (primaryStreet result))) /\
     exists c,
       In c (matchesOf (run_edgeMatches run) e) /\
       kind (candidate c) = street /\
       roadName e = name (candidate c) /\
       roadDistanceMeters e = Some (distanceMeters c) /\
       edge_orientationDiffDeg e = Some (orientationDiffDeg c) /\
       (isAdjacent c = true \/
        (run_usedRelaxedFlankage run = true /\
         isRelaxedStreetCandidateForMode c relaxFlankage = true))) /\
    (type e = Side -> fst (firstLoop host parcel map) !! i = Some e).
Proof.
  cbv zeta. unfold analyzeParcel. rewrite analyzeParcelRun_firstLoop.
  pose proof (firstLoop_indexed host parcel map) as Hidx.
  pose proof (firstLoop_side host parcel map) as Hside.
  set (es0 := fst (firstLoop host parcel map)) in *.
  set (em := snd (firstLoop host parcel map)) in *.
  clearbody es0 em.
  pose proof (classifyEdges_flankage parcel es0 em Hidx Hside) as Hfl.
  pose proof (fun k f => stageBaseStreet_result parcel es0 em k f Hidx)
    as Hbase.
  destruct (classifyEdges_stages host parcel es0 em) as (Efi & _).
  assert (Eem : run_edgeMatches (classifyEdges host parcel es0 em) = em)
    by reflexivity.
  assert (Eps : normalizeStreetName
                  (primaryStreet (run_result
                                    (classifyEdges host parcel es0 em)))
                = stagePrimaryStreet parcel) by reflexivity.
  cbv zeta in Hfl.
  set (run := classifyEdges host parcel es0 em) in *. clearbody run.
  rewrite Eem, Eps. intros i e He.
  destruct (Hfl i e He) as [H1 H2]. split; [|exact H2].
  intros Ht. destruct (H1 Ht) as (A & B & C & D & E & F & G).
  split; [exact A|]. split; [exact B|]. split; [exact C|].
  split; [exact D|]. split; [exact E|]. split; [|exact G].
  intros k f Hk Hf. rewrite Efi in Hk. rewrite <- (Hbase k f Hk Hf).
  exact F.
Qed.

End FlankageEdges.

(** ** The lot type and the types of the edges *)

Section LotAndEdges.
Context (host : Host).

Lemma find_is_Some {A : Type} (p : A -> bool) (l : list A) x :
  In x l -> p x = true -> is_Some (List.find p l).
Proof.
  intros Hin Hp. destruct (List.find p l) as [y|] eqn:E; [now exists y|].
  pose proof (find_none p l E x Hin). congruence.
Qed.

Lemma head_In {A : Type} (l : list A) x : head l = Some x -> In x l.
Proof. destruct l; [discriminate|]. intros [= ->]. now left. Qed.

(** The match that the first loop writes on an edge is one of its
    matches. *)
Lemma stampDefault_match ms r :
  isRoadAdjacent r = false ->
  isRoadAdjacent (stampDefault host ms r) = true ->
  exists m, In m ms /\ isAdjacent m = true /\
    roadKind (stampDefault host ms r) = Some (kind (candidate m)) /\
    roadName (stampDefault host ms r) = name (candidate m).
Proof.
  intros Hr. unfold stampDefault.
  assert (Hall : forall m, In m ms ->
            isRoadAdjacent (applyMatchToEdge host r m) = true ->
            exists m0, In m0 ms /\ isAdjacent m0 = true /\
              roadKind (applyMatchToEdge host r m)
              = Some (kind (candidate m0)) /\
              roadName (applyMatchToEdge host r m) = name (candidate m0)).
  { intros m Hin Hadj. exists m. cbn in Hadj |- *. rewrite Hadj.
    now repeat split. }
  destruct (firstAdjacentStreet ms false relaxFrontage) as [m|] eqn:E1.
  { apply Hall. unfold firstAdjacentStreet in E1.
    now apply find_some in E1. }
  destruct (List.find isAdjacent ms) as [m|] eqn:E2.
  { apply Hall. now apply find_some in E2. }
  destruct (head ms) as [m|] eqn:E3.
  { apply Hall. now apply head_In. }
  cbn. congruence.
Qed.

Lemma defaultPass_snd m e (es : list EdgeAnalysis) em :
  snd (defaultPass host m (e :: es) em)
  = snd (defaultPass host m es
           (<[index e := findEvaluatedRoadCandidatesForEdge host m e]> em)).
Proof.
  cbn [defaultPass]. cbv zeta.
  now destruct (defaultPass host m es _) as [rest em'].
Qed.

Lemma defaultPass_other m (es : list EdgeAnalysis) em k :
  ~ In k (List.map index es) ->
  snd (defaultPass host m es em) !! k = em !! k.
Proof.
  revert em. induction es as [|e es IH]; intros em Hk; [reflexivity|].
  rewrite defaultPass_snd, IH by (cbn in Hk; tauto).
  apply lookup_insert_ne. cbn in Hk. tauto.
Qed.

(** After the first loop the matches of an edge are the evaluated
    candidates of that edge. *)
Lemma defaultPass_matches m (es : list EdgeAnalysis) em e :
  NoDup (List.map index es) -> In e es ->
  snd (defaultPass host m es em) !! index e
  = Some (findEvaluatedRoadCandidatesForEdge host m e).
Proof.
  revert em. induction es as [|x es IH]; intros em Hnd Hin; [destruct Hin|].
  cbn [List.map] in Hnd. apply NoDup_cons in Hnd. destruct Hnd as [Hx Hnd].
  rewrite defaultPass_snd. destruct Hin as [->|Hin].
  - rewrite defaultPass_other; [apply lookup_insert_eq|].
    intros H. apply Hx, list_elem_of_In, H.
  - now apply IH.
Qed.

Lemma indexed_NoDup (es : list EdgeAnalysis) :
  indexed es -> NoDup (List.map index es).
Proof.
  intros Hidx. apply NoDup_alt. intros i j x Hi Hj.
  change (List.map index es) with (index <$> es) in Hi, Hj.
  rewrite list_lookup_fmap in Hi, Hj.
  destruct (es !! i) as [a|] eqn:Ea; [|discriminate].
  destruct (es !! j) as [b|] eqn:Eb; [|discriminate].
  cbn in Hi, Hj. rewrite <- (Hidx i a Ea), <- (Hidx j b Eb). congruence.
Qed.

(** The edges and matches that the first loop leaves. *)
Lemma firstLoop_edge parcel map i e :
  fst (firstLoop host parcel map) !! i = Some e ->
  exists r,
    toRingEdges host (default [] (head (coordinates parcel))) !! i = Some r /\
    match map with
    | Some m =>
        e = stampDefault host (findEvaluatedRoadCandidatesForEdge host m r) r /\
        matchesOf (snd (firstLoop host parcel map)) e
        = findEvaluatedRoadCandidatesForEdge host m r
    | None => e = r /\ matchesOf (snd (firstLoop host parcel map)) e = []
    end.
Proof.
  unfold firstLoop. cbv zeta.
  pose proof (toRingEdges_indexed host (default [] (head (coordinates parcel))))
    as Hidx.
  set (ring := toRingEdges host _) in *. clearbody ring.
  destruct map as [m|]; cbn [fst snd].
  - rewrite defaultPass_edges, list_lookup_fmap.
    destruct (ring !! i) as [r|] eqn:Er; [|discriminate].
    intros [= <-]. exists r. split; [reflexivity|]. split; [reflexivity|].
    unfold matchesOf. rewrite index_stampDefault.
    rewrite (defaultPass_matches m ring ∅ r); [reflexivity| |].
    + now apply indexed_NoDup.
    + eapply list_elem_of_In, list_elem_of_lookup_2, Er.
  - intros He. exists e. split; [exact He|]. split; [reflexivity|].
    unfold matchesOf. now rewrite lookup_empty.
Qed.

Lemma firstLoop_fresh parcel i r :
  toRingEdges host (default [] (head (coordinates parcel))) !! i = Some r ->
  isRoadAdjacent r = false.
Proof.
  intros Hr. apply toRingEdges_lookup_inv in Hr.
  destruct Hr as (a & b & _ & _ & Hf).
  now destruct Hf as (_ & _ & _ & _ & _ & _ & _ & H & _).
Qed.

Lemma firstLoop_lane parcel map i e :
  fst (firstLoop host parcel map) !! i = Some e ->
  isRoadAdjacent e = true -> roadKind e = Some lane ->
  is_Some (firstAdjacentLane (matchesOf (snd (firstLoop host parcel map)) e)
             true).
Proof.
  intros He Hadj Hlane.
  destruct (firstLoop_edge parcel map i e He) as (r & Hr & Hm).
  pose proof (firstLoop_fresh parcel i r Hr) as Hfresh.
  set (em := snd (firstLoop host parcel map)) in *. clearbody em.
  destruct map as [m|]; destruct Hm as [-> Hms]; [|congruence].
  rewrite Hms.
  destruct (stampDefault_match _ r Hfresh Hadj) as (c & Hin & Hc & Hk & _).
  unfold firstAdjacentLane. eapply find_is_Some; [exact Hin|].
  rewrite Hc. cbn [orb]. rewrite andb_true_r. apply bool_decide_eq_true.
  congruence.
Qed.

(** The opposite edge is adjacent to a lane exactly when it is stamped as
    rear lane. *)
Lemma classifyEdges_rear_lane parcel (es : list EdgeAnalysis) em :
  indexed es ->
  (forall i e, es !! i = Some e ->
     isRoadAdjacent e = true -> roadKind e = Some lane ->
     is_Some (firstAdjacentLane (matchesOf em e) true)) ->
  let run := classifyEdges host parcel es em in
  forall i e, run_oppositeIndex run = Some i ->
    edges (run_result run) !! i = Some e ->
    (isRoadAdjacent e = true /\ roadKind e = Some lane <-> type e = RearLane).
Proof.
  intros Hidx Hlane. cbv zeta. intros i e' Hoi He'.
  pose proof (classifyEdges_lookup host parcel es em i) as Hl.
  destruct (classifyEdges_stages host parcel es em) as (_ & Eoi & _).
  set (run := classifyEdges host parcel es em) in *. clearbody run.
  rewrite Hl in He'. rewrite Eoi in Hoi. clear Hl Eoi run.
  destruct (es !! i) as [e|] eqn:He; [|discriminate]. cbn in He'.
  injection He' as <-.
  destruct (classifiedEdge_cases host parcel es em i e Hidx He)
    as (_ & Hd & Hr & _).
  cbv zeta in Hd, Hr. specialize (Hd Hoi). specialize (Hr Hoi).
  specialize (Hlane i e He).
  set (e' := classifiedEdge host parcel es em i e) in *. clearbody e'.
  set (df := stageDoubleFronting host parcel es em) in *. clearbody df.
  destruct df as [c|].
  - rewrite (Hd c eq_refl). cbn. split; [intros [_ H]|intros H]; discriminate.
  - rewrite (Hr eq_refl). unfold stampRear.
    destruct (firstAdjacentLane (matchesOf em e) true) as [l|].
    + destruct (negb (isAdjacent l)); cbn; now repeat split.
    + cbn. split; [|discriminate]. intros [H1 H2].
      destruct (Hlane H1 H2) as [x Hx]. discriminate.
Qed.

Lemma filter_pos_lookup {A : Type} (p : A -> bool) (l : list A) :
  (0 < length (List.filter p l))%nat ->
  exists i x, l !! i = Some x /\ p x = true.
Proof.
  intros H. destruct (List.filter p l) as [|x f] eqn:E; [cbn in H; lia|].
  assert (Hx : In x (List.filter p l)) by (rewrite E; now left).
  apply filter_In in Hx. destruct Hx as [Hin Hp].
  apply list_elem_of_In, list_elem_of_lookup in Hin. destruct Hin as [i Hi].
  now exists i, x.
Qed.

Lemma filter_zero_lookup {A : Type} (p : A -> bool) (l : list A) :
  (forall i x, l !! i = Some x -> p x = false) ->
  length (List.filter p l) = 0%nat.
Proof.
  intros H. destruct (List.filter p l) as [|x f] eqn:E; [reflexivity|].
  assert (Hx : In x (List.filter p l)) by (rewrite E; now left).
  apply filter_In in Hx. destruct Hx as [Hin Hp].
  apply list_elem_of_In, list_elem_of_lookup in Hin. destruct Hin as [i Hi].
  rewrite (H i x Hi) in Hp. discriminate.
Qed.

Lemma determineLotType_cases hasFlankage isDoubleFronting oppositeEdge :
  fst (determineLotType hasFlankage isDoubleFronting oppositeEdge)
  = if hasFlankage then CornerLot
    else if isDoubleFronting then DoubleFronting
    else if isLaneAdjacent oppositeEdge then StandardWithLane
    else StandardWithoutLane.
Proof.
  unfold determineLotType.
  now destruct hasFlankage, isDoubleFronting, (isLaneAdjacent oppositeEdge).
Qed.

(** X12.  The lot type against the types of the returned edges.  A lane
    is detected on the opposite edge exactly when an edge is stamped as
    rear lane, and double fronting exactly when two edges are stamped as
    frontage.  A corner lot has a flankage edge; a double-fronting lot has
    two frontage edges and no rear edge; a standard lot with lane has one
    frontage edge and a rear-lane edge; a standard lot without lane has at
    most one frontage edge and no rear-lane edge.  Without a flankage edge
    the lot type is Double Fronting under double fronting, else Standard
    with Lane when a lane is detected, else Standard without Lane. *)
Theorem analyzeParcel_lot_type_of_edges (parcel : ParcelFeature)
    (map : option MapboxMap) :
  let run := analyzeParcelRun host parcel map in
  let result := analyzeParcel host parcel map in
  let es := edges result in
  let rearLaneEdge := exists i e, es !! i = Some e /\ type e = RearLane in
  (run_laneDetectedOnOpposite run = true <-> rearLaneEdge) /\
  (run_isDoubleFronting run = true
   <-> length (List.filter isFrontage es) = 2%nat) /\
  (lotType result = CornerLot ->
   exists i e, es !! i = Some e /\ type e = Flankage) /\
  (lotType result = DoubleFronting ->
   length (List.filter isFrontage es) = 2%nat /\
   forall i e, es !! i = Some e -> notRear e) /\
  (lotType result = StandardWithLane ->
   length (List.filter isFrontage es) = 1%nat /\ rearLaneEdge) /\
  (lotType result = StandardWithoutLane ->
   (length (List.filter isFrontage es) <= 1)%nat /\ ~ rearLaneEdge) /\
  ((forall i e, es !! i = Some e -> type e <> Flankage) ->
   lotType result
   = if run_isDoubleFronting run then DoubleFronting
     else if run_laneDetectedOnOpposite run then StandardWithLane
     else StandardWithoutLane).
Proof.
  cbv zeta. unfold analyzeParcel. rewrite analyzeParcelRun_firstLoop.
  pose proof (firstLoop_indexed host parcel map) as Hidx.
  pose proof (firstLoop_side host parcel map) as Hside.
  pose proof (firstLoop_notRear host parcel map) as Hnr.
  pose proof (firstLoop_lane parcel map) as Hlane.
  set (es0 := fst (firstLoop host parcel map)) in *.
  set (em := snd (firstLoop host parcel map)) in *.
  clearbody es0 em.
  destruct (classifyEdges_rear host parcel es0 em Hnr) as [Hrear _].
  pose proof (classifyEdges_rear_lane parcel es0 em Hidx Hlane) as Hrl.
  destruct (classifyEdges_lotType host parcel es0 em) as (Hrel & Hld & Hlot).
  pose proof (classifyEdges_flankageCount host parcel es0 em Hside Hidx)
    as Hfc.
  destruct (classifyEdges_frontage_count host parcel es0 em Hidx Hside)
    as (_ & _ & Hopp & Hcnt).
  cbv zeta in Hrl, Hfc, Hopp, Hcnt.
  set (run := classifyEdges host parcel es0 em) in *. clearbody run.
  clear Hidx Hside Hnr Hlane.
  rewrite determineLotType_cases in Hlot. rewrite <- Hld in Hlot.
  set (es := edges (run_result run)) in *. clearbody es.
  assert (Hlane : run_laneDetectedOnOpposite run = true <->
            exists i e, es !! i = Some e /\ type e = RearLane).
  { rewrite Hld, isLaneAdjacent_true. unfold edgeAt. split.
    - intros (e & He & H1 & H2).
      destruct (run_oppositeIndex run) as [i|] eqn:Eo; [|discriminate].
      cbn in He. exists i, e. split; [exact He|].
      now apply (Hrl i e eq_refl He).
    - intros (i & e & He & Ht).
      destruct (Hrear i e He (or_intror Ht)) as [Eo _].
      exists e. rewrite Eo. split; [exact He|]. now apply (Hrl i e Eo He). }
  assert (Hdf : run_isDoubleFronting run = true <->
            length (List.filter isFrontage es) = 2%nat).
  { rewrite Hcnt. destruct es as [|x es'].
    - split; [|discriminate]. intros Hd.
      destruct (Hopp Hd) as (k & _ & Hk & _). cbn in Hk. lia.
    - destruct (run_isDoubleFronting run); split; congruence. }
  assert (Hle : (length (List.filter isFrontage es) <= 2)%nat).
  { rewrite Hcnt. destruct es; [lia|].
    destruct (run_isDoubleFronting run); lia. }
  split; [exact Hlane|]. split; [exact Hdf|].
  clear Hld Hrl Hopp.
  set (lane := run_laneDetectedOnOpposite run) in *.
  set (df := run_isDoubleFronting run) in *.
  set (rel := run_hasReliableFlankage run) in *.
  set (cnt := run_flankageCount run) in *.
  set (urf := run_usedRelaxedFlankage run) in *.
  set (lt := lotType (run_result run)) in *.
  clearbody lane df rel cnt urf lt.
  split; [|split; [|split; [|split; [|]]]].
  - intros Hc. rewrite Hc in Hlot.
    destruct rel; [|destruct df, lane; discriminate].
    symmetry in Hrel. apply andb_true_iff in Hrel. destruct Hrel as [Hp _].
    apply Nat.ltb_lt in Hp. rewrite Hfc in Hp.
    apply filter_pos_lookup in Hp. destruct Hp as (i & e & He & Hp).
    exists i, e. split; [exact He|]. now apply bool_decide_eq_true in Hp.
  - intros Hc. rewrite Hc in Hlot.
    destruct rel; [discriminate|]. destruct df; [|destruct lane; discriminate].
    split; [now apply Hdf|]. intros i e He.
    split; intros Ht.
    + destruct (Hrear i e He (or_introl Ht)) as [_ H]. discriminate.
    + destruct (Hrear i e He (or_intror Ht)) as [_ H]. discriminate.
  - intros Hc. rewrite Hc in Hlot.
    destruct rel; [discriminate|]. destruct df; [discriminate|].
    destruct lane; [|discriminate].
    pose proof (proj1 Hlane eq_refl) as Hex. split; [|exact Hex].
    rewrite Hcnt. destruct es as [|x es']; [|reflexivity].
    destruct Hex as (i & e & He & _). destruct i; discriminate.
  - intros Hc. rewrite Hc in Hlot.
    destruct rel; [discriminate|]. destruct df; [discriminate|].
    destruct lane; [discriminate|]. split.
    + rewrite Hcnt. destruct es; lia.
    + intros Hex. apply Hlane in Hex. discriminate.
  - intros Hno. rewrite Hlot.
    assert (Hz : cnt = 0%nat).
    { rewrite Hfc. apply filter_zero_lookup. intros i e He.
      apply bool_decide_eq_false. now apply (Hno i e). }
    rewrite Hz in Hrel. cbn in Hrel. now rewrite Hrel.
Qed.

End LotAndEdges.

(** ** The choice of the frontage edge *)

Section FrontageChoice.
Context (host : Host).

Lemma byName_Some ms nps relaxed mode c :
  firstAdjacentStreetByName ms nps relaxed mode = Some c ->
  isEmpty nps = false /\ In c ms /\ kind (candidate c) = street /\
  normalizeStreetName (name (candidate c)) = nps /\
  (isAdjacent c = true \/
   (relaxed = true /\ isRelaxedStreetCandidateForMode c mode = true)).
Proof.
  unfold firstAdjacentStreetByName.
  destruct (isEmpty nps); [discriminate|]. intros H. apply find_some in H.
  destruct H as [Hin Hp].
  apply andb_true_iff in Hp. destruct Hp as [Hp Hadj].
  apply andb_true_iff in Hp. destruct Hp as [Hst Hname].
  apply bool_decide_eq_true in Hst. apply String.eqb_eq in Hname.
  split; [reflexivity|]. split; [exact Hin|]. split; [exact Hst|].
  split; [exact Hname|].
  destruct (isAdjacent c); [now left|right]. cbn [orb] in Hadj.
  now apply andb_true_iff in Hadj.
Qed.

Lemma street_Some ms relaxed mode c :
  firstAdjacentStreet ms relaxed mode = Some c ->
  In c ms /\ kind (candidate c) = street /\
  (isAdjacent c = true \/
   (relaxed = true /\ isRelaxedStreetCandidateForMode c mode = true)).
Proof.
  unfold firstAdjacentStreet. intros H. apply find_some in H.
  destruct H as [Hin Hp].
  apply andb_true_iff in Hp. destruct Hp as [Hst Hadj].
  apply bool_decide_eq_true in Hst.
  split; [exact Hin|]. split; [exact Hst|].
  destruct (isAdjacent c); [now left|right]. cbn [orb] in Hadj.
  now apply andb_true_iff in Hadj.
Qed.

Lemma byName_relax ms nps mode :
  is_Some (firstAdjacentStreetByName ms nps false mode) ->
  is_Some (firstAdjacentStreetByName ms nps true mode).
Proof.
  intros [c Hc]. pose proof (byName_Some _ _ _ _ _ Hc) as (He & Hin & Hk & Hn & Ha).
  unfold firstAdjacentStreetByName. rewrite He.
  eapply find_is_Some; [exact Hin|].
  destruct Ha as [Ha|[Ha _]]; [|discriminate].
  rewrite Ha, Hn, String.eqb_refl. cbn [orb]. rewrite !andb_true_r.
  now apply bool_decide_eq_true.
Qed.

Lemma byName_street ms nps relaxed mode :
  is_Some (firstAdjacentStreetByName ms nps relaxed mode) ->
  is_Some (firstAdjacentStreet ms relaxed mode).
Proof.
  intros [c Hc]. pose proof (byName_Some _ _ _ _ _ Hc) as (He & Hin & Hk & Hn & Ha).
  unfold firstAdjacentStreet. eapply find_is_Some; [exact Hin|].
  apply andb_true_iff. split; [now apply bool_decide_eq_true|].
  destruct Ha as [->|[-> ->]]; [reflexivity|]. apply orb_true_r.
Qed.

Lemma Forall_none_nil
    (f : EdgeAnalysis -> option EvaluatedRoadCandidate)
    (l : list EdgeAnalysis) :
  Forall (fun e => f e = None) l -> (forall e, In e l -> is_Some (f e)) ->
  l = [].
Proof.
  destruct l as [|x l]; [reflexivity|]. intros H1 H2.
  apply Forall_cons in H1. destruct H1 as [H1 _].
  destruct (H2 x (or_introl eq_refl)) as [c Hc]. congruence.
Qed.

(** The frontage edge that [chooseFrontage] selects. *)
Lemma chooseFrontage_spec (es : list EdgeAnalysis) em nps :
  let fe := fst (fst (chooseFrontage es em nps)) in
  let matched := snd (fst (chooseFrontage es em nps)) in
  let cse := snd (chooseFrontage es em nps) in
  (matched = true ->
   isEmpty nps = false /\
   exists e, fe = Some e /\ In e es /\
     is_Some (firstAdjacentStreetByName (matchesOf em e) nps true
                relaxFrontage)) /\
  (matched = false -> isEmpty nps = false ->
   Forall (fun e => firstAdjacentStreetByName (matchesOf em e) nps true
                      relaxFrontage = None) es) /\
  (matched = false -> cse <> [] -> exists e, fe = Some e /\ In e cse) /\
  (matched = false -> cse = [] -> fe = longestEdge es) /\
  (forall e, In e cse ->
     In e es /\
     is_Some (firstAdjacentStreet (matchesOf em e) true relaxFrontage)).
Proof.
  cbv zeta. unfold chooseFrontage. cbn [fst snd].
  pose proof (selectNearest_spec es em
                {| normalizedStreet := nps; allowRelaxed := false;
                   relaxMode := relaxFrontage |}) as S1.
  pose proof (selectNearest_spec es em
                {| normalizedStreet := nps; allowRelaxed := true;
                   relaxMode := relaxFrontage |}) as S2.
  set (strict := List.filter (hasStreetCandidate em false) es).
  set (relaxed := List.filter (hasStreetCandidate em true) es).
  assert (Hstrict : forall e, In e strict ->
            In e es /\
            is_Some (firstAdjacentStreet (matchesOf em e) false relaxFrontage)).
  { intros e He. apply filter_In in He. destruct He as [Hin Hp].
    split; [exact Hin|]. now apply bool_decide_eq_true in Hp. }
  assert (Hrelaxed : forall e, In e relaxed ->
            In e es /\
            is_Some (firstAdjacentStreet (matchesOf em e) true relaxFrontage)).
  { intros e He. apply filter_In in He. destruct He as [Hin Hp].
    split; [exact Hin|]. now apply bool_decide_eq_true in Hp. }
  clearbody strict relaxed.
  set (cse := if (0 <? length strict)%nat then strict else relaxed).
  assert (Hcse : forall e, In e cse ->
            In e es /\
            is_Some (firstAdjacentStreet (matchesOf em e) true relaxFrontage)).
  { subst cse. destruct (0 <? length strict)%nat; [|exact Hrelaxed].
    intros e He. destruct (Hstrict e He) as [Hin Hs].
    split; [exact Hin|]. now apply firstAdjacentStreet_relax. }
  pose proof (selectNearest_spec cse em
                {| normalizedStreet := EmptyString; allowRelaxed := false;
                   relaxMode := relaxFrontage |}) as S3.
  pose proof (selectNearest_spec cse em
                {| normalizedStreet := EmptyString; allowRelaxed := true;
                   relaxMode := relaxFrontage |}) as S4.
  assert (Hpick : cse <> [] ->
            exists e,
              orTry
                (selectNearestEdgeByStreetCandidate cse em
                   {| normalizedStreet := EmptyString; allowRelaxed := false;
                      relaxMode := relaxFrontage |})
                (orTry
                   (selectNearestEdgeByStreetCandidate cse em
                      {| normalizedStreet := EmptyString;
                         allowRelaxed := true; relaxMode := relaxFrontage |})
                   (longestEdge es)) = Some e /\ In e cse).
  { intros Hne.
    destruct (selectNearestEdgeByStreetCandidate cse em
                {| normalizedStreet := EmptyString; allowRelaxed := false;
                   relaxMode := relaxFrontage |}) as [e|];
      [exists e; split; [reflexivity|tauto]|].
    destruct (selectNearestEdgeByStreetCandidate cse em
                {| normalizedStreet := EmptyString; allowRelaxed := true;
                   relaxMode := relaxFrontage |}) as [e|];
      [exists e; split; [reflexivity|tauto]|].
    exfalso. apply Hne.
    eapply Forall_none_nil; [exact S4|].
    intros e He. unfold streetCandidateFor. cbn. now apply Hcse. }
  assert (Hnone : cse = [] ->
            orTry
              (selectNearestEdgeByStreetCandidate cse em
                 {| normalizedStreet := EmptyString; allowRelaxed := false;
                    relaxMode := relaxFrontage |})
              (orTry
                 (selectNearestEdgeByStreetCandidate cse em
                    {| normalizedStreet := EmptyString;
                       allowRelaxed := true; relaxMode := relaxFrontage |})
                 (longestEdge es)) = longestEdge es).
  { intros ->. reflexivity. }
  clear S3 S4.
  set (rest := orTry (selectNearestEdgeByStreetCandidate cse em _) _) in *.
  clearbody rest. clearbody cse.
  unfold streetCandidateFor in S1, S2. cbn [normalizedStreet allowRelaxed
    relaxMode] in S1, S2.
  destruct (isEmpty nps) eqn:Enps; cbn [negb] in *.
  - rewrite bool_decide_eq_false_2 by (now intros [x Hx]). cbn [orTry].
    split; [discriminate|]. split; [discriminate|].
    split; [intros _; exact Hpick|]. split; [intros _; exact Hnone|exact Hcse].
  - destruct (selectNearestEdgeByStreetCandidate es em
                {| normalizedStreet := nps; allowRelaxed := false;
                   relaxMode := relaxFrontage |}) as [e1|].
    { cbn [orTry]. rewrite bool_decide_eq_true_2 by (now exists e1).
      split; [|split; [discriminate|split; [discriminate|
                split; [discriminate|exact Hcse]]]].
      intros _. split; [reflexivity|]. exists e1.
      split; [reflexivity|]. split; [tauto|]. apply byName_relax. tauto. }
    destruct (selectNearestEdgeByStreetCandidate es em
                {| normalizedStreet := nps; allowRelaxed := true;
                   relaxMode := relaxFrontage |}) as [e2|].
    { cbn [orTry]. rewrite bool_decide_eq_true_2 by (now exists e2).
      split; [|split; [discriminate|split; [discriminate|
                split; [discriminate|exact Hcse]]]].
      intros _. split; [reflexivity|]. exists e2.
      split; [reflexivity|]. tauto. }
    cbn [orTry]. rewrite bool_decide_eq_false_2 by (now intros [x Hx]).
    split; [discriminate|]. split; [intros _ _; exact S2|].
    split; [intros _; exact Hpick|]. split; [intros _; exact Hnone|exact Hcse].
Qed.

(** What is stamped on the frontage edge. *)
Lemma stampFrontage_fields em nps e :
  let e' := stampFrontage host em nps e in
  (is_Some (firstAdjacentStreetByName (matchesOf em e) nps true relaxFrontage)
   -> roadKind e' = Some street /\ isRoadAdjacent e' = true /\
      normalizeStreetName (roadName e') = nps) /\
  (is_Some (firstAdjacentStreet (matchesOf em e) true relaxFrontage)
   -> roadKind e' = Some street /\ isRoadAdjacent e' = true /\
      exists c, In c (matchesOf em e) /\ kind (candidate c) = street /\
                roadName e' = name (candidate c)) /\
  (firstAdjacentStreet (matchesOf em e) true relaxFrontage = None ->
   e' = setType Frontage e).
Proof.
  cbv zeta. unfold stampFrontage. cbv zeta.
  destruct (firstAdjacentStreetByName (matchesOf em e) nps true relaxFrontage)
    as [c|] eqn:E1; cbn [orTry].
  - pose proof (byName_Some _ _ _ _ _ E1) as (_ & Hin & Hk & Hn & _).
    split; [intros _; now repeat split|].
    split; [intros _; split; [reflexivity|split; [reflexivity|]];
            now exists c|].
    intros Hnone. exfalso.
    assert (Hs : is_Some (firstAdjacentStreetByName (matchesOf em e) nps true
                            relaxFrontage)) by (now exists c).
    apply byName_street in Hs. destruct Hs as [x Hx]. congruence.
  - split; [now intros [x Hx]|].
    destruct (firstAdjacentStreet (matchesOf em e) true relaxFrontage)
      as [c|] eqn:E2.
    + pose proof (street_Some _ _ _ _ E2) as (Hin & Hk & _).
      split; [|discriminate].
      intros _. split; [reflexivity|split; [reflexivity|]]. now exists c.
    + split; [now intros [x Hx]|reflexivity].
Qed.

Lemma classifyEdges_choice parcel (es : list EdgeAnalysis) em :
  let run := classifyEdges host parcel es em in
  run_frontageIndex run
  = index <$> fst (fst (chooseFrontage es em (stagePrimaryStreet parcel))) /\
  run_frontageMatchedByPrimaryStreet run
  = snd (fst (chooseFrontage es em (stagePrimaryStreet parcel))) /\
  run_candidateStreetEdges run
  = snd (chooseFrontage es em (stagePrimaryStreet parcel)) /\
  run_edgeMatches run = em /\
  normalizeStreetName (primaryStreet (run_result run))
  = stagePrimaryStreet parcel.
Proof. cbv zeta. repeat split. Qed.

Lemma classifyEdges_frontage_choice parcel (es : list EdgeAnalysis) em :
  indexed es ->
  let run := classifyEdges host parcel es em in
  let nps := stagePrimaryStreet parcel in
  (run_frontageMatchedByPrimaryStreet run = true <->
   isEmpty nps = false /\
   exists e, In e es /\
     is_Some (firstAdjacentStreetByName (matchesOf em e) nps true
                relaxFrontage)) /\
  (run_candidateStreetEdges run = [] <->
   forall e, In e es ->
     firstAdjacentStreet (matchesOf em e) true relaxFrontage = None) /\
  forall i e, run_frontageIndex run = Some i ->
    edges (run_result run) !! i = Some e ->
    (run_frontageMatchedByPrimaryStreet run = true ->
     is_Some (firstAdjacentStreetByName (matchesOf em e) nps true
                relaxFrontage) /\
     roadKind e = Some street /\ isRoadAdjacent e = true /\
     normalizeStreetName (roadName e) = nps) /\
    (run_frontageMatchedByPrimaryStreet run = false ->
     run_candidateStreetEdges run <> [] ->
     In i (List.map index (run_candidateStreetEdges run)) /\
     roadKind e = Some street /\ isRoadAdjacent e = true /\
     exists c, In c (matchesOf em e) /\ kind (candidate c) = street /\
               roadName e = name (candidate c)) /\
    (run_candidateStreetEdges run = [] ->
     run_frontageMatchedByPrimaryStreet run = false /\
     index <$> longestEdge es = Some i /\
     exists e0, es !! i = Some e0 /\ e = setType Frontage e0).
Proof.
  intros Hidx. cbv zeta.
  destruct (classifyEdges_choice parcel es em) as (Efi & Em & Ec & _).
  pose proof (classifyEdges_lookup host parcel es em) as Hl.
  set (run := classifyEdges host parcel es em) in *. clearbody run.
  rewrite Efi, Em, Ec. clear Efi Em Ec.
  pose proof (fun i e => classifiedEdge_cases host parcel es em i e Hidx)
    as Hcases.
  cbv zeta in Hcases. unfold stageFrontageIndex in Hcases.
  destruct (chooseFrontage_spec es em (stagePrimaryStreet parcel))
    as (P1 & P2 & P3 & P4 & P5).
  pose proof (chooseFrontage_candidates_nil es em
                (stagePrimaryStreet parcel)) as Hnil.
  pose proof (chooseFrontage_In es em (stagePrimaryStreet parcel))
    as Hin.
  set (nps := stagePrimaryStreet parcel) in *. clearbody nps.
  set (fe := fst (fst (chooseFrontage es em nps))) in *.
  set (matched := snd (fst (chooseFrontage es em nps))) in *.
  set (cse := snd (chooseFrontage es em nps)) in *.
  clearbody fe matched cse.
  assert (Hnil' : cse = [] <->
            forall e, In e es ->
              firstAdjacentStreet (matchesOf em e) true relaxFrontage = None).
  { rewrite Hnil, List.Forall_forall. unfold hasStreetCandidate.
    split; intros H e He; specialize (H e He).
    - apply bool_decide_eq_false in H.
      destruct (firstAdjacentStreet _ _ _) as [c|]; [|reflexivity].
      exfalso. apply H. now exists c.
    - apply bool_decide_eq_false. rewrite H. now intros [x Hx]. }
  assert (Hm : matched = true <->
            isEmpty nps = false /\
            exists e, In e es /\
              is_Some (firstAdjacentStreetByName (matchesOf em e) nps true
                         relaxFrontage)).
  { split.
    - intros H. destruct (P1 H) as (Hn & e & _ & He & Hs).
      split; [exact Hn|]. now exists e.
    - intros (Hn & e & He & [c Hc]).
      destruct matched eqn:E; [reflexivity|]. exfalso.
      pose proof (proj1 (List.Forall_forall _ _) (P2 eq_refl Hn) e He) as H.
      cbn in H. congruence. }
  assert (Hcm : cse = [] -> matched = false).
  { intros Hc. destruct matched; [|reflexivity]. exfalso.
    destruct (P1 eq_refl) as (_ & e & _ & He & Hs).
    apply byName_street in Hs. destruct Hs as [c Hs].
    rewrite (proj1 Hnil' Hc e He) in Hs. discriminate. }
  split; [exact Hm|]. split; [exact Hnil'|].
  intros i e' Hi He'. rewrite Hl in He'. clear Hl Hnil Hm.
  destruct (es !! i) as [e0|] eqn:He0; [|discriminate].
  cbn in He'. injection He' as <-.
  destruct (Hcases i e0 He0) as (Hc & _). clear Hcases.
  rewrite (Hc Hi). clear Hc.
  destruct (stampFrontage_fields em nps e0) as (F1 & F2 & F3).
  cbv zeta in F1, F2, F3.
  set (e' := stampFrontage host em nps e0) in *.
  assert (Hms : matchesOf em e' = matchesOf em e0).
  { unfold matchesOf. subst e'. now rewrite index_stampFrontage. }
  clearbody e'. rewrite Hms. clear Hms.
  destruct fe as [f|] eqn:Ef; [|discriminate]. cbn in Hi.
  injection Hi as Hi.
  assert (Hf : f = e0).
  { pose proof (Hin f eq_refl) as Hf.
    apply list_elem_of_In, list_elem_of_lookup in Hf. destruct Hf as [j Hj].
    pose proof (Hidx j f Hj) as Hjj. rewrite Hi in Hjj. subst j. congruence. }
  subst f. clear Hin.
  split; [|split].
  - intros Hmt. destruct (P1 Hmt) as (_ & e & [= <-] & _ & Hs).
    split; [exact Hs|]. now apply F1.
  - intros Hmf Hne. destruct (P3 Hmf Hne) as (e & [= <-] & Hec).
    split; [rewrite <- Hi; now apply in_map|].
    destruct (P5 e0 Hec) as [_ Hs].
    destruct (F2 Hs) as (A & B & C). now repeat split.
  - intros Hc. pose proof (Hcm Hc) as Hmf. split; [exact Hmf|].
    rewrite <- (P4 Hmf Hc). split; [cbn; now rewrite Hi|].
    exists e0. split; [reflexivity|]. apply F3.
    apply (proj1 Hnil' Hc).
    eapply list_elem_of_In, list_elem_of_lookup_2, He0.
Qed.

(** X13.  How the frontage edge is chosen.  The frontage is matched by
    the primary street exactly when that street has a name and some edge
    has a street candidate of that normalized name, adjacent or within the
    relaxed frontage limits; the frontage edge then has such a candidate
    and is marked adjacent to a street of that name.  Otherwise, when some
    edge has a street candidate, the frontage edge is one of the
    street-candidate edges and is marked adjacent to a street.  When no
    edge has a street candidate, the frontage is the longest edge, the
    first of them on a tie (no edge of the result is longer, and every edge
    before it is shorter), and only its type is changed. *)
Theorem analyzeParcel_frontage_choice (parcel : ParcelFeature)
    (map : option MapboxMap) :
  let run := analyzeParcelRun host parcel map in
  let result := analyzeParcel host parcel map in
  let em := run_edgeMatches run in
  let nps := normalizeStreetName (primaryStreet result) in
  let first := fst (firstLoop host parcel map) in
  (run_frontageMatchedByPrimaryStreet run = true <->
   isEmpty nps = false /\
   exists e, In e first /\
     is_Some (firstAdjacentStreetByName (matchesOf em e) nps true
                relaxFrontage)) /\
  (run_candidateStreetEdges run = [] <->
   forall e, In e first ->
     firstAdjacentStreet (matchesOf em e) true relaxFrontage = None) /\
  forall i e, run_frontageIndex run = Some i ->
    edges result !! i = Some e ->
    (run_frontageMatchedByPrimaryStreet run = true ->
     is_Some (firstAdjacentStreetByName (matchesOf em e) nps true
                relaxFrontage) /\
     roadKind e = Some street /\ isRoadAdjacent e = true /\
     normalizeStreetName (roadName e) = nps) /\
    (run_frontageMatchedByPrimaryStreet run = false ->
     run_candidateStreetEdges run <> [] ->
     In i (List.map index (run_candidateStreetEdges run)) /\
     roadKind e = Some street /\ isRoadAdjacent e = true /\
     exists c, In c (matchesOf em e) /\ kind (candidate c) = street /\
               roadName e = name (candidate c)) /\
    (run_candidateStreetEdges run = [] ->
     run_frontageMatchedByPrimaryStreet run = false /\
     index <$> longestEdge first = Some i /\
     (exists e0, first !! i = Some e0 /\ e = setType Frontage e0) /\
     (forall j e', edges result !! j = Some e' ->
        (lengthMeters e' <= lengthMeters e)%Q) /\
     (forall j e', (j < i)%nat -> edges result !! j = Some e' ->
        (lengthMeters e' < lengthMeters e)%Q)).
Proof.
  cbv zeta. unfold analyzeParcel. rewrite analyzeParcelRun_firstLoop.
  pose proof (firstLoop_indexed host parcel map) as Hidx.
  set (es0 := fst (firstLoop host parcel map)) in *.
  set (em := snd (firstLoop host parcel map)) in *.
  clearbody es0 em.
  pose proof (classifyEdges_frontage_choice parcel es0 em Hidx) as H.
  pose proof (fun i => classifyEdges_longest host parcel es0 em i Hidx)
    as Hlong.
  destruct (classifyEdges_choice parcel es0 em) as (_ & _ & _ & Eem & Eps).
  cbv zeta in H, Hlong.
  set (run := classifyEdges host parcel es0 em) in *. clearbody run.
  rewrite Eem, Eps. destruct H as (H1 & H2 & H3).
  split; [exact H1|]. split; [exact H2|].
  intros i e Hi He. destruct (H3 i e Hi He) as (A & B & C).
  split; [exact A|]. split; [exact B|].
  intros Hc. destruct (C Hc) as (C1 & C2 & C3).
  split; [exact C1|]. split; [exact C2|]. split; [exact C3|].
  destruct (Hlong i C2) as (e2 & He2 & Hmax & Hfirst).
  assert (e2 = e) by congruence. subst e2. split; assumption.
Qed.

End FrontageChoice.

(** ** The opposite edge *)

Section OppositeStamp.
Context (host : Host).

Lemma lane_Some ms relaxed c :
  firstAdjacentLane ms relaxed = Some c ->
  In c ms /\ kind (candidate c) = lane /\
  (isAdjacent c = true \/
   (relaxed = true /\ isRelaxedLaneCandidate c = true)).
Proof.
  unfold firstAdjacentLane. intros H. apply find_some in H.
  destruct H as [Hin Hp].
  apply andb_true_iff in Hp. destruct Hp as [Hst Hadj].
  apply bool_decide_eq_true in Hst.
  split; [exact Hin|]. split; [exact Hst|].
  destruct (isAdjacent c); [now left|right]. cbn [orb] in Hadj.
  now apply andb_true_iff in Hadj.
Qed.






End OppositeStamp.

(** ** The search for the opposite edge *)

Section OppositeSearch.
Context (host : Host).
Local Open Scope Q_scope.










(** X16.  With distances that are not negative, the analysis finds an
    opposite edge exactly when it returns two edges or more; the opposite
    edge is then an edge of the result other than the frontage edge. *)
Theorem analyzeParcel_opposite_found (parcel : ParcelFeature)
    (map : option MapboxMap)
    (H : forall a b, 0 <= turf_distance host a b) :
  let run := analyzeParcelRun host parcel map in
  let result := analyzeParcel host parcel map in
  (is_Some (run_oppositeIndex run) <-> (2 <= length (edges result))%nat) /\
  forall k, run_oppositeIndex run = Some k ->
    (k < length (edges result))%nat /\ run_frontageIndex run <> Some k /\
    exists i, run_frontageIndex run = Some i /\
              (i < length (edges result))%nat.
Proof.
  cbv zeta. unfold analyzeParcel. rewrite analyzeParcelRun_firstLoop.
  pose proof (firstLoop_indexed host parcel map) as Hidx.
  set (es0 := fst (firstLoop host parcel map)) in *.
  set (em := snd (firstLoop host parcel map)) in *.
  clearbody es0 em.
  pose proof (classifyEdges_length host parcel es0 em) as Hlen.
  destruct (classifyEdges_stages host parcel es0 em) as (Efi & Eoi & _).
  destruct (stage_indices host parcel es0 em Hidx) as (Hfi & Hoi & Hne).
  assert (Hfound : (2 <= length es0)%nat ->
            is_Some (stageOppositeIndex host parcel es0 em)).
  { intros H2. unfold stageOppositeIndex.
    destruct Hne as [i Hi]; [destruct es0; [cbn in H2; lia|discriminate]|].
    rewrite Hi. cbn [mbind option_bind].
    pose proof (Hfi i Hi) as Hin.
    assert (I2 : indexed (stageFrontageEdges host parcel es0 em)).
    { eapply indexed_same_indices; [|exact Hidx].
      apply map_index_stampFrontageAt. }
    assert (L2 : length (stageFrontageEdges host parcel es0 em)
                 = length es0).
    { rewrite <- (length_map index). unfold stageFrontageEdges.
      now rewrite map_index_stampFrontageAt, length_map. }
    set (fes := stageFrontageEdges host parcel es0 em) in *. clearbody fes.
    apply findOppositeEdgeIndex_found; [exact H| |].
    - apply lookup_lt_is_Some. rewrite L2. now apply lookup_lt_is_Some.
    - destruct (lookup_lt_is_Some_2 fes (if decide (i = 0%nat) then 1%nat
                                          else 0%nat)) as [e He].
      { destruct (decide (i = 0%nat)); lia. }
      exists e. split; [eapply list_elem_of_In, list_elem_of_lookup_2, He|].
      rewrite (I2 _ e He). destruct (decide (i = 0%nat)); lia. }
  set (run := classifyEdges host parcel es0 em) in *. clearbody run.
  rewrite Efi, Eoi, Hlen.
  set (fi := stageFrontageIndex parcel es0 em) in *.
  set (oi := stageOppositeIndex host parcel es0 em) in *.
  clearbody fi oi.
  assert (Hk : forall k, oi = Some k ->
            (k < length es0)%nat /\ fi <> Some k /\
            exists i, fi = Some i /\ (i < length es0)%nat).
  { intros k Hk. destruct (Hoi k Hk) as [Hin Hnk].
    split; [now apply lookup_lt_is_Some|]. split; [exact Hnk|].
    destruct Hne as [i Hi].
    - intros ->. destruct Hin as [x Hx]. discriminate.
    - exists i. split; [exact Hi|]. now apply lookup_lt_is_Some, Hfi. }
  split; [|exact Hk].
  split; [|exact Hfound].
  intros [k Hok]. destruct (Hk k Hok) as (H1 & H2 & i & Hi & H3).
  assert (i <> k) by congruence. lia.
Qed.

End OppositeSearch.

(** ** The nearest edge by street candidate *)

Section NearestEdge.
Context (host : Host).
Local Open Scope Q_scope.

(** One turn of the selection against a candidate that is more than the
    tie distance nearer, farther, or the same. *)
Lemma selectStep_compare em opts b cb x cx :
  streetCandidateFor em opts x = Some cx ->
  (distanceMeters cx + 3 < distanceMeters cb ->
   selectStep em opts (Some (b, cb)) x = Some (x, cx)) /\
  (distanceMeters cb + 3 < distanceMeters cx ->
   selectStep em opts (Some (b, cb)) x = Some (b, cb)) /\
  (b = x -> cb = cx -> selectStep em opts (Some (b, cb)) x = Some (b, cb)).
Proof.
  intros Hc. unfold selectStep. fold (streetCandidateFor em opts x).
  rewrite Hc. cbv zeta.
  unfold EDGE_SELECTION_DISTANCE_TIE_METERS, EDGE_SELECTION_LENGTH_TIE_METERS.
  split; [|split].
  - intros H. rewrite (proj2 (Qltb_lt _ _)); [reflexivity|lra].
  - intros H. rewrite (proj2 (Qltb_ge _ _)) by lra.
    rewrite (proj2 (Qltb_lt _ _)); [reflexivity|lra].
  - intros -> ->.
    rewrite (proj2 (Qltb_ge _ _)) by lra.
    rewrite (proj2 (Qltb_ge 3 _)) by lra.
    rewrite (proj2 (Qltb_ge 1 _)) by lra.
    rewrite (proj2 (Qltb_ge _ (- (1)))) by lra.
    rewrite (proj2 (Qltb_ge _ _)) by lra. reflexivity.
Qed.

Lemma selectStep_first em opts x cx :
  streetCandidateFor em opts x = Some cx ->
  selectStep em opts None x = Some (x, cx).
Proof.
  intros Hc. unfold selectStep. fold (streetCandidateFor em opts x).
  now rewrite Hc.
Qed.

Lemma selectStep_none em opts best x :
  streetCandidateFor em opts x = None -> selectStep em opts best x = best.
Proof.
  intros Hc. unfold selectStep. fold (streetCandidateFor em opts x).
  now rewrite Hc.
Qed.

(** Once the clear winner is the best edge it stays the best. *)
Lemma foldl_selectStep_keeps em opts e c (es : list EdgeAnalysis) :
  (forall x cx, In x es -> streetCandidateFor em opts x = Some cx ->
     (x = e /\ cx = c) \/ distanceMeters c + 3 < distanceMeters cx) ->
  foldl (selectStep em opts) (Some (e, c)) es = Some (e, c).
Proof.
  induction es as [|x es IH]; intros Hall; [reflexivity|]. cbn [foldl].
  assert (Hx : selectStep em opts (Some (e, c)) x = Some (e, c)).
  { destruct (streetCandidateFor em opts x) as [cx|] eqn:E;
      [|now apply selectStep_none].
    destruct (selectStep_compare em opts e c x cx E) as (_ & H2 & H3).
    destruct (Hall x cx (or_introl eq_refl) E) as [[-> ->]|Hfar];
      [now apply H3|now apply H2]. }
  rewrite Hx. apply IH. intros y cy Hy. apply Hall. now right.
Qed.

Lemma foldl_selectStep_winner em opts e c (es : list EdgeAnalysis) best :
  In e es -> streetCandidateFor em opts e = Some c ->
  (forall x cx, In x es -> streetCandidateFor em opts x = Some cx ->
     (x = e /\ cx = c) \/ distanceMeters c + 3 < distanceMeters cx) ->
  match best with
  | None => True
  | Some (b, cb) => distanceMeters c + 3 < distanceMeters cb
  end ->
  foldl (selectStep em opts) best es = Some (e, c).
Proof.
  intros Hin Hc. revert best.
  induction es as [|x es IH]; intros best Hall Hbest; [destruct Hin|].
  cbn [foldl].
  destruct (streetCandidateFor em opts x) as [cx|] eqn:E.
  - destruct (Hall x cx (or_introl eq_refl) E) as [[-> ->]|Hfar].
    + assert (Hx : selectStep em opts best e = Some (e, c)).
      { destruct best as [[b cb]|]; [|now apply selectStep_first].
        now apply (selectStep_compare em opts b cb e c E). }
      rewrite Hx. apply foldl_selectStep_keeps.
      intros y cy Hy. apply Hall. now right.
    + destruct Hin as [->|Hin]; [rewrite Hc in E; injection E as <-; lra|].
      apply IH; [exact Hin|intros y cy Hy; apply Hall; now right|].
      destruct (selectStep_cases em opts best x)
        as [[Hn _]|(c' & Hc' & [[Hb _]|Hb])].
      * congruence.
      * rewrite Hb. exact Hbest.
      * rewrite Hb. congruence.
  - rewrite selectStep_none by exact E.
    destruct Hin as [->|Hin]; [congruence|].
    apply IH; [exact Hin|intros y cy Hy; apply Hall; now right|exact Hbest].
Qed.

(** X17.  [selectNearestEdgeByStreetCandidate] returns an edge of the list
    that has the street candidate asked for, and none exactly when no edge
    of the list has one.  An edge whose candidate is more than 3 m nearer
    than the candidate of every other edge that has one is the edge
    returned. *)
Theorem selectNearestEdgeByStreetCandidate_clear_winner
    (es : list EdgeAnalysis) (em : EdgeMatches) (opts : SelectOptions) :
  let selected := selectNearestEdgeByStreetCandidate es em opts in
  (forall e, selected = Some e ->
     In e es /\ is_Some (streetCandidateFor em opts e)) /\
  (selected = None <->
   forall e, In e es -> streetCandidateFor em opts e = None) /\
  (forall e c, In e es -> streetCandidateFor em opts e = Some c ->
     (forall x cx, In x es -> streetCandidateFor em opts x = Some cx ->
        (x = e /\ cx = c) \/ distanceMeters c + 3 < distanceMeters cx) ->
     selected = Some e).
Proof.
  cbv zeta. pose proof (selectNearest_spec es em opts) as Hs.
  split; [|split].
  - intros e He. now rewrite He in Hs.
  - split.
    + intros Hn. rewrite Hn in Hs.
      intros e He. exact (proj1 (List.Forall_forall _ _) Hs e He).
    + intros Hall.
      destruct (selectNearestEdgeByStreetCandidate es em opts) as [e|];
        [|reflexivity].
      destruct Hs as [Hin [c Hc]]. rewrite (Hall e Hin) in Hc. discriminate.
  - intros e c Hin Hc Hall. unfold selectNearestEdgeByStreetCandidate.
    now rewrite (foldl_selectStep_winner em opts e c es None Hin Hc Hall I).
Qed.

End NearestEdge.

(** ** The analysis without a map *)

Section WithoutMap.
Context (host : Host).

Lemma ringEdgesFrom_noRoad k (ring : list Position) :
  Forall noRoad (ringEdgesFrom host k ring).
Proof.
  revert k. induction ring as [|a ring IH]; intros k; [constructor|].
  destruct ring as [|b rest]; [constructor|].
  cbn [ringEdgesFrom]. constructor; [now repeat split|apply IH].
Qed.

Lemma toRingEdges_noRoad (ring : list Position) :
  Forall noRoad (toRingEdges host ring).
Proof.
  unfold toRingEdges. destruct (_ <? 2)%nat; [constructor|].
  apply ringEdgesFrom_noRoad.
Qed.

Lemma stampFrontageRear_noRoad (fi oi : option nat) (es : list EdgeAnalysis) :
  Forall noRoad es -> Forall noRoad (stampFrontageRear fi oi es).
Proof.
  intros Hes. unfold stampFrontageRear.
  assert (H2 : Forall noRoad
            match fi with
            | Some i => alter (setType Frontage) i es
            | None => es
            end).
  { destruct fi; [|exact Hes]. apply Forall_alter; [exact Hes|]. now intros. }
  destruct oi; [|exact H2]. apply Forall_alter; [exact H2|]. now intros.
Qed.

(** X18.  Without a map the analysis looks at the geometry only: the
    longest edge, the first of them on a tie, is the frontage (no edge of
    the result is longer, and every edge before it is shorter) and the edge
    found opposite to it the rear; a parcel with an edge has a frontage; no edge is marked adjacent to a road or
    given a road name, and each keeps the diagnostic of an edge without
    candidate; there is no flankage, no double fronting, the lot type is
    Standard without Lane and the confidence low. *)
Theorem analyzeParcel_without_map (parcel : ParcelFeature) :
  let ringEdges := toRingEdges host (default [] (head (coordinates parcel))) in
  let run := analyzeParcelRun host parcel None in
  let result := analyzeParcel host parcel None in
  lotType result = StandardWithoutLane /\ confidence result = low /\
  run_isDoubleFronting run = false /\ run_flankageCount run = 0%nat /\
  run_frontageIndex run = index <$> longestEdge ringEdges /\
  edges result
  = stampFrontageRear (run_frontageIndex run) (run_oppositeIndex run)
      ringEdges /\
  Forall noRoad (edges result) /\
  (forall i e, edges result !! i = Some e ->
     type e = if decide (run_oppositeIndex run = Some i) then Rear
              else if decide (run_frontageIndex run = Some i) then Frontage
              else Side) /\
  (ringEdges <> [] -> is_Some (run_frontageIndex run)) /\
  (forall i, run_frontageIndex run = Some i ->
     exists e, edges result !! i = Some e /\ type e = Frontage /\
       (forall j e', edges result !! j = Some e' ->
          (lengthMeters e' <= lengthMeters e)%Q) /\
       (forall j e', (j < i)%nat -> edges result !! j = Some e' ->
          (lengthMeters e' < lengthMeters e)%Q)).
Proof.
  cbv zeta. unfold analyzeParcel. rewrite analyzeParcelRun_firstLoop.
  change (firstLoop host parcel None)
    with (toRingEdges host (default [] (head (coordinates parcel))),
          (∅ : EdgeMatches)).
  cbn [fst snd].
  pose proof (toRingEdges_noRoad (default [] (head (coordinates parcel))))
    as Hno.
  assert (Hside : Forall (fun e => type e = Side)
            (toRingEdges host (default [] (head (coordinates parcel))))).
  { apply toRingEdges_Forall. now intros i a b e (_ & _ & _ & _ & _ & Ht & _). }
  pose proof (toRingEdges_indexed host
                (default [] (head (coordinates parcel)))) as Hidx.
  set (es0 := toRingEdges host (default [] (head (coordinates parcel)))) in *.
  clearbody es0.
  destruct (classifyEdges_no_matches host parcel es0 ∅ noMatches_empty)
    as (Hfi & Hoi & Hedges & Hmatched & Hcse & Hdf & Hurf & Hurl & Hcount).
  destruct (classifyEdges_lotType host parcel es0 ∅) as (Hrel & Hlane & Hlot).
  destruct (classifyEdges_confidence host parcel es0 ∅) as (Hconf & _).
  pose proof (fun i => classifyEdges_longest host parcel es0 ∅ i Hidx)
    as Hlong.
  cbv zeta in Hlong.
  set (run := classifyEdges host parcel es0 ∅) in *. clearbody run.
  set (fi := index <$> longestEdge es0) in *.
  set (oi := fi ≫= findOppositeEdgeIndex host (stampFrontageRear fi None es0))
    in *.
  assert (Hone : forall k, oi = Some k -> fi <> Some k).
  { subst oi. intros k Hk. destruct fi as [j|]; [|discriminate]. cbn in Hk.
    apply findOppositeEdgeIndex_other in Hk. congruence. }
  assert (Hsome : es0 <> [] -> is_Some fi).
  { intros Hne. unfold fi. destruct (longestEdge es0) as [le|] eqn:El;
      [now eexists|]. now apply longestEdge_None in El. }
  clearbody oi.
  pose proof (stampFrontageRear_noRoad fi oi es0 Hno) as Hno'.
  assert (Hnolane : run_laneDetectedOnOpposite run = false).
  { rewrite Hlane, Hedges, Hoi.
    destruct oi as [k|]; [|reflexivity].
    change (isLaneAdjacent (stampFrontageRear fi (Some k) es0 !! k) = false).
    destruct (stampFrontageRear fi (Some k) es0 !! k) as [e|] eqn:E;
      [|reflexivity].
    unfold isLaneAdjacent.
    destruct (proj1 (Forall_lookup _ _) Hno' k e E) as [Ha _].
    now rewrite Ha. }
  assert (Hlt : lotType (run_result run) = StandardWithoutLane).
  { rewrite Hlot. unfold determineLotType.
    rewrite <- Hlane, Hnolane, Hrel, Hcount, Hdf. reflexivity. }
  split; [exact Hlt|]. split.
  { rewrite Hconf, Hlt, Hmatched, Hcse, Hurf, Hurl. reflexivity. }
  split; [exact Hdf|]. split; [exact Hcount|]. split; [exact Hfi|].
  rewrite Hedges, Hfi, Hoi.
  split; [reflexivity|]. split; [exact Hno'|].
  split; [intros i e; now apply stampFrontageRear_types|].
  split; [exact Hsome|].
  intros i Hi. rewrite <- Hedges. destruct (Hlong i Hi) as (e & He & Hm & Hf).
  exists e. split; [exact He|]. split; [|split; assumption].
  rewrite Hedges in He.
  rewrite (stampFrontageRear_types fi oi es0 Hside i e He).
  destruct (decide (oi = Some i)) as [Ho|_].
  - exfalso. now apply (Hone i Ho).
  - destruct (decide (fi = Some i)); [reflexivity|contradiction].
Qed.

End WithoutMap.

(** ** The road marks of the returned edges *)

Section RoadMarks.
Context (host : Host).
Local Open Scope Q_scope.

Lemma frame_index (e e' : EdgeAnalysis) : frame e = frame e' -> index e = index e'.
Proof. unfold frame. intros H. injection H. intros _ _ _ _ Hi. exact Hi. Qed.

Lemma evaluate_strict edge c ev :
  evaluateRoadCandidateForEdge host edge c = Some ev -> withinStrictLimits ev.
Proof.
  unfold evaluateRoadCandidateForEdge.
  destruct (foldl keepBest None _) as [[d o]|]; [|discriminate].
  intros [= <-]. unfold withinStrictLimits. cbn.
  intros H. apply andb_true_iff in H. destruct H as [H1 H2].
  apply Qleb_le in H1. apply Qleb_le in H2.
  destruct (kind c); split; assumption.
Qed.

Lemma findEvaluated_strict m edge :
  Forall withinStrictLimits (findEvaluatedRoadCandidatesForEdge host m edge).
Proof.
  unfold findEvaluatedRoadCandidatesForEdge. cbv zeta.
  destruct (length _ =? 0)%nat; [constructor|].
  apply List.Forall_forall. intros ev Hev.
  eapply Permutation_in in Hev; [|apply sortWith_Permutation].
  apply list_elem_of_In, list_elem_of_omap in Hev.
  destruct Hev as (c & _ & Hc). eapply evaluate_strict, Hc.
Qed.

Lemma strict_widest c :
  withinStrictLimits c -> isAdjacent c = true ->
  withinWidestLimits (kind (candidate c)) (distanceMeters c)
    (orientationDiffDeg c).
Proof.
  unfold withinStrictLimits, withinWidestLimits. intros H Ha.
  specialize (H Ha). destruct (kind (candidate c)); lra.
Qed.

Lemma relaxedStreet_widest c mode :
  isRelaxedStreetCandidateForMode c mode = true ->
  withinWidestLimits street (distanceMeters c) (orientationDiffDeg c).
Proof.
  unfold isRelaxedStreetCandidateForMode.
  destruct (negb (isStreet c)); [discriminate|].
  unfold RELAXED_FRONTAGE_STREET_DISTANCE_METERS,
    RELAXED_FRONTAGE_STREET_ORIENTATION_DEG,
    RELAXED_FLANKAGE_STREET_DISTANCE_METERS,
    RELAXED_FLANKAGE_STREET_ORIENTATION_DEG.
  destruct mode; intros H; apply andb_true_iff in H; destruct H as [H1 H2];
    apply Qleb_le in H1; apply Qleb_le in H2; cbn; lra.
Qed.

Lemma relaxedLane_widest c :
  isRelaxedLaneCandidate c = true ->
  withinWidestLimits lane (distanceMeters c) (orientationDiffDeg c).
Proof.
  unfold isRelaxedLaneCandidate.
  destruct (negb (isLane c)); [discriminate|].
  unfold RELAXED_LANE_DISTANCE_METERS, RELAXED_LANE_ORIENTATION_DEG.
  intros H; apply andb_true_iff in H; destruct H as [H1 H2];
    apply Qleb_le in H1; apply Qleb_le in H2; cbn; lra.
Qed.

Lemma roadMarks_stampEdge t c k e :
  withinWidestLimits k (distanceMeters c) (orientationDiffDeg c) ->
  roadMarksAgree (stampEdge host t c k e).
Proof.
  intros H. split; [discriminate|]. intros _.
  exists k, (distanceMeters c), (orientationDiffDeg c). now repeat split.
Qed.

Lemma roadMarks_applyMatch e m :
  withinStrictLimits m -> roadMarksAgree (applyMatchToEdge host e m).
Proof.
  intros H. unfold roadMarksAgree. cbn.
  destruct (isAdjacent m) eqn:E.
  - split; [discriminate|]. intros _.
    exists (kind (candidate m)), (distanceMeters m), (orientationDiffDeg m).
    repeat split. now apply strict_widest.
  - split; [reflexivity|discriminate].
Qed.

Lemma roadMarks_stampDefault ms e :
  Forall withinStrictLimits ms -> roadMarksAgree e ->
  roadMarksAgree (stampDefault host ms e).
Proof.
  intros Hms He. unfold stampDefault.
  assert (Hin : forall m, In m ms -> withinStrictLimits m).
  { intros m Hm. exact (proj1 (List.Forall_forall _ _) Hms m Hm). }
  destruct (firstAdjacentStreet ms false relaxFrontage) as [m|] eqn:E1.
  { apply roadMarks_applyMatch, Hin. unfold firstAdjacentStreet in E1.
    now apply find_some in E1. }
  destruct (List.find isAdjacent ms) as [m|] eqn:E2.
  { apply roadMarks_applyMatch, Hin. now apply find_some in E2. }
  destruct (head ms) as [m|] eqn:E3.
  { apply roadMarks_applyMatch, Hin. now apply head_In. }
  exact He.
Qed.

Lemma street_widest ms relaxed mode c :
  Forall withinStrictLimits ms ->
  firstAdjacentStreet ms relaxed mode = Some c ->
  withinWidestLimits street (distanceMeters c) (orientationDiffDeg c).
Proof.
  intros Hms Hc. apply street_Some in Hc.
  destruct Hc as (Hin & Hk & [Ha|[_ Hr]]).
  - rewrite <- Hk. apply strict_widest; [|exact Ha].
    exact (proj1 (List.Forall_forall _ _) Hms c Hin).
  - eapply relaxedStreet_widest, Hr.
Qed.

Lemma byName_widest ms nps relaxed mode c :
  Forall withinStrictLimits ms ->
  firstAdjacentStreetByName ms nps relaxed mode = Some c ->
  withinWidestLimits street (distanceMeters c) (orientationDiffDeg c).
Proof.
  intros Hms Hc. apply byName_Some in Hc.
  destruct Hc as (_ & Hin & Hk & _ & [Ha|[_ Hr]]).
  - rewrite <- Hk. apply strict_widest; [|exact Ha].
    exact (proj1 (List.Forall_forall _ _) Hms c Hin).
  - eapply relaxedStreet_widest, Hr.
Qed.

Lemma lane_widest ms relaxed c :
  Forall withinStrictLimits ms ->
  firstAdjacentLane ms relaxed = Some c ->
  withinWidestLimits lane (distanceMeters c) (orientationDiffDeg c).
Proof.
  intros Hms Hc. apply lane_Some in Hc.
  destruct Hc as (Hin & Hk & [Ha|[_ Hr]]).
  - rewrite <- Hk. apply strict_widest; [|exact Ha].
    exact (proj1 (List.Forall_forall _ _) Hms c Hin).
  - eapply relaxedLane_widest, Hr.
Qed.

Lemma roadMarks_stampFrontage em nps e :
  Forall withinStrictLimits (matchesOf em e) -> roadMarksAgree e ->
  roadMarksAgree (stampFrontage host em nps e).
Proof.
  intros Hms He. unfold stampFrontage. cbv zeta.
  destruct (firstAdjacentStreetByName (matchesOf em e) nps true relaxFrontage)
    as [c|] eqn:E1; cbn [orTry].
  { eapply roadMarks_stampEdge, byName_widest; eassumption. }
  destruct (firstAdjacentStreet (matchesOf em e) true relaxFrontage)
    as [c|] eqn:E2.
  { eapply roadMarks_stampEdge, street_widest; eassumption. }
  exact He.
Qed.

Lemma roadMarks_stampRear em e :
  Forall withinStrictLimits (matchesOf em e) -> roadMarksAgree e ->
  roadMarksAgree (fst (stampRear host em e)).
Proof.
  intros Hms He. unfold stampRear.
  destruct (firstAdjacentLane (matchesOf em e) true) as [l|] eqn:E;
    [|exact He].
  pose proof (lane_widest _ _ _ Hms E) as Hw.
  pose proof (roadMarks_stampEdge RearLane l lane e Hw) as H.
  destruct (negb (isAdjacent l)); exact H.
Qed.

Lemma roadMarks_flankOne em fi oi base relaxed e :
  Forall withinStrictLimits (matchesOf em e) -> roadMarksAgree e ->
  roadMarksAgree (flankOne host em fi oi base relaxed e).
Proof.
  intros Hms He. unfold flankOne.
  destruct (indexIs fi e || indexIs oi e); [exact He|].
  destruct (firstDifferentStreetCandidate (matchesOf em e) base relaxed)
    as [c|] eqn:E; [|exact He].
  apply roadMarks_stampEdge.
  unfold firstDifferentStreetCandidate in E. apply find_some in E.
  destruct E as [Hin Hp]. cbv zeta in Hp.
  apply andb_true_iff in Hp. destruct Hp as [Hp Hadj].
  apply andb_true_iff in Hp. destruct Hp as [Hp _].
  apply andb_true_iff in Hp. destruct Hp as [Hst _].
  apply bool_decide_eq_true in Hst.
  destruct (isAdjacent c) eqn:Ea.
  - rewrite <- Hst. apply strict_widest; [|exact Ea].
    exact (proj1 (List.Forall_forall _ _) Hms c Hin).
  - cbn [orb] in Hadj. apply andb_true_iff in Hadj.
    eapply relaxedStreet_widest, (proj2 Hadj).
Qed.

Lemma doubleFronting_widest em fe oe base c :
  (forall opp, oe = Some opp -> Forall withinStrictLimits (matchesOf em opp)) ->
  doubleFrontingCandidate em fe oe base = Some c ->
  withinWidestLimits street (distanceMeters c) (orientationDiffDeg c).
Proof.
  intros Hms. unfold doubleFrontingCandidate.
  destruct fe as [f|]; [|discriminate]. destruct oe as [opp|]; [|discriminate].
  specialize (Hms opp eq_refl). unfold matchesOf in Hms.
  destruct (em !! index opp) as [ms|]; [|discriminate]. cbn in Hms.
  destruct (firstAdjacentStreet ms true relaxFrontage) as [c'|] eqn:F;
    [|discriminate].
  destruct (_ && _); [|discriminate]. intros [= <-].
  eapply street_widest; eassumption.
Qed.

Lemma roadMarks_classifiedEdge parcel (es : list EdgeAnalysis) em i e :
  (forall j x, es !! j = Some x ->
     Forall withinStrictLimits (matchesOf em x)) ->
  es !! i = Some e -> roadMarksAgree e ->
  roadMarksAgree (classifiedEdge host parcel es em i e).
Proof.
  intros Hall He Hok. unfold classifiedEdge. cbv zeta.
  pose proof (Hall i e He) as Hms.
  assert (Hdf : forall c, stageDoubleFronting host parcel es em = Some c ->
            withinWidestLimits street (distanceMeters c)
              (orientationDiffDeg c)).
  { intros c. unfold stageDoubleFronting. apply doubleFronting_widest.
    intros opp Hopp. unfold edgeAt in Hopp.
    destruct (stageOppositeIndex host parcel es em) as [k|]; [|discriminate].
    cbn in Hopp.
    destruct (same_indices_lookup es
                (stageFrontageEdges host parcel es em) k opp
                (map_index_stampFrontageAt host em _ _ es) Hopp)
      as (x & Hx & Hxi).
    unfold matchesOf. rewrite <- Hxi. exact (Hall k x Hx). }
  set (fi := stageFrontageIndex parcel es em).
  set (oi := stageOppositeIndex host parcel es em).
  set (df := stageDoubleFronting host parcel es em) in *.
  set (base := stageBaseStreet host parcel es em).
  set (relaxed := stageRelaxedFlankage host parcel es em).
  set (nps := stagePrimaryStreet parcel).
  clearbody fi oi df base relaxed nps.
  assert (H2 : roadMarksAgree
                 (if decide (fi = Some i)
                  then stampFrontage host em nps e else e) /\
               matchesOf em (if decide (fi = Some i)
                             then stampFrontage host em nps e else e)
               = matchesOf em e).
  { destruct (decide (fi = Some i)); [|now split].
    split; [now apply roadMarks_stampFrontage|].
    unfold matchesOf. now rewrite index_stampFrontage. }
  set (e2 := if decide (fi = Some i) then stampFrontage host em nps e else e)
    in *.
  clearbody e2. destruct H2 as [H2 M2].
  destruct df as [c|].
  - apply roadMarks_flankOne.
    + destruct (decide (oi = Some i)); [|now rewrite M2].
      unfold matchesOf. rewrite index_stampEdge.
      fold (matchesOf em e2). now rewrite M2.
    + destruct (decide (oi = Some i)); [|exact H2].
      now apply roadMarks_stampEdge, Hdf.
  - assert (H4 : roadMarksAgree (flankOne host em fi oi base relaxed e2)).
    { apply roadMarks_flankOne; [now rewrite M2|exact H2]. }
    destruct (decide (oi = Some i)); [|exact H4].
    apply roadMarks_stampRear; [|exact H4].
    assert (M4 : matchesOf em (flankOne host em fi oi base relaxed e2)
                 = matchesOf em e2).
    { unfold matchesOf.
      now rewrite (frame_index _ _
                     (frame_flankOne host em fi oi base relaxed e2)). }
    now rewrite M4, M2.
Qed.

Lemma firstLoop_roadMarks parcel map i e :
  fst (firstLoop host parcel map) !! i = Some e ->
  roadMarksAgree e /\
  Forall withinStrictLimits (matchesOf (snd (firstLoop host parcel map)) e).
Proof.
  intros He. destruct (firstLoop_edge host parcel map i e He) as (r & Hr & Hm).
  assert (Hfresh : roadMarksAgree r).
  { apply toRingEdges_lookup_inv in Hr.
    destruct Hr as (a & b & _ & _ & Hf).
    destruct Hf as (_ & _ & _ & _ & _ & _ & Hk & Ha & _).
    split; [now intros _|]. intros H. congruence. }
  set (em := snd (firstLoop host parcel map)) in *. clearbody em.
  destruct map as [m|]; destruct Hm as [-> Hms]; rewrite Hms.
  - split; [|apply findEvaluated_strict].
    apply roadMarks_stampDefault; [apply findEvaluated_strict|exact Hfresh].
  - split; [exact Hfresh|constructor].
Qed.

(** X19.  The road marks of every returned edge agree: an edge that is
    not marked adjacent has no road kind; an edge marked adjacent has a
    road kind, a distance and an orientation difference, the distance at
    most 30 m and the difference at most 85 degrees for a street, at most
    42 m and 110 degrees for a lane.  A flankage edge is within 24 m and
    70 degrees of its street. *)
Theorem analyzeParcel_road_marks (parcel : ParcelFeature)
    (map : option MapboxMap) :
  let result := analyzeParcel host parcel map in
  forall i e, edges result !! i = Some e ->
    roadMarksAgree e /\
    (type e = Flankage ->
     exists d o, roadDistanceMeters e = Some d /\
       edge_orientationDiffDeg e = Some o /\ d <= 24 /\ o <= 70).
Proof.
  cbv zeta. unfold analyzeParcel. rewrite analyzeParcelRun_firstLoop.
  pose proof (firstLoop_roadMarks parcel map) as Hfl.
  pose proof (firstLoop_indexed host parcel map) as Hidx.
  pose proof (firstLoop_side host parcel map) as Hside.
  set (es0 := fst (firstLoop host parcel map)) in *.
  set (em := snd (firstLoop host parcel map)) in *.
  clearbody es0 em.
  pose proof (classifyEdges_lookup host parcel es0 em) as Hl.
  pose proof (classifyEdges_flankage host parcel es0 em Hidx Hside) as Hfk.
  cbv zeta in Hfk.
  set (run := classifyEdges host parcel es0 em) in *. clearbody run.
  intros i e He. pose proof (Hfk i e He) as [Hflank _]. clear Hfk.
  rewrite Hl in He.
  destruct (es0 !! i) as [e0|] eqn:He0; [|discriminate].
  cbn in He. injection He as <-.
  split.
  - apply roadMarks_classifiedEdge.
    + intros j x Hx. now apply (Hfl j x).
    + exact He0.
    + now apply (Hfl i e0).
  - intros Ht.
    destruct (Hflank Ht)
      as (_ & _ & _ & _ & _ & _ & c & Hin & Hk & _ & Hd & Ho & Hc).
    assert (Hms : Forall withinStrictLimits (matchesOf em e0)).
    { now apply (Hfl i e0). }
    pose proof (frame_index _ _ (frame_classifiedEdge host parcel es0 em i e0))
      as Hi.
    set (e := classifiedEdge host parcel es0 em i e0) in *. clearbody e.
    unfold matchesOf in Hin. rewrite Hi in Hin. fold (matchesOf em e0) in Hin.
    pose proof (proj1 (List.Forall_forall _ _) Hms c Hin) as Hs.
    exists (distanceMeters c), (orientationDiffDeg c).
    split; [exact Hd|]. split; [exact Ho|].
    destruct Hc as [Ha|[_ Hr]].
    + specialize (Hs Ha). rewrite Hk in Hs. lra.
    + unfold isRelaxedStreetCandidateForMode in Hr.
      destruct (negb (isStreet c)); [discriminate|].
      apply andb_true_iff in Hr. destruct Hr as [H1 H2].
      apply Qleb_le in H1. apply Qleb_le in H2.
      unfold RELAXED_FLANKAGE_STREET_DISTANCE_METERS,
        RELAXED_FLANKAGE_STREET_ORIENTATION_DEG in *. lra.
Qed.

End RoadMarks.

(** ** The callers of the analysis *)

(** X20.  The five edge types are drawn in five different colours: two
    edges have the same colour exactly when they have the same type. *)
Theorem edgeColor_tells_type (a b : EdgeType) :
  edgeColor a = edgeColor b <-> a = b.
Proof.
  split; [|now intros ->].
  destruct a, b; cbn; intros H; try reflexivity; discriminate.
Qed.

Module ParcelSelectionFacts.
Import ParcelSelection.

Lemma find_snoc {A : Type} (p : A -> bool) (l : list A) x :
  List.find p (l ++ [x])
  = match List.find p l with
    | Some y => Some y
    | None => if p x then Some x else None
    end.
Proof.
  induction l as [|y l IH]; cbn; [reflexivity|].
  destruct (p y); [reflexivity|exact IH].
Qed.

Lemma parcelsById_from (parcels : list ParcelFeature)
    (byId : gmap string ParcelFeature) id :
  foldl (fun byId parcel => <[parcel_id (properties parcel) := parcel]> byId)
        byId parcels !! id
  = match lastWithId parcels id with
    | Some parcel => Some parcel
    | None => byId !! id
    end.
Proof.
  revert byId. induction parcels as [|p parcels IH]; intros byId;
    [reflexivity|].
  cbn [foldl]. rewrite IH. unfold lastWithId. cbn [rev].
  change (rev parcels) with (List.rev parcels).
  rewrite find_snoc.
  destruct (List.find _ (List.rev parcels)); [reflexivity|].
  destruct (String.eqb_spec (parcel_id (properties p)) id) as [->|Hne].
  - apply lookup_insert_eq.
  - now apply lookup_insert_ne.
Qed.

Lemma parcelsById_lookup (parcels : list ParcelFeature) id :
  parcelsById parcels !! id = lastWithId parcels id.
Proof.
  unfold parcelsById. rewrite parcelsById_from, lookup_empty.
  now destruct (lastWithId parcels id).
Qed.

Section Selection.
Context (host : Host).

(** X21.  What [useParcelSelection] shows.  Nothing is shown before a
    selection, for the empty id, or for an id that no parcel has.  After
    [select] the analysis is that of the last parcel of the list with the
    selected id, against the map of the hook.  After [refreshAnalysis] for
    a parcel of the list, the analysis of that parcel against the current
    map is shown when the parcel is the selected one, and else the
    analysis against the map of the hook; a new [select] drops it. *)
Theorem useParcelSelection_shows (parcels : list ParcelFeature)
    (map : option MapboxMap) (currentMap : MapboxMap) (st : SelectionState)
    (id other : string) :
  let shown := analysis host parcels map in
  let computed id :=
    if isEmpty id then None
    else (fun parcel => analyzeParcel host parcel map)
           <$> lastWithId parcels id in
  shown initialState = None /\
  shown (select id st) = computed id /\
  shown (refreshAnalysis host parcels other currentMap (select id st))
  = (if isEmpty id then None
     else match lastWithId parcels other with
          | Some parcel =>
              if String.eqb other id
              then Some (analyzeParcel host parcel (Some currentMap))
              else computed id
          | None => computed id
          end) /\
  shown (select id (refreshAnalysis host parcels other currentMap st))
  = computed id.
Proof.
  cbv zeta.
  assert (Hsel : forall st', analysis host parcels map (select id st')
            = if isEmpty id then None
              else (fun parcel => analyzeParcel host parcel map)
                     <$> lastWithId parcels id).
  { intros st'. unfold analysis, computedAnalysis, selectedParcel, truthyId.
    cbn [select selectedParcelId analysisOverride].
    destruct (isEmpty id); [reflexivity|].
    cbn [mbind option_bind]. now rewrite parcelsById_lookup. }
  split; [reflexivity|]. split; [apply Hsel|]. split; [|apply Hsel].
  unfold refreshAnalysis. rewrite parcelsById_lookup.
  destruct (lastWithId parcels other) as [parcel|];
    [|rewrite Hsel; now destruct (isEmpty id)].
  unfold analysis, computedAnalysis, selectedParcel, truthyId.
  cbn [select selectedParcelId analysisOverride].
  destruct (isEmpty id); [reflexivity|].
  cbn [mbind option_bind]. rewrite parcelsById_lookup.
  now destruct (String.eqb other id).
Qed.

End Selection.

End ParcelSelectionFacts.

(** ** Normalized street names *)

Section NormalizedNames.
Import JsString.
Local Open Scope string_scope.

Lemma append_cons c (a b : string) : String c a ++ b = String c (a ++ b).
Proof. reflexivity. Qed.

Lemma append_nil (b : string) : "" ++ b = b.
Proof. reflexivity. Qed.

Lemma noChar_app p (a b : string) :
  noChar p (a ++ b) = noChar p a && noChar p b.
Proof.
  induction a as [|c a IH]; [reflexivity|].
  rewrite append_cons. cbn [noChar]. now rewrite IH, andb_assoc.
Qed.

Lemma lower_punct_normal (c : ascii) :
  notNormalChar
    (if Ascii.eqb (lowerChar c) "." || Ascii.eqb (lowerChar c) ","
     then " "%char else lowerChar c) = false.
Proof.
  destruct c as [[] [] [] [] [] [] [] []]; vm_compute; reflexivity.
Qed.

Lemma noChar_lower_punct (s : string) :
  noChar notNormalChar (replacePunct (toLowerCase s)) = true.
Proof.
  induction s as [|c s IH]; cbn [toLowerCase replacePunct noChar];
    [reflexivity|].
  now rewrite lower_punct_normal, IH.
Qed.

Lemma noChar_replaceWordFrom p w r prevWord skip (s : string) :
  noChar p r = true -> noChar p s = true ->
  noChar p (replaceWordFrom w r prevWord skip s) = true.
Proof.
  intros Hr. revert prevWord skip.
  induction s as [|c s IH]; intros prevWord skip Hs; [reflexivity|].
  cbn [noChar] in Hs. apply andb_true_iff in Hs. destruct Hs as [Hc Hs].
  cbn [replaceWordFrom]. destruct skip as [|k]; [|now apply IH].
  destruct (wordAt prevWord w (String c s)).
  - rewrite noChar_app, Hr. now apply IH.
  - cbn [noChar]. rewrite Hc. now apply IH.
Qed.

Lemma noChar_collapse p inRun (s : string) :
  p " "%char = false -> noChar p s = true ->
  noChar p (collapseSpacesFrom inRun s) = true.
Proof.
  intros Hp. revert inRun.
  induction s as [|c s IH]; intros inRun Hs; [reflexivity|].
  cbn [noChar] in Hs. apply andb_true_iff in Hs. destruct Hs as [Hc Hs].
  cbn [collapseSpacesFrom]. destruct (isSpaceChar c).
  - destruct inRun; [now apply IH|]. cbn [noChar]. rewrite Hp. now apply IH.
  - cbn [noChar]. rewrite Hc. now apply IH.
Qed.

Lemma noChar_trimStart p (s : string) :
  noChar p s = true -> noChar p (trimStart s) = true.
Proof.
  induction s as [|c s IH]; [reflexivity|]. intros Hs.
  cbn [trimStart]. destruct (isSpaceChar c); [|exact Hs].
  cbn [noChar] in Hs. apply andb_true_iff in Hs. now apply IH.
Qed.

(** *** [trimEnd], from the left *)

Lemma rev_string_app (s acc : string) :
  rev_string s acc = rev_string s "" ++ acc.
Proof.
  revert acc. induction s as [|c s IH]; intros acc; [reflexivity|].
  cbn [rev_string]. rewrite (IH (String c acc)), (IH (String c "")).
  generalize (rev_string s ""). intros t.
  induction t as [|d t IHt]; [reflexivity|].
  rewrite !append_cons. now rewrite IHt.
Qed.

Lemma rev_string_cons c (s : string) :
  rev_string (String c s) "" = rev_string s "" ++ String c "".
Proof. cbn [rev_string]. apply rev_string_app. Qed.

Lemma rev_string_snoc (s : string) c acc :
  rev_string (s ++ String c "") acc = String c (rev_string s acc).
Proof.
  revert acc. induction s as [|d s IH]; intros acc; [reflexivity|].
  rewrite append_cons. cbn [rev_string]. apply IH.
Qed.

Lemma trimStart_snoc (a : string) c :
  trimStart (a ++ String c "")
  = match trimStart a with
    | EmptyString => if isSpaceChar c then "" else String c ""
    | String d t => String d t ++ String c ""
    end.
Proof.
  induction a as [|x a IH].
  - rewrite append_nil. cbn [trimStart]. now destruct (isSpaceChar c).
  - rewrite append_cons. cbn [trimStart].
    destruct (isSpaceChar x); [exact IH|reflexivity].
Qed.

(** [trimEnd] drops the last character when it is white space and nothing
    but white space follows it. *)
Lemma trimEnd_cons c (s : string) :
  trimEnd (String c s)
  = match trimEnd s with
    | EmptyString => if isSpaceChar c then "" else String c ""
    | String d t => String c (String d t)
    end.
Proof.
  unfold trimEnd. rewrite rev_string_cons, trimStart_snoc.
  destruct (trimStart (rev_string s "")) as [|d t].
  - cbn [rev_string]. now destruct (isSpaceChar c).
  - rewrite rev_string_snoc.
    destruct (rev_string (String d t) "") as [|x u] eqn:E; [|reflexivity].
    exfalso. rewrite rev_string_cons in E.
    destruct (rev_string t ""); discriminate.
Qed.

Lemma noChar_trimEnd p (s : string) :
  noChar p s = true -> noChar p (trimEnd s) = true.
Proof.
  induction s as [|c s IH]; [reflexivity|]. intros Hs.
  cbn [noChar] in Hs. apply andb_true_iff in Hs. destruct Hs as [Hc Hs].
  rewrite trimEnd_cons. specialize (IH Hs).
  destruct (trimEnd s) as [|d t].
  - destruct (isSpaceChar c); [reflexivity|]. cbn [noChar]. now rewrite Hc.
  - cbn [noChar] in *. now rewrite Hc, IH.
Qed.

Lemma startsClean_trimStart (s : string) : startsClean (trimStart s) = true.
Proof.
  induction s as [|c s IH]; [reflexivity|]. cbn [trimStart].
  destruct (isSpaceChar c) eqn:E; [exact IH|]. cbn. now rewrite E.
Qed.

Lemma noRuns_trimStart (s : string) :
  noRuns s = true -> noRuns (trimStart s) = true.
Proof.
  induction s as [|c s IH]; [reflexivity|]. intros Hs.
  cbn [trimStart]. destruct (isSpaceChar c); [|exact Hs].
  cbn [noRuns] in Hs. apply andb_true_iff in Hs. now apply IH.
Qed.

Lemma collapseSpaces_noRuns inRun (s : string) :
  noRuns (collapseSpacesFrom inRun s) = true /\
  (inRun = true -> startsClean (collapseSpacesFrom inRun s) = true).
Proof.
  revert inRun. induction s as [|c s IH]; intros inRun; [now split|].
  cbn [collapseSpacesFrom]. destruct (isSpaceChar c) eqn:E.
  - destruct inRun.
    + apply IH.
    + split; [|discriminate]. destruct (IH true) as [H1 H2].
      cbn [noRuns]. now rewrite H1, (H2 eq_refl).
  - split.
    + cbn [noRuns]. rewrite E. apply IH.
    + intros _. cbn. now rewrite E.
Qed.

Lemma startsClean_trimEnd (s : string) :
  startsClean s = true -> startsClean (trimEnd s) = true.
Proof.
  destruct s as [|c s]; [reflexivity|]. cbn [startsClean]. intros Hc.
  rewrite trimEnd_cons. apply negb_true_iff in Hc.
  destruct (trimEnd s); rewrite ?Hc; cbn; now rewrite Hc.
Qed.

Lemma blanksInside_trimEnd (s : string) :
  noRuns s = true -> blanksInside (trimEnd s) = true.
Proof.
  induction s as [|c s IH]; [reflexivity|]. intros Hs.
  cbn [noRuns] in Hs. apply andb_true_iff in Hs. destruct Hs as [Hc Hs].
  rewrite trimEnd_cons. specialize (IH Hs).
  pose proof (startsClean_trimEnd s) as Hst.
  destruct (trimEnd s) as [|d t].
  - destruct (isSpaceChar c) eqn:E; [reflexivity|]. cbn. now rewrite E.
  - cbn [blanksInside] in *. rewrite IH, andb_true_r.
    destruct (isSpaceChar c); [|reflexivity].
    apply andb_true_iff in Hc. destruct Hc as [Hb Hs'].
    rewrite Hb. cbn [andb]. exact (Hst Hs').
Qed.

(** X22.  A normalized street name has no upper-case letter, full stop or
    comma, and its white space is single blanks between other characters:
    none at the start or the end, none doubled, no tab or line break. *)
Theorem normalizeStreetName_canonical (value : string) :
  let normalized := normalizeStreetName value in
  noChar notNormalChar normalized = true /\
  blanksInside normalized = true /\
  startsClean normalized = true.
Proof.
  cbv zeta. unfold normalizeStreetName, trim, collapseSpaces, replaceWord.
  split; [|split].
  - apply noChar_trimEnd, noChar_trimStart, noChar_collapse; [reflexivity|].
    repeat (apply noChar_replaceWordFrom; [reflexivity|]).
    apply noChar_lower_punct.
  - apply blanksInside_trimEnd, noRuns_trimStart, collapseSpaces_noRuns.
  - apply startsClean_trimEnd, startsClean_trimStart.
Qed.

End NormalizedNames.

(** ** The further theorems at the sample lot *)

Lemma flat_distance_nonneg (a b : Position) :
  (0 <= Scenario.flat_distance a b)%Q.
Proof.
  unfold Scenario.flat_distance, Scenario.METERS_PER_DEGREE.
  pose proof (Qabs_nonneg (fst a - fst b)).
  pose proof (Qabs_nonneg (snd a - snd b)).
  apply Qmult_le_0_compat; [discriminate|lra].
Qed.


(** The lot has four edges, and an opposite edge is found without a map. *)
Lemma analyzeParcel_opposite_found_witness :
  (forall a b, (0 <= turf_distance Scenario.flatHost a b)%Q) /\
  is_Some (run_oppositeIndex
             (analyzeParcelRun Scenario.flatHost Scenario.lot None)).
Proof.
  split; [exact flat_distance_nonneg|].
  apply (proj1 (analyzeParcel_opposite_found Scenario.flatHost Scenario.lot
                  None flat_distance_nonneg)).
  vm_compute. lia.
Defined.

(** With Oak Avenue 5 m east of the lot the east side is a flankage edge,
    adjacent to a street. *)
Lemma analyzeParcel_flankage_edges_witness :
  let map := Some (Scenario.mapOf
                     [Scenario.mainStreet 10; Scenario.oakAvenue 5]) in
  exists e,
    edges (analyzeParcel Scenario.flatHost Scenario.lot map) !! 1%nat
    = Some e /\
    type e = Flankage /\ isRoadAdjacent e = true /\ roadKind e = Some street.
Proof.
  cbv zeta.
  destruct (edges (analyzeParcel Scenario.flatHost Scenario.lot
                     (Some (Scenario.mapOf
                              [Scenario.mainStreet 10; Scenario.oakAvenue 5])))
              !! 1%nat) as [e|] eqn:He; [|vm_compute in He; discriminate].
  assert (Ht : type e = Flankage).
  { vm_compute in He. injection He as <-. reflexivity. }
  exists e. split; [reflexivity|]. split; [exact Ht|].
  destruct (proj1 (analyzeParcel_flankage_edges Scenario.flatHost
                     Scenario.lot _ 1%nat e He) Ht)
    as (_ & _ & Ha & Hk & _).
  split; [exact Ha|exact Hk].
Defined.


(** The road marks of the south side of the lot on Main Street agree. *)
Lemma analyzeParcel_road_marks_witness :
  let map := Some (Scenario.mapOf
                     [Scenario.mainStreet 10; Scenario.rearLane]) in
  exists e,
    edges (analyzeParcel Scenario.flatHost Scenario.lot map) !! 0%nat
    = Some e /\
    roadMarksAgree e.
Proof.
  cbv zeta.
  destruct (edges (analyzeParcel Scenario.flatHost Scenario.lot
                     (Some (Scenario.mapOf
                              [Scenario.mainStreet 10; Scenario.rearLane])))
              !! 0%nat) as [e|] eqn:He; [|vm_compute in He; discriminate].
  exists e. split; [reflexivity|].
  exact (proj1 (analyzeParcel_road_marks Scenario.flatHost Scenario.lot _
                  0%nat e He)).
Defined.
